(** * Swiss Ephemeris MCP server: chart normalisation and synastry aspects

    A shallow embedding of the computational core of [index.js]:
    the three position-line parsers ([parsePlanetLine], [parseHouseLine],
    [parseChartPointLine]), the chart assembly of [calculateEphemeris]
    and the aspect engine [calculateSynastryAspects].

    Numbers.  A JavaScript number is modelled as an exact rational or [NaN]:
    the arithmetic of the program (sums, differences, division by the
    constants 60, 3600, 30 and 100, [%], [Math.floor], [Math.round],
    [Math.abs], [toFixed]) is carried out exactly, so the general theorems
    speak about the values the program computes up to the rounding error
    and the finite range of binary64.  [NaN] is kept because the program
    itself can produce it from text ([parseFloat] of a seconds field without
    a leading number).  Where the rounding decides the outcome, for the Part
    of Fortune, module [Binary64] repeats the computation on primitive
    binary64 numbers and evaluates it.

    Text.  A string is a sequence of code units below 256; white space is
    the part of the ECMAScript [\s] class in that range.

    The server.  Module [Server], after the vocabulary of the chart, embeds
    what is around the core: the formatting of the calculator's arguments,
    the commands, the tools with their checks and the HTTP endpoint. *)

From Stdlib Require Import QArith Qabs Qround Qminmax Lqa ZArith Lia.
From Stdlib Require Import Sorting.Sorted Sorting.Permutation.
From Stdlib Require Import Ascii String.
From Stdlib Require Import PrimFloat SpecFloat FloatOps.
From stdpp Require Import gmap strings list pretty.

Local Open Scope string_scope.

(** ** JavaScript numbers *)

Inductive number : Type :=
| Num (q : Q)
| NaN.

Module JS.

Definition lift1 (f : Q -> Q) (a : number) : number :=
  match a with Num x => Num (f x) | NaN => NaN end.

Definition lift2 (f : Q -> Q -> Q) (a b : number) : number :=
  match a, b with Num x, Num y => Num (f x y) | _, _ => NaN end.

Definition add : number -> number -> number := lift2 Qplus.
Definition sub : number -> number -> number := lift2 Qminus.
Definition mul : number -> number -> number := lift2 Qmult.

Definition Qis_zero (y : Q) : bool := Qeq_bool y 0.

(** [a / b]; the program only divides by non-zero constants, a zero
    divisor would give an infinity or [NaN], both outside the model. *)
Definition div (a b : number) : number :=
  match a, b with
  | Num x, Num y => if Qis_zero y then NaN else Num (x / y)%Q
  | _, _ => NaN
  end.

(** Rounding towards zero, as the quotient of [%] does. *)
Definition Qtrunc (x : Q) : Z :=
  if Qle_bool 0 x then Qfloor x else Qceiling x.

(** [a % b]: the remainder has the sign of the dividend. *)
Definition rem (a b : number) : number :=
  match a, b with
  | Num x, Num y =>
      if Qis_zero y then NaN else Num (x - y * inject_Z (Qtrunc (x / y)))%Q
  | _, _ => NaN
  end.

(** [Math.floor], [Math.abs] *)
Definition floor : number -> number :=
  lift1 (fun x => inject_Z (Qfloor x)).
Definition abs : number -> number := lift1 Qabs.

(** [Math.round]: the nearest integer, a tie going up. *)
Definition round : number -> number :=
  lift1 (fun x => inject_Z (Qfloor (x + (1 # 2)))).

(** Comparisons: every comparison with [NaN] is false. *)
Definition le (a b : number) : bool :=
  match a, b with Num x, Num y => Qle_bool x y | _, _ => false end.
Definition lt (a b : number) : bool :=
  match a, b with Num x, Num y => negb (Qle_bool y x) | _, _ => false end.
Definition gt (a b : number) : bool := lt b a.

Definition ofZ (n : Z) : number := Num (inject_Z n).

End JS.

Declare Scope js_scope.
Delimit Scope js_scope with js.
Bind Scope js_scope with number.
Infix "+" := JS.add : js_scope.
Infix "-" := JS.sub : js_scope.
Infix "*" := JS.mul : js_scope.
Infix "/" := JS.div : js_scope.
Infix "mod" := JS.rem : js_scope.

(** Equality of numbers as values: rationals up to [Qeq]. *)
Definition num_eq (a b : number) : Prop :=
  match a, b with
  | Num x, Num y => x == y
  | NaN, NaN => True
  | _, _ => False
  end.

(** The fixed-notation string of [toFixed(2)]: [Dec neg h] stands for the
    string with an optional minus sign, the decimal digits of [h / 100], a
    dot and the two digits of [h mod 100]; [DecNaN] for the string NaN. *)
Inductive decimal2 : Type :=
| Dec (negative : bool) (hundredths : Z)
| DecNaN.

(** [x.toFixed(2)]: the sign is split off and the magnitude rounded to the
    nearest hundredth, a tie going to the larger one. *)
Definition toFixed2 (x : number) : decimal2 :=
  match x with
  | NaN => DecNaN
  | Num q =>
      if negb (Qle_bool 0 q)
      then Dec true (Qfloor (- q * 100 + (1 # 2)))
      else Dec false (Qfloor (q * 100 + (1 # 2)))
  end.

(** [parseFloat] of a string produced by [toFixed(2)]. *)
Definition parseFloatDec (d : decimal2) : number :=
  match d with
  | DecNaN => NaN
  | Dec true h => Num (- (inject_Z h / 100))%Q
  | Dec false h => Num (inject_Z h / 100)%Q
  end.

(** ** Strings *)

Definition isDigit (c : ascii) : bool :=
  let n := nat_of_ascii c in (48 <=? n)%nat && (n <=? 57)%nat.

(** [\s] and the characters removed by [trim]: TAB, LF, VT, FF, CR, SP,
    NBSP. *)
Definition isSpace (c : ascii) : bool :=
  let n := nat_of_ascii c in
  ((9 <=? n)%nat && (n <=? 13)%nat) || (n =? 32)%nat || (n =? 160)%nat.

Definition isUpper (c : ascii) : bool :=
  let n := nat_of_ascii c in (65 <=? n)%nat && (n <=? 90)%nat.
Definition isLower (c : ascii) : bool :=
  let n := nat_of_ascii c in (97 <=? n)%nat && (n <=? 122)%nat.

(** [[a-z]] under the [i] flag. *)
Definition isLetter (c : ascii) : bool := isUpper c || isLower c.

(** [[\d.]] *)
Definition isDigitOrDot (c : ascii) : bool := isDigit c || Ascii.eqb c ".".

Definition lowerChar (c : ascii) : ascii :=
  if isUpper c then ascii_of_nat (nat_of_ascii c + 32) else c.

Fixpoint toLowerCase (s : string) : string :=
  match s with
  | EmptyString => EmptyString
  | String c r => String (lowerChar c) (toLowerCase r)
  end.

Definition isEmpty (s : string) : bool :=
  match s with EmptyString => true | String _ _ => false end.

(** The longest prefix of characters in class [p], and the rest. *)
Fixpoint span (p : ascii -> bool) (s : string) : string * string :=
  match s with
  | EmptyString => (EmptyString, EmptyString)
  | String c r =>
      if p c then let '(a, b) := span p r in (String c a, b)
      else (EmptyString, s)
  end.

Fixpoint trimStart (s : string) : string :=
  match s with
  | EmptyString => EmptyString
  | String c r => if isSpace c then trimStart r else s
  end.

Fixpoint trimEnd (s : string) : string :=
  match s with
  | EmptyString => EmptyString
  | String c r =>
      let r' := trimEnd r in
      if isSpace c && isEmpty r' then EmptyString else String c r'
  end.

Definition trim (s : string) : string := trimEnd (trimStart s).

(** [s.split(sep)] for a one-character separator: never the empty list. *)
Fixpoint split (sep : ascii) (s : string) : list string :=
  match s with
  | EmptyString => [EmptyString]
  | String c r =>
      if Ascii.eqb c sep then EmptyString :: split sep r
      else match split sep r with
           | h :: t => String c h :: t
           | [] => [String c EmptyString]
           end
  end.

Fixpoint startsWith (needle s : string) : bool :=
  match needle, s with
  | EmptyString, _ => true
  | String _ _, EmptyString => false
  | String a n, String b r => Ascii.eqb a b && startsWith n r
  end.

(** [s.includes(needle)] *)
Fixpoint includes (needle s : string) : bool :=
  startsWith needle s ||
  match s with
  | EmptyString => false
  | String _ r => includes needle r
  end.

(** [parseInt] of a string of decimal digits. *)
Definition digitValue (c : ascii) : Z := Z.of_nat (nat_of_ascii c - 48).

Fixpoint parseDigits (acc : Z) (s : string) : Z :=
  match s with
  | EmptyString => acc
  | String c r => parseDigits (10 * acc + digitValue c) r
  end.

Definition parseInt (s : string) : Z := parseDigits 0 s.

(** [parseFloat] of a string over [[\d.]]: the longest prefix that is a
    decimal literal (digits, optionally a dot and digits; or a dot and at
    least one digit); [NaN] when there is none. *)
Definition parseFloat (s : string) : number :=
  let '(ip, r) := span isDigit s in
  let fp := match r with
            | String "." r' => fst (span isDigit r')
            | _ => EmptyString
            end in
  if isEmpty ip && isEmpty fp then NaN
  else Num (inject_Z (parseInt ip)
            + inject_Z (parseInt fp) / inject_Z (10 ^ Z.of_nat (String.length fp)))%Q.

(** ** The sign table *)

Record signInfo : Type := SignInfo { sign_name : string; sign_offset : Z }.

(** [signMap], the object literal of the three parsers. *)
Definition signMap : list (string * signInfo) :=
  [ ("ar", SignInfo "Aries" 0);
    ("ta", SignInfo "Taurus" 30);
    ("ge", SignInfo "Gemini" 60);
    ("cn", SignInfo "Cancer" 90);
    ("le", SignInfo "Leo" 120);
    ("vi", SignInfo "Virgo" 150);
    ("li", SignInfo "Libra" 180);
    ("sc", SignInfo "Scorpio" 210);
    ("sa", SignInfo "Sagittarius" 240);
    ("cp", SignInfo "Capricorn" 270);
    ("aq", SignInfo "Aquarius" 300);
    ("pi", SignInfo "Pisces" 330) ].

(** Own-property lookup in an object literal written as a key/value list. *)
Fixpoint assoc {V : Type} (table : list (string * V)) (key : string) : option V :=
  match table with
  | [] => None
  | (k, v) :: rest => if String.eqb k key then Some v else assoc rest key
  end.

(** [signs], the array of the derived-point code. *)
Definition signs : list string :=
  [ "Aries"; "Taurus"; "Gemini"; "Cancer"; "Leo"; "Virgo";
    "Libra"; "Scorpio"; "Sagittarius"; "Capricorn"; "Aquarius"; "Pisces" ].

(** [arr[i]] for a number [i]: [undefined] unless [i] is an index of [arr]. *)
Definition elementAt {V : Type} (arr : list V) (i : number) : option V :=
  match i with
  | NaN => None
  | Num q =>
      if Qeq_bool q (inject_Z (Qfloor q)) && (0 <=? Qfloor q)%Z
      then nth_error arr (Z.to_nat (Qfloor q))
      else None
  end.

(** ** Position line parsers *)

(** The match of [/^(\d+)\s+([a-z]{2})\s+(\d+)'\s*([\d.]+)$/i] against the
    whole string, with its four groups.  Consecutive pieces of the pattern
    use disjoint character classes, so the greedy scan below finds the one
    possible match. *)
Definition posMatch (s : string) : option (string * string * string * string) :=
  let '(g1, r1) := span isDigit s in
  if isEmpty g1 then None else
  let '(w1, r2) := span isSpace r1 in
  if isEmpty w1 then None else
  match r2 with
  | String a (String b r3) =>
      if isLetter a && isLetter b then
        let '(w2, r4) := span isSpace r3 in
        if isEmpty w2 then None else
        let '(g3, r5) := span isDigit r4 in
        if isEmpty g3 then None else
        match r5 with
        | String "'" r6 =>
            let '(_, r7) := span isSpace r6 in
            let '(g4, r8) := span isDigitOrDot r7 in
            if isEmpty g4 then None
            else if isEmpty r8 then Some (g1, String a (String b EmptyString), g3, g4)
            else None
        | _ => None
        end
      else None
  | _ => None
  end.

(** [s] without its prefix [prefix], when it starts with it. *)
Fixpoint stripPrefix (prefix s : string) : option string :=
  match prefix, s with
  | EmptyString, _ => Some s
  | String _ _, EmptyString => None
  | String a p, String b r => if Ascii.eqb a b then stripPrefix p r else None
  end.

(** The match of [/^house\s+(\d+)/] (a prefix match), with its group. *)
Definition houseMatch (s : string) : option string :=
  match stripPrefix "house" s with
  | Some r =>
      let '(w, r1) := span isSpace r in
      if isEmpty w then None else
      let '(g, _) := span isDigit r1 in
      if isEmpty g then None else Some g
  | None => None
  end.

(** The value a parser returns: the leading field ([name] or [house]) and
    the three position fields. *)
Record parsed (L : Type) : Type := Parsed {
  tag : L;
  p_longitude : number;
  p_sign : string;
  p_degree : number
}.
Arguments Parsed {L} _ _ _ _.
Arguments tag {L} _.
Arguments p_longitude {L} _.
Arguments p_sign {L} _.
Arguments p_degree {L} _.

Definition n60 : number := JS.ofZ 60.
Definition n3600 : number := JS.ofZ 3600.
Definition n100 : number := JS.ofZ 100.
Definition n30 : number := JS.ofZ 30.
Definition n180 : number := JS.ofZ 180.
Definition n360 : number := JS.ofZ 360.

(** The part the three parsers have in common, from the pattern match on
    [positionStr] to the returned fields. *)
Definition parsePosition {L : Type} (label : L) (positionStr : string)
  : option (parsed L) :=
  match posMatch positionStr with
  | None => None
  | Some (m1, m2, m3, m4) =>
      let degrees := JS.ofZ (parseInt m1) in
      let signAbbr := toLowerCase m2 in
      let minutes := JS.ofZ (parseInt m3) in
      let seconds := parseFloat m4 in
      match assoc signMap signAbbr with
      | None => None
      | Some signInfo =>
          let longitude :=
            (JS.ofZ (sign_offset signInfo) + degrees + (minutes / n60)
             + (seconds / n3600))%js in
          Some (Parsed label longitude (sign_name signInfo)
                  (JS.round ((degrees + (minutes / n60) + (seconds / n3600)) * n100)
                   / n100)%js)
      end
  end.

Definition parsePlanetLine (line : string) : option (parsed string) :=
  match split "," (trim line) with
  | p0 :: p1 :: _ =>
      let name := trim p0 in
      let positionStr := trim p1 in
      parsePosition name positionStr
  | _ => None
  end.

Definition parseHouseLine (line : string) : option (parsed Z) :=
  match split "," (trim line) with
  | p0 :: p1 :: _ =>
      match houseMatch (trim p0) with
      | None => None
      | Some g =>
          let house := parseInt g in
          let positionStr := trim p1 in
          parsePosition house positionStr
      end
  | _ => None
  end.

Definition parseChartPointLine (line : string) : option (parsed string) :=
  match split "," (trim line) with
  | p0 :: p1 :: _ =>
      let name := trim p0 in
      let positionStr := trim p1 in
      parsePosition name positionStr
  | _ => None
  end.

(** ** Chart assembly *)

(** A stored chart point [{longitude, sign, degree}]; [sign] is [None] when
    the program stores [undefined]. *)
Record point : Type := Point {
  longitude : number;
  sign : option string;
  degree : number
}.

Record chart : Type := Chart {
  planets : gmap string point;
  houses : gmap Z point;
  chart_points : gmap string point;
  additional_points : gmap string point;
  datetime : string;
  coordinates : number * number
}.

(** [planetNames], the synonym table for body labels. *)
Definition planetNames : list (string * string) :=
  [ ("Sun", "Sun"); ("Moon", "Moon"); ("Mercury", "Mercury");
    ("Venus", "Venus"); ("Mars", "Mars"); ("Jupiter", "Jupiter");
    ("Saturn", "Saturn"); ("Uranus", "Uranus"); ("Neptune", "Neptune");
    ("Pluto", "Pluto"); ("mean Node", "North Node");
    ("true Node", "North Node"); ("Chiron", "Chiron");
    ("mean Apogee", "Lilith"); ("Ceres", "Ceres"); ("Pallas", "Pallas");
    ("Juno", "Juno"); ("Vesta", "Vesta") ].

(** [pointNames], the synonym table for angle labels. *)
Definition pointNames : list (string * string) :=
  [ ("Ascendant", "Ascendant"); ("MC", "Midheaven"); ("ARMC", "ARMC");
    ("Vertex", "Vertex") ].

(** A label that is not an own key of an object literal still finds the
    members the literal inherits from [Object.prototype]; used as a property
    key, such a member is converted to a string. *)
Definition inheritedKey (label : string) : option string :=
  if String.eqb label "__proto__" then Some "[object Object]"
  else if String.eqb label "constructor"
       then Some "function Object() { [native code] }"
  else if existsb (String.eqb label)
            [ "hasOwnProperty"; "isPrototypeOf"; "propertyIsEnumerable";
              "toLocaleString"; "toString"; "valueOf"; "__defineGetter__";
              "__defineSetter__"; "__lookupGetter__"; "__lookupSetter__" ]
       then Some ("function " ++ label ++ "() { [native code] }")
  else None.

(** The key under which [table[label] || label] is stored. *)
Definition canonicalName (table : list (string * string)) (label : string)
  : string :=
  match assoc table label with
  | Some v => v
  | None =>
      match inheritedKey label with
      | Some k => k
      | None => label
      end
  end.

(** [{longitude: p.longitude, sign: p.sign, degree: p.degree}] *)
Definition pointOf {L : Type} (p : parsed L) : point :=
  Point (p_longitude p) (Some (p_sign p)) (p_degree p).

(** The filter applied to the lines of both outputs. *)
Definition keepLine (line : string) : bool :=
  negb (isEmpty (trim line))
  && negb (includes "error:" line) && negb (includes "warning:" line).

(** The body of [planetLines.forEach]. *)
Definition addPlanetLine (planets : gmap string point) (line : string)
  : gmap string point :=
  match parsePlanetLine line with
  | Some planet =>
      let name := canonicalName planetNames (tag planet) in
      <[ name := pointOf planet ]> planets
  | None => planets
  end.

(** The body of [houseLines.forEach], on the pair of maps it fills. *)
Definition addHouseLine (acc : gmap Z point * gmap string point)
    (line : string) : gmap Z point * gmap string point :=
  let '(houses, chartPoints) := acc in
  if includes "house " line then
    match parseHouseLine line with
    | Some house =>
        if (1 <=? tag house)%Z && (tag house <=? 12)%Z
        then (<[ tag house := pointOf house ]> houses, chartPoints)
        else acc
    | None => acc
    end
  else if includes "Ascendant" line || includes "MC" line
          || includes "ARMC" line || includes "Vertex" line then
    match parseChartPointLine line with
    | Some chartPoint =>
        let name := canonicalName pointNames (tag chartPoint) in
        (houses, <[ name := pointOf chartPoint ]> chartPoints)
    | None => acc
    end
  else acc.

(** A point derived from a longitude: the sign is looked up in [signs],
    the degree is the remainder by 30, rounded to two decimals. *)
Definition derivedPoint (lon : number) : point :=
  let signIndex := JS.floor (lon / n30)%js in
  let degree := (lon mod n30)%js in
  Point lon (elementAt signs signIndex) (JS.round (degree * n100) / n100)%js.

(** The opposite of a longitude, [(lon + 180) % 360]. *)
Definition opposite (lon : number) : number := ((lon + n180) mod n360)%js.

Definition fortuneLongitude (ascLon sunLon moonLon : number) : number :=
  let fortuneLon := ((ascLon + moonLon - sunLon) mod n360)%js in
  if JS.lt fortuneLon (JS.ofZ 0) then (fortuneLon + n360)%js else fortuneLon.

(** The part of [calculateEphemeris] after the two calculator runs, on the
    lines of the two outputs. *)
Definition assembleLines (planetLines0 houseLines0 : list string)
    (datetime : string) (lat lng : number) : chart :=
  let planetLines := List.filter keepLine planetLines0 in
  let planets := fold_left addPlanetLine planetLines ∅ in
  let houseLines := List.filter keepLine houseLines0 in
  let '(houses, chartPoints) := fold_left addHouseLine houseLines (∅, ∅) in
  let additionalPoints : gmap string point := ∅ in
  let additionalPoints :=
    match planets !! "North Node" with
    | Some northNode =>
        <[ "South Node" := derivedPoint (opposite (longitude northNode)) ]>
          additionalPoints
    | None => additionalPoints
    end in
  let additionalPoints :=
    match chartPoints !! "Ascendant", planets !! "Sun", planets !! "Moon" with
    | Some asc, Some sun, Some moon =>
        <[ "Part of Fortune" :=
             derivedPoint (fortuneLongitude (longitude asc)
                             (longitude sun) (longitude moon)) ]>
          additionalPoints
    | _, _, _ => additionalPoints
    end in
  let chartPoints :=
    match chartPoints !! "Ascendant" with
    | Some asc =>
        <[ "Descendant" := derivedPoint (opposite (longitude asc)) ]>
          chartPoints
    | None => chartPoints
    end in
  let chartPoints :=
    match chartPoints !! "Midheaven" with
    | Some mc =>
        <[ "IC" := derivedPoint (opposite (longitude mc)) ]> chartPoints
    | None => chartPoints
    end in
  Chart planets houses chartPoints additionalPoints datetime (lat, lng).

(** What the environment answers to one call: whether the datetime is a
    valid date, and for each of the two calculator runs its output or the
    message of its failure. *)
Record environment : Type := Environment {
  dateValid : bool;
  planetRun : string + string;
  houseRun : string + string
}.

Inductive failure : Type :=
| InvalidDatetime
| PlanetsFailed (message : string)
| HousesFailed (message : string).

(** [calculateEphemeris]: the result, or the error it throws. *)
Definition calculateEphemeris (env : environment)
    (datetime : string) (lat lng : number) : failure + chart :=
  if negb (dateValid env) then inl InvalidDatetime else
  match planetRun env with
  | inl message => inl (PlanetsFailed message)
  | inr planetOutput =>
      match houseRun env with
      | inl message => inl (HousesFailed message)
      | inr houseOutput =>
          inr (assembleLines (split "010" planetOutput) (split "010" houseOutput)
                 datetime lat lng)
      end
  end.

(** ** The aspect engine *)

Record aspect : Type := Aspect {
  person1_planet : string;
  person2_planet : string;
  aspect_name : string;
  orb : decimal2;
  exact_angle : decimal2;
  person1_position : point;
  person2_position : point
}.

Definition aspectOrbs : list (string * Z) :=
  [ ("conjunction", 8); ("opposition", 8); ("trine", 8); ("square", 8);
    ("sextile", 6); ("quincunx", 3); ("semisextile", 3) ]%Z.

(** [aspectAngles]; [Object.entries] lists it in this order. *)
Definition aspectAngles : list (string * Z) :=
  [ ("conjunction", 0); ("semisextile", 30); ("sextile", 60); ("square", 90);
    ("trine", 120); ("quincunx", 150); ("opposition", 180) ]%Z.

Definition mainPlanets : list string :=
  [ "Sun"; "Moon"; "Mercury"; "Venus"; "Mars"; "Jupiter"; "Saturn";
    "Uranus"; "Neptune"; "Pluto" ].

(** [distance]: the absolute difference, replaced by its complement to 360
    when it exceeds 180. *)
Definition angularDistance (lon1 lon2 : number) : number :=
  let distance := JS.abs (lon1 - lon2)%js in
  if JS.gt distance n180 then (n360 - distance)%js else distance.

(** The body of the innermost loop: one aspect type tested for one pair. *)
Definition checkAspect (planet1 planet2 : string) (pos1 pos2 : point)
    (aspects : list aspect) (entry : string * Z) : list aspect :=
  let '(aspectName, aspectAngle) := entry in
  let lon1 := longitude pos1 in
  let lon2 := longitude pos2 in
  let distance := angularDistance lon1 lon2 in
  match assoc aspectOrbs aspectName with
  | None => aspects
  | Some orb =>
      let angleDiff := JS.abs (distance - JS.ofZ aspectAngle)%js in
      if JS.le angleDiff (JS.ofZ orb) then
        aspects ++
          [ Aspect planet1 planet2 aspectName
              (toFixed2 angleDiff) (toFixed2 distance)
              (Point lon1 (sign pos1) (degree pos1))
              (Point lon2 (sign pos2) (degree pos2)) ]
      else aspects
  end.

(** The body of the loop over [planet2]. *)
Definition innerLoop (person2Planets : gmap string point)
    (planet1 : string) (pos1 : point)
    (aspects : list aspect) (planet2 : string) : list aspect :=
  match person2Planets !! planet2 with
  | None => aspects
  | Some pos2 =>
      fold_left (checkAspect planet1 planet2 pos1 pos2) aspectAngles aspects
  end.

(** The body of the loop over [planet1]. *)
Definition outerLoop (person1Planets person2Planets : gmap string point)
    (aspects : list aspect) (planet1 : string) : list aspect :=
  match person1Planets !! planet1 with
  | None => aspects
  | Some pos1 =>
      fold_left (innerLoop person2Planets planet1 pos1) mainPlanets aspects
  end.

(** The aspects in the order in which the loops push them. *)
Definition collectAspects (person1Planets person2Planets : gmap string point)
  : list aspect :=
  fold_left (outerLoop person1Planets person2Planets) mainPlanets [].

(** The comparator [(a, b) => parseFloat(a.orb) - parseFloat(b.orb)]. *)
Definition compareOrb (a b : aspect) : number :=
  (parseFloatDec (orb a) - parseFloatDec (orb b))%js.

(** [Array.prototype.sort] with a comparator: a stable sort; [b] goes before
    [a] only when the comparator is positive on [(a, b)] (a [NaN] result
    counts as zero).  For a comparator that orders the elements
    consistently every stable sort returns the same array, computed here by
    insertion. *)
Section Sort.
Context {A : Type} (compare : A -> A -> number).

Fixpoint insertSorted (x : A) (l : list A) : list A :=
  match l with
  | [] => [x]
  | y :: l' =>
      if JS.gt (compare x y) (JS.ofZ 0) then y :: insertSorted x l'
      else x :: l
  end.

Fixpoint sort (l : list A) : list A :=
  match l with
  | [] => []
  | x :: l' => insertSorted x (sort l')
  end.
End Sort.

Definition calculateSynastryAspects
    (person1Planets person2Planets : gmap string point) : list aspect :=
  sort compareOrb (collectAspects person1Planets person2Planets).

(** ** Chart assembly in binary64

    The same parsers and the same assembly on the numbers JavaScript really
    uses: sums, differences, products and quotients are the primitive
    binary64 operations; the remainder, [Math.floor] and [Math.round] are
    computed exactly from the mantissa and the exponent. *)

Module Binary64.

(** [m * 2^e] as a number, rounded to nearest when it is not one. *)
Definition ofFraction (m e : Z) (negativeZero : bool) : float :=
  SF2Prim (binary_normalize prec emax m e negativeZero).

Definition ofZ (z : Z) : float := ofFraction z 0 false.

(** A finite number as [m * 2^e]. *)
Definition fraction (x : float) : option (Z * Z) :=
  match Prim2SF x with
  | S754_zero _ => Some (0, 0)%Z
  | S754_finite s m e => Some (if s then Zneg m else Zpos m, e)
  | _ => None
  end.

(** [x % y]: exact, with the sign of the dividend. *)
Definition rem (x y : float) : float :=
  match fraction x, fraction y with
  | Some (mx, ex), Some (my, ey) =>
      if (my =? 0)%Z then nan
      else
        let e := Z.min ex ey in
        ofFraction (Z.rem (mx * 2 ^ (ex - e)) (my * 2 ^ (ey - e))) e
          (get_sign x)
  | Some _, None => if is_infinity y then x else nan
  | None, _ => nan
  end.

(** [Math.floor] *)
Definition floor (x : float) : float :=
  match fraction x with
  | Some (m, e) =>
      if (0 <=? e)%Z then x else ofFraction (m / 2 ^ (- e)) 0 (get_sign x)
  | None => x
  end.

(** [Math.round]: the nearest integer, a tie going up. *)
Definition round (x : float) : float :=
  match fraction x with
  | Some (m, e) =>
      if (0 <=? e)%Z then x
      else ofFraction ((m + 2 ^ (- e - 1)) / 2 ^ (- e)) 0 (get_sign x)
  | None => x
  end.

(** [parseFloat] of a string over [[\d.]]: the decimal [n / 10^k] as the
    quotient of two numbers, which is the nearest number to the decimal as
    long as [n] is below [2^53] and [k] at most 22. *)
Definition parseFloat (s : string) : float :=
  let '(ip, r) := span isDigit s in
  let fp := match r with
            | String "." r' => fst (span isDigit r')
            | _ => EmptyString
            end in
  if isEmpty ip && isEmpty fp then nan
  else div (ofZ (parseDigits (parseInt ip) fp))
           (ofZ (10 ^ Z.of_nat (String.length fp))).

(** [arr[i]] *)
Definition elementAt {V : Type} (arr : list V) (i : float) : option V :=
  match fraction i with
  | Some (m, e) =>
      if (0 <=? m)%Z && (0 <=? e)%Z then nth_error arr (Z.to_nat (m * 2 ^ e))
      else if (0 <=? m)%Z && (m mod 2 ^ (- e) =? 0)%Z
           then nth_error arr (Z.to_nat (m / 2 ^ (- e)))
           else None
  | None => None
  end.

Record parsed (L : Type) : Type := Parsed {
  tag : L;
  p_longitude : float;
  p_sign : string;
  p_degree : float
}.
Arguments Parsed {L} _ _ _ _.
Arguments tag {L} _.
Arguments p_longitude {L} _.
Arguments p_sign {L} _.
Arguments p_degree {L} _.

Record point : Type := Point {
  longitude : float;
  sign : option string;
  degree : float
}.

Record chart : Type := Chart {
  planets : gmap string point;
  houses : gmap Z point;
  chart_points : gmap string point;
  additional_points : gmap string point;
  datetime : string;
  coordinates : float * float
}.

Definition parsePosition {L : Type} (label : L) (positionStr : string)
  : option (parsed L) :=
  match posMatch positionStr with
  | None => None
  | Some (m1, m2, m3, m4) =>
      let degrees := ofZ (parseInt m1) in
      let signAbbr := toLowerCase m2 in
      let minutes := ofZ (parseInt m3) in
      let seconds := parseFloat m4 in
      match assoc signMap signAbbr with
      | None => None
      | Some signInfo =>
          let longitude :=
            (ofZ (sign_offset signInfo) + degrees + (minutes / ofZ 60)
             + (seconds / ofZ 3600))%float in
          Some (Parsed label longitude (sign_name signInfo)
                  (round ((degrees + (minutes / ofZ 60) + (seconds / ofZ 3600))
                          * ofZ 100)
                   / ofZ 100)%float)
      end
  end.

Definition parsePlanetLine (line : string) : option (parsed string) :=
  match split "," (trim line) with
  | p0 :: p1 :: _ =>
      let name := trim p0 in
      let positionStr := trim p1 in
      parsePosition name positionStr
  | _ => None
  end.

Definition parseHouseLine (line : string) : option (parsed Z) :=
  match split "," (trim line) with
  | p0 :: p1 :: _ =>
      match houseMatch (trim p0) with
      | None => None
      | Some g =>
          let house := parseInt g in
          let positionStr := trim p1 in
          parsePosition house positionStr
      end
  | _ => None
  end.

Definition parseChartPointLine (line : string) : option (parsed string) :=
  match split "," (trim line) with
  | p0 :: p1 :: _ =>
      let name := trim p0 in
      let positionStr := trim p1 in
      parsePosition name positionStr
  | _ => None
  end.

Definition pointOf {L : Type} (p : parsed L) : point :=
  Point (p_longitude p) (Some (p_sign p)) (p_degree p).

Definition addPlanetLine (planets : gmap string point) (line : string)
  : gmap string point :=
  match parsePlanetLine line with
  | Some planet =>
      let name := canonicalName planetNames (tag planet) in
      <[ name := pointOf planet ]> planets
  | None => planets
  end.

Definition addHouseLine (acc : gmap Z point * gmap string point)
    (line : string) : gmap Z point * gmap string point :=
  let '(houses, chartPoints) := acc in
  if includes "house " line then
    match parseHouseLine line with
    | Some house =>
        if (1 <=? tag house)%Z && (tag house <=? 12)%Z
        then (<[ tag house := pointOf house ]> houses, chartPoints)
        else acc
    | None => acc
    end
  else if includes "Ascendant" line || includes "MC" line
          || includes "ARMC" line || includes "Vertex" line then
    match parseChartPointLine line with
    | Some chartPoint =>
        let name := canonicalName pointNames (tag chartPoint) in
        (houses, <[ name := pointOf chartPoint ]> chartPoints)
    | None => acc
    end
  else acc.

Definition derivedPoint (lon : float) : point :=
  let signIndex := floor (lon / ofZ 30)%float in
  let degree := rem lon (ofZ 30) in
  Point lon (elementAt signs signIndex)
    (round (degree * ofZ 100) / ofZ 100)%float.

Definition opposite (lon : float) : float :=
  rem (lon + ofZ 180)%float (ofZ 360).

Definition fortuneLongitude (ascLon sunLon moonLon : float) : float :=
  let fortuneLon := rem (ascLon + moonLon - sunLon)%float (ofZ 360) in
  if ltb fortuneLon (ofZ 0) then (fortuneLon + ofZ 360)%float else fortuneLon.

Definition assembleLines (planetLines0 houseLines0 : list string)
    (datetime : string) (lat lng : float) : chart :=
  let planetLines := List.filter keepLine planetLines0 in
  let planets := fold_left addPlanetLine planetLines ∅ in
  let houseLines := List.filter keepLine houseLines0 in
  let '(houses, chartPoints) := fold_left addHouseLine houseLines (∅, ∅) in
  let additionalPoints : gmap string point := ∅ in
  let additionalPoints :=
    match planets !! "North Node" with
    | Some northNode =>
        <[ "South Node" := derivedPoint (opposite (longitude northNode)) ]>
          additionalPoints
    | None => additionalPoints
    end in
  let additionalPoints :=
    match chartPoints !! "Ascendant", planets !! "Sun", planets !! "Moon" with
    | Some asc, Some sun, Some moon =>
        <[ "Part of Fortune" :=
             derivedPoint (fortuneLongitude (longitude asc)
                             (longitude sun) (longitude moon)) ]>
          additionalPoints
    | _, _, _ => additionalPoints
    end in
  let chartPoints :=
    match chartPoints !! "Ascendant" with
    | Some asc =>
        <[ "Descendant" := derivedPoint (opposite (longitude asc)) ]>
          chartPoints
    | None => chartPoints
    end in
  let chartPoints :=
    match chartPoints !! "Midheaven" with
    | Some mc =>
        <[ "IC" := derivedPoint (opposite (longitude mc)) ]> chartPoints
    | None => chartPoints
    end in
  Chart planets houses chartPoints additionalPoints datetime (lat, lng).

Definition calculateEphemeris (env : environment)
    (datetime : string) (lat lng : float) : failure + chart :=
  if negb (dateValid env) then inl InvalidDatetime else
  match planetRun env with
  | inl message => inl (PlanetsFailed message)
  | inr planetOutput =>
      match houseRun env with
      | inl message => inl (HousesFailed message)
      | inr houseOutput =>
          inr (assembleLines (split "010" planetOutput) (split "010" houseOutput)
                 datetime lat lng)
      end
  end.

End Binary64.

(** ** Vocabulary of the specification: text *)

(** Every character of [s] is in class [p]. *)
Fixpoint allIn (p : ascii -> bool) (s : string) : bool :=
  match s with
  | EmptyString => true
  | String c r => p c && allIn p r
  end.

(** [s] does not start with a character of class [p]. *)
Definition stopsAt (p : ascii -> bool) (s : string) : Prop :=
  match s with
  | EmptyString => True
  | String c _ => p c = false
  end.

(** The language of [^(\d+)\s+([a-z]{2})\s+(\d+)'\s*([\d.]+)$] with the [i]
    flag, and the four groups of a match: digits, white space, two letters,
    white space, digits, an apostrophe, optional white space, digits and
    dots, up to the end of the string. *)
Definition positionGrammar (s g1 g2 g3 g4 : string) : Prop :=
  exists w1 w2 w3 : string,
    s = g1 ++ w1 ++ g2 ++ w2 ++ g3 ++ "'" ++ w3 ++ g4 /\
    g1 <> "" /\ allIn isDigit g1 = true /\
    w1 <> "" /\ allIn isSpace w1 = true /\
    String.length g2 = 2%nat /\ allIn isLetter g2 = true /\
    w2 <> "" /\ allIn isSpace w2 = true /\
    g3 <> "" /\ allIn isDigit g3 = true /\
    allIn isSpace w3 = true /\
    g4 <> "" /\ allIn isDigitOrDot g4 = true.

(** The language of [^house\s+(\d+)] and the group of its match: the
    longest run of digits after the white space. *)
Definition houseGrammar (s g : string) : Prop :=
  exists w rest : string,
    s = "house" ++ w ++ g ++ rest /\
    w <> "" /\ allIn isSpace w = true /\
    g <> "" /\ allIn isDigit g = true /\ stopsAt isDigit rest.

(** [parts.join(sep)] *)
Fixpoint join (sep : ascii) (parts : list string) : string :=
  match parts with
  | [] => EmptyString
  | [p] => p
  | p :: rest => p ++ String sep (join sep rest)
  end.

(** The line carries an error or warning marker. *)
Definition marked (line : string) : bool :=
  includes "error:" line || includes "warning:" line.

(** The second field of the line matches the position pattern. *)
Definition matchesGrammar (line : string) : bool :=
  match split "," (trim line) with
  | _ :: p1 :: _ =>
      match posMatch (trim p1) with Some _ => true | None => false end
  | _ => false
  end.

(** The lines that can add a point: not marked, and in the grammar. *)
Definition contributes (line : string) : bool :=
  negb (marked line) && matchesGrammar line.


(** An environment in which the date is valid and both runs succeed. *)
Definition answering (planetOutput houseOutput : string) : environment :=
  Environment true (inr planetOutput) (inr houseOutput).

(** ** Vocabulary of the specification: numbers and chart points *)

(** The mathematical residue of [x] modulo [m], in [[0, m)]. *)
Definition Qmod (x m : Q) : Q := (x - m * inject_Z (Qfloor (x / m)))%Q.

(** Rounding to two decimals, a tie going up. *)
Definition round2 (x : Q) : Q := (inject_Z (Qfloor (x * 100 + (1 # 2))) / 100)%Q.

(** The value of a position: degrees, minutes and seconds of arc. *)
Definition positionValue (d m : Z) (s : Q) : Q :=
  (inject_Z d + inject_Z m / 60 + s / 3600)%Q.






(** The sign table inverse as the specification words it:
    [signs[floor(longitude/30 mod 12)]] and [longitude mod 30]. *)
Definition signFor (lon : Q) : option string * Q :=
  (nth_error signs (Z.to_nat (Qfloor (Qmod (lon / 30) 12))), Qmod lon 30).

(** A point is the one derived from the longitude [lon] when it carries
    that longitude, the sign of [signFor] and its degree rounded. *)
Definition derivedFrom (lon : Q) (p : point) : Prop :=
  num_eq (longitude p) (Num lon) /\
  sign p = fst (signFor lon) /\
  num_eq (degree p) (Num (round2 (snd (signFor lon)))).



(** The Part of Fortune longitude of the specification, on numbers. *)
Definition fortuneSpec (asc sun moon : number) : number :=
  match asc, sun, moon with
  | Num a, Num s, Num m => Num (Qmod (a + m - s) 360)
  | _, _, _ => NaN
  end.



(** ** Vocabulary of the specification: aspects *)

(** The aspect constants as the specification lists them: name, target
    angle, maximum orb. *)
Definition aspectTable : list (string * Q * Q) :=
  [ ("conjunction", 0, 8); ("semisextile", 30, 3); ("sextile", 60, 6);
    ("square", 90, 8); ("trine", 120, 8); ("quincunx", 150, 3);
    ("opposition", 180, 8) ]%Q.

(** The shortest angular separation of the specification. *)
Definition separation (lonA lonB : Q) : Q :=
  Qmin (Qabs (lonA - lonB)) (360 - Qabs (lonA - lonB)).

(** The orb test of the specification for a separation [d]. *)
Definition withinOrb (d : Q) (entry : string * Q * Q) : Prop :=
  let '(_, target, maxOrb) := entry in (Qabs (d - target) <= maxOrb)%Q.

(** The orb windows over [[0, 180]]: name, lower and upper end. *)
Definition orbWindows : list (string * Q * Q) :=
  [ ("conjunction", 0, 8); ("semisextile", 27, 33); ("sextile", 54, 66);
    ("square", 82, 98); ("trine", 112, 128); ("quincunx", 147, 153);
    ("opposition", 172, 180) ]%Q.

(** A separation [d] lies in a window. *)
Definition inWindow (d : Q) (w : string * Q * Q) : Prop :=
  let '(_, lo, hi) := w in (lo <= d)%Q /\ (d <= hi)%Q.

(** The record the specification asks for: pair [(planetA, planetB)] with
    positions [posA], [posB] at longitudes [lonA], [lonB], aspect type
    [name] of target angle [target]. *)
Definition aspectRecord (planetA planetB : string) (posA posB : point)
    (lonA lonB : Q) (name : string) (target : Q) : aspect :=
  let d := separation lonA lonB in
  Aspect planetA planetB name
    (toFixed2 (Num (Qabs (d - target)))) (toFixed2 (Num d)) posA posB.

(** What the specification asks of one ordered pair of present planets:
    one record for each aspect type whose orb test succeeds. *)
Definition specPairAspects (planetA planetB : string) (posA posB : point)
  : list aspect :=
  match longitude posA, longitude posB with
  | Num lonA, Num lonB =>
      flat_map
        (fun '(name, target, maxOrb) =>
           if Qle_bool (Qabs (separation lonA lonB - target)) maxOrb
           then [aspectRecord planetA planetB posA posB lonA lonB name target]
           else [])
        aspectTable
  | _, _ => []
  end.

(** The records one ordered pair of present planets contributes, in the
    order of [aspectAngles]. *)
Definition pairAspects (planet1 planet2 : string) (pos1 pos2 : point)
  : list aspect :=
  flat_map (checkAspect planet1 planet2 pos1 pos2 []) aspectAngles.

(** The records of all pairs with a given first planet. *)
Definition rowAspects (person2Planets : gmap string point)
    (planet1 : string) (pos1 : point) : list aspect :=
  flat_map
    (fun planet2 =>
       match person2Planets !! planet2 with
       | Some pos2 => pairAspects planet1 planet2 pos1 pos2
       | None => []
       end) mainPlanets.

(** The records of the ordered pair [(planet1, planet2)] when both planets
    are present, none otherwise. *)
Definition cellAspects (person1Planets person2Planets : gmap string point)
    (planet1 planet2 : string) : list aspect :=
  match person1Planets !! planet1, person2Planets !! planet2 with
  | Some pos1, Some pos2 => specPairAspects planet1 planet2 pos1 pos2
  | _, _ => []
  end.

(** What identifies a record: the ordered pair and the aspect type. *)
Definition aspectKey (a : aspect) : string * string * string :=
  (person1_planet a, person2_planet a, aspect_name a).

(** The keys a pair of planets can produce. *)
Definition keysOfPair (planet1 planet2 : string) : list (string * string * string) :=
  List.map (fun entry : string * Z => (planet1, planet2, fst entry)) aspectAngles.

(** All keys: every ordered pair of main planets and every aspect type. *)
Definition allKeys : list (string * string * string) :=
  flat_map (fun planet1 => flat_map (keysOfPair planet1) mainPlanets) mainPlanets.

(** The same aspect seen from the other chart. *)
Definition swapRoles (a : aspect) : aspect :=
  Aspect (person2_planet a) (person1_planet a) (aspect_name a)
    (orb a) (exact_angle a) (person2_position a) (person1_position a).

(** The part of a record that does not depend on the roles. *)
Definition aspectTriple (a : aspect) : decimal2 * string * decimal2 :=
  (exact_angle a, aspect_name a, orb a).

(** An orb produced for a record: a plain, unsigned decimal. *)
Definition plainOrb (a : aspect) : Prop :=
  exists h : Z, orb a = Dec false h /\ (0 <= h)%Z.

(** The orb of a record as a number, and the order of the final list. *)
Definition orbLe (a b : aspect) : Prop :=
  exists x y : Q,
    parseFloatDec (orb a) = Num x /\ parseFloatDec (orb b) = Num y /\ (x <= y)%Q.

(** Equality of two-decimal strings. *)
Definition decimal2_eqb (x y : decimal2) : bool :=
  match x, y with
  | Dec s h, Dec s' h' => Bool.eqb s s' && (h =? h')%Z
  | DecNaN, DecNaN => true
  | _, _ => false
  end.

(** The records of a list that have a given orb, in their order. *)
Definition withOrb (o : decimal2) (l : list aspect) : list aspect :=
  List.filter (fun a => decimal2_eqb (orb a) o) l.

(** The records of a list for a given ordered pair of planets. *)
Definition forPair (planetA planetB : string) (l : list aspect) : list aspect :=
  List.filter
    (fun a => String.eqb (person1_planet a) planetA
              && String.eqb (person2_planet a) planetB) l.

(** ** Sample data *)

(** The line separator. *)
Definition newline : string := String "010" EmptyString.

(** A body output: two planets, a warning line, the lunar node. *)
Definition samplePlanetOutput : string :=
  "Sun            ,22 le 53'51.2332" ++ newline ++
  "Moon           , 2 cp 21' 3.2731" ++ newline ++
  "warning: using Moshier eph.;" ++ newline ++
  "true Node      ,15 ar  0' 0.0000" ++ newline.

(** A house output: a cusp and two angles. *)
Definition sampleHouseOutput : string :=
  "house  1       ,13 cn 39'52.5152" ++ newline ++
  "Ascendant      ,13 cn 39'52.5152" ++ newline ++
  "MC             , 2 ar 11' 7.0000" ++ newline.




(** Outputs on which Ascendant plus Moon equals the Sun. *)
Definition fortunePlanetOutput : string :=
  "Sun            , 0 ta 18' 0.0000" ++ newline ++
  "Moon           ,20 ar 12' 0.0000" ++ newline.

Definition fortuneHouseOutput : string :=
  "Ascendant      ,10 ar  6' 0.0000" ++ newline.

(** ** The server around the chart

    The rest of [index.js]: the two formatters of the calculator's date and
    time arguments, [calculateEphemeris] with the commands it runs, the tool
    list, [handleToolCall] with its checks, the handler of a tool request
    and the session dispatch of the HTTP endpoint.

    What the program takes from outside is gathered in a [host]: the parsing
    and printing of dates, the clock, the environment variable, the answers
    of the commands and the texts of the engine.  Running a command and
    reading the clock are effects, threaded through a [state]. *)

Module Server.

(** *** Values *)

(** The values a request can carry. *)
#[warnings="-register-all"] Inductive value : Type :=
| VUndefined
| VNull
| VBool (b : bool)
| VNumber (n : number)
| VString (s : string)
| VArray (items : list value)
| VObject (fields : list (string * value)).

(** [typeof v] *)
Definition typeOf (v : value) : string :=
  match v with
  | VUndefined => "undefined"
  | VNull | VArray _ | VObject _ => "object"
  | VBool _ => "boolean"
  | VNumber _ => "number"
  | VString _ => "string"
  end.

(** The values that count as true in a condition. *)
Definition truthy (v : value) : bool :=
  match v with
  | VUndefined | VNull => false
  | VBool b => b
  | VNumber (Num q) => negb (Qeq_bool q 0)
  | VNumber NaN => false
  | VString s => negb (isEmpty s)
  | VArray _ | VObject _ => true
  end.

(** [v[key]] for a key that no prototype defines (the program reads
    [method] and the argument names of the tools): [None] stands for the
    [TypeError] of reading a property of [null] or [undefined]. *)
Definition get (v : value) (key : string) : option value :=
  match v with
  | VUndefined | VNull => None
  | VObject fields => Some (default VUndefined (assoc fields key))
  | _ => Some VUndefined
  end.

(** *** Dates *)

(** A valid [Date], by its time value and what its UTC getters return. *)
Record date : Type := Date {
  getTime : Z;
  getUTCFullYear : Z;
  getUTCMonth : Z;
  getUTCDate : Z;
  getUTCHours : Z;
  getUTCMinutes : Z;
  getUTCSeconds : Z
}.

Fixpoint repeatChar (n : nat) (c : ascii) : string :=
  match n with
  | O => EmptyString
  | S n' => String c (repeatChar n' c)
  end.

(** [s.padStart(targetLength, c)] for a one-character filler. *)
Definition padStart (targetLength : nat) (c : ascii) (s : string) : string :=
  repeatChar (targetLength - String.length s) c ++ s.

(** [String(n)] for an integer [n] is its decimal notation, [pretty n]. *)
Definition formatDateToSwiss (d : date) : string :=
  let day := padStart 2 "0" (pretty (getUTCDate d)) in
  let month := padStart 2 "0" (pretty (getUTCMonth d + 1)%Z) in
  let year := getUTCFullYear d in
  day ++ "." ++ month ++ "." ++ pretty year.

Definition formatTimeToSwiss (d : date) : string :=
  let hours := padStart 2 "0" (pretty (getUTCHours d)) in
  let minutes := padStart 2 "0" (pretty (getUTCMinutes d)) in
  let seconds := padStart 2 "0" (pretty (getUTCSeconds d)) in
  hours ++ ":" ++ minutes ++ ":" ++ seconds.

(** *** The host *)

(** The errors the engine raises by itself, by what raises them. *)
Inductive fault : Type :=
| CannotDestructure (key : string) (v : value)
| CannotRead (key : string) (v : value)
| NotAFunction (key : string)
| InvalidTimeValue
| NoPrimitiveValue.

Inductive errorCode : Type :=
| InvalidParams
| MethodNotFound
| InternalError.

Record host : Type := Host {
  (** [new Date(s)]: [None] for an [Invalid Date] *)
  parseDate : string -> option date;
  (** [d.toISOString()] *)
  toISOString : date -> string;
  (** [new Date(year, d.getMonth(), d.getDate(), d.getHours(),
      d.getMinutes(), d.getSeconds())], in local time *)
  localDate : number -> date -> option date;
  (** [new Date()] at the n-th reading of the clock *)
  clock : nat -> date;
  (** [process.env.SE_EPHE_PATH] *)
  SE_EPHE_PATH : option string;
  (** [execSync(command)] as the n-th command run: the output, or the
      message of the error *)
  execSync : nat -> string -> string + string;
  (** the text of a number in a template *)
  numberText : number -> string;
  (** the message of an error of the engine *)
  faultMessage : fault -> string;
  (** the message the protocol library gives an [McpError] *)
  mcpMessage : errorCode -> string -> string
}.

(** The text of a value in a template.  An array is joined with commas,
    [null] and [undefined] elements being empty; a plain object is
    [[object Object]], unless a property of its own hides [toString]:
    then it has no text and a [TypeError] is raised ([None]). *)
Fixpoint toText (h : host) (v : value) : option string :=
  match v with
  | VUndefined => Some "undefined"
  | VNull => Some "null"
  | VBool b => Some (if b then "true" else "false")
  | VNumber n => Some (numberText h n)
  | VString s => Some s
  | VArray items =>
      join "," <$>
        (fix elements (l : list value) : option (list string) :=
           match l with
           | [] => Some []
           | x :: rest =>
               match (match x with
                      | VUndefined | VNull => Some ""
                      | _ => toText h x
                      end), elements rest with
               | Some t, Some ts => Some (t :: ts)
               | _, _ => None
               end
           end) items
  | VObject fields =>
      match assoc fields "toString" with
      | Some _ => None
      | None => Some "[object Object]"
      end
  end.

(** *** Effects *)

Inductive exception : Type :=
| McpError (code : errorCode) (message : string)
| Error (message : string).

(** [error.message] *)
Definition messageOf (h : host) (error : exception) : string :=
  match error with
  | McpError code message => mcpMessage h code message
  | Error message => message
  end.

(** The commands run so far and the number of readings of the clock. *)
Record state : Type := State {
  executed : list string;
  readings : nat
}.

(** A computation: from a state to a value or a thrown exception, and the
    state it leaves. *)
Definition M (A : Type) : Type := state -> (exception + A) * state.

Definition ret {A : Type} (a : A) : M A := fun st => (inr a, st).

Definition throw {A : Type} (e : exception) : M A := fun st => (inl e, st).

Definition bind {A B : Type} (m : M A) (k : A -> M B) : M B :=
  fun st =>
    match m st with
    | (inl e, st') => (inl e, st')
    | (inr a, st') => k a st'
    end.

Definition tryCatch {A : Type} (m : M A) (handler : exception -> M A) : M A :=
  fun st =>
    match m st with
    | (inl e, st') => handler e st'
    | (inr a, st') => (inr a, st')
    end.

Notation "'let!' x ':=' m 'in' k" := (bind m (fun x => k))
  (at level 10, x name, m at level 100, k at level 200).

(** A value that has to be there: [a] for [Some a], [e] thrown for [None]. *)
Definition require {A : Type} (o : option A) (e : exception) : M A :=
  match o with
  | Some a => ret a
  | None => throw e
  end.

(** [execSync(command, { encoding: 'utf8' })] *)
Definition exec (h : host) (command : string) : M string :=
  fun st =>
    let st' := State (executed st ++ [command]) (readings st) in
    match execSync h (length (executed st)) command with
    | inl message => (inl (Error message), st')
    | inr output => (inr output, st')
    end.

(** [new Date()] *)
Definition now (h : host) : M date :=
  fun st => (inr (clock h (readings st)), State (executed st) (S (readings st))).

(** *** The chart of one call *)

Record chart : Type := Chart {
  planets : gmap string point;
  houses : gmap Z point;
  chart_points : gmap string point;
  additional_points : gmap string point;
  datetime : string;
  coordinates : value * value
}.

(** [process.env.SE_EPHE_PATH || '/app/vendor/swisseph'] *)
Definition ephePath (h : host) : string :=
  match SE_EPHE_PATH h with
  | Some path => if isEmpty path then "/app/vendor/swisseph" else path
  | None => "/app/vendor/swisseph"
  end.

Definition planetCmd (h : host) (swissDate swissTime : string) : string :=
  "SE_EPHE_PATH=" ++ ephePath h ++ " swetest -b" ++ swissDate ++ " -ut"
  ++ swissTime ++ " -p0123456789tADFGHI -fPZ -g, -head".

(** The coordinates come as the texts they have in the template, the
    longitude first. *)
Definition houseCmd (h : host) (swissDate swissTime : string)
    (lngText latText : string) : string :=
  "SE_EPHE_PATH=" ++ ephePath h ++ " swetest -b" ++ swissDate ++ " -ut"
  ++ swissTime ++ " -house" ++ lngText ++ "," ++ latText
  ++ ",P -fPZ -g, -head".

(** The part of [calculateEphemeris] after the two runs, from the two
    outputs to the returned object. *)
Definition assemble (planetOutput houseOutput : string)
    (datetime : string) (lat lng : value) : chart :=
  let planetLines := List.filter keepLine (split "010" planetOutput) in
  let planets := fold_left addPlanetLine planetLines ∅ in
  let houseLines := List.filter keepLine (split "010" houseOutput) in
  let '(houses, chartPoints) := fold_left addHouseLine houseLines (∅, ∅) in
  let additionalPoints : gmap string point := ∅ in
  let additionalPoints :=
    match planets !! "North Node" with
    | Some northNode =>
        <[ "South Node" := derivedPoint (opposite (longitude northNode)) ]>
          additionalPoints
    | None => additionalPoints
    end in
  let additionalPoints :=
    match chartPoints !! "Ascendant", planets !! "Sun", planets !! "Moon" with
    | Some asc, Some sun, Some moon =>
        <[ "Part of Fortune" :=
             derivedPoint (fortuneLongitude (longitude asc)
                             (longitude sun) (longitude moon)) ]>
          additionalPoints
    | _, _, _ => additionalPoints
    end in
  let chartPoints :=
    match chartPoints !! "Ascendant" with
    | Some asc =>
        <[ "Descendant" := derivedPoint (opposite (longitude asc)) ]>
          chartPoints
    | None => chartPoints
    end in
  let chartPoints :=
    match chartPoints !! "Midheaven" with
    | Some mc =>
        <[ "IC" := derivedPoint (opposite (longitude mc)) ]> chartPoints
    | None => chartPoints
    end in
  Chart planets houses chartPoints additionalPoints datetime (lat, lng).

(** [calculateEphemeris(datetime, latitude, longitude)]: every error
    raised on the way is caught and thrown again as an [Error] with a
    longer message. *)
Definition calculateEphemeris (h : host) (datetime : string)
    (lat lng : value) : M chart :=
  tryCatch
    (let! d := require (parseDate h datetime)
            (Error "Invalid datetime format. Use ISO8601 format like 1985-04-12T23:20:50Z") in
     let swissDate := formatDateToSwiss d in
     let swissTime := formatTimeToSwiss d in
     let! planetOutput :=
       tryCatch (exec h (planetCmd h swissDate swissTime))
         (fun error =>
            throw (Error ("Failed to execute swetest for planets: "
                          ++ messageOf h error))) in
     let! lngText := require (toText h lng) (Error (faultMessage h NoPrimitiveValue)) in
     let! latText := require (toText h lat) (Error (faultMessage h NoPrimitiveValue)) in
     let! houseOutput :=
       tryCatch (exec h (houseCmd h swissDate swissTime lngText latText))
         (fun error =>
            throw (Error ("Failed to execute swetest for houses: "
                          ++ messageOf h error))) in
     ret (assemble planetOutput houseOutput datetime lat lng))
    (fun error =>
       throw (Error ("Swiss Ephemeris calculation failed: "
                     ++ messageOf h error))).

(** *** The tools *)

(** An entry of the tool list: its name, the declared type of each
    property of its input and the required properties. *)
Record tool : Type := Tool {
  tool_name : string;
  tool_properties : list (string * string);
  tool_required : list string
}.

(** The answer to a request for the list of tools (descriptions left
    out). *)
Definition tools : list tool :=
  [ Tool "calculate_planetary_positions"
      [ ("datetime", "string"); ("latitude", "number");
        ("longitude", "number") ]
      [ "datetime"; "latitude"; "longitude" ];
    Tool "calculate_transits"
      [ ("birth_datetime", "string"); ("latitude", "number");
        ("longitude", "number") ]
      [ "birth_datetime"; "latitude"; "longitude" ];
    Tool "calculate_solar_revolution"
      [ ("birth_datetime", "string"); ("birth_latitude", "number");
        ("birth_longitude", "number"); ("return_year", "number");
        ("return_latitude", "number"); ("return_longitude", "number") ]
      [ "birth_datetime"; "birth_latitude"; "birth_longitude";
        "return_year" ];
    Tool "calculate_synastry"
      [ ("person1_datetime", "string"); ("person1_latitude", "number");
        ("person1_longitude", "number"); ("person2_datetime", "string");
        ("person2_latitude", "number"); ("person2_longitude", "number") ]
      [ "person1_datetime"; "person1_latitude"; "person1_longitude";
        "person2_datetime"; "person2_latitude"; "person2_longitude" ] ].

(** What a tool returns. *)
Inductive result : Type :=
| Positions (c : chart)
| Transits (natal_chart current_transits : chart) (calculation_time : string)
| SolarRevolution (natal_chart solar_return_chart : chart)
    (natal_sun_longitude return_sun_longitude : number)
    (calculation_time : string)
| Synastry (person1_chart person2_chart : chart)
    (synastry_aspects : list aspect) (calculation_time : string).

(** [const { key, ... } = args]: the reader of the properties of [args],
    a [TypeError] when [args] is [null] or [undefined]. *)
Definition destructure (h : host) (args : value) (key : string)
  : M (string -> value) :=
  match get args key with
  | Some _ => ret (fun k => default VUndefined (get args k))
  | None => throw (Error (faultMessage h (CannotDestructure key args)))
  end.

(** [v], unless [!v || typeof v !== 'string']. *)
Definition stringArgument (v : value) : option string :=
  match v with
  | VString s =>
      if negb (truthy v) || negb (String.eqb (typeOf v) "string") then None
      else Some s
  | _ => None
  end.

(** [v], unless [typeof v !== 'number' || v < lo || v > hi]. *)
Definition numberArgument (lo hi : Z) (v : value) : option number :=
  match v with
  | VNumber n =>
      if JS.lt n (JS.ofZ lo) || JS.gt n (JS.ofZ hi) then None else Some n
  | _ => None
  end.

Definition invalidParams (message : string) : exception :=
  McpError InvalidParams message.

(** [c.planets.Sun.longitude] *)
Definition sunLongitude (h : host) (c : chart) : M number :=
  match planets c !! "Sun" with
  | Some sun => ret (longitude sun)
  | None =>
      throw (Error (faultMessage h (CannotRead "longitude" VUndefined)))
  end.

(** [v !== undefined ? v : other] *)
Definition orElse (v other : value) : value :=
  match v with
  | VUndefined => other
  | _ => v
  end.

(** [d.toISOString()] for a date that may be invalid. *)
Definition isoString (h : host) (d : option date) : M string :=
  match d with
  | Some d' => ret (toISOString h d')
  | None => throw (Error (faultMessage h InvalidTimeValue))
  end.

Definition handleToolCall (h : host) (name : string) (args : value)
  : M result :=
  if String.eqb name "calculate_planetary_positions" then
    let! arg := destructure h args "datetime" in
    let! datetime := require (stringArgument (arg "datetime"))
      (invalidParams "datetime parameter is required and must be a string") in
    let! latitude := require (numberArgument (-90) 90 (arg "latitude"))
      (invalidParams "latitude must be a number between -90 and 90") in
    let! longitude := require (numberArgument (-180) 180 (arg "longitude"))
      (invalidParams "longitude must be a number between -180 and 180") in
    let! c := calculateEphemeris h datetime (VNumber latitude) (VNumber longitude) in
    ret (Positions c)
  else if String.eqb name "calculate_transits" then
    let! arg := destructure h args "birth_datetime" in
    let! birth_datetime := require (stringArgument (arg "birth_datetime"))
      (invalidParams "birth_datetime parameter is required and must be a string") in
    let! birth_latitude := require (numberArgument (-90) 90 (arg "latitude"))
      (invalidParams "birth_latitude must be a number between -90 and 90") in
    let! birth_longitude := require (numberArgument (-180) 180 (arg "longitude"))
      (invalidParams "birth_longitude must be a number between -180 and 180") in
    let! natalChart := calculateEphemeris h birth_datetime
      (VNumber birth_latitude) (VNumber birth_longitude) in
    let! currentDate := now h in
    let currentISOString := toISOString h currentDate in
    let! currentEphemeris := calculateEphemeris h currentISOString
      (VNumber birth_latitude) (VNumber birth_longitude) in
    ret (Transits natalChart currentEphemeris currentISOString)
  else if String.eqb name "calculate_solar_revolution" then
    let! arg := destructure h args "birth_datetime" in
    let! sr_birth_datetime := require (stringArgument (arg "birth_datetime"))
      (invalidParams "birth_datetime parameter is required and must be a string") in
    let! sr_birth_latitude := require (numberArgument (-90) 90 (arg "birth_latitude"))
      (invalidParams "birth_latitude must be a number between -90 and 90") in
    let! sr_birth_longitude :=
      require (numberArgument (-180) 180 (arg "birth_longitude"))
        (invalidParams "birth_longitude must be a number between -180 and 180") in
    let! return_year := require (numberArgument 1900 2100 (arg "return_year"))
      (invalidParams "return_year must be a number between 1900 and 2100") in
    let! srNatalChart := calculateEphemeris h sr_birth_datetime
      (VNumber sr_birth_latitude) (VNumber sr_birth_longitude) in
    let! natalSunLongitude := sunLongitude h srNatalChart in
    let birthDate := parseDate h sr_birth_datetime in
    let returnDate :=
      match birthDate with
      | Some d => localDate h return_year d
      | None => None
      end in
    let returnLat :=
      orElse (arg "return_latitude") (VNumber sr_birth_latitude) in
    let returnLon :=
      orElse (arg "return_longitude") (VNumber sr_birth_longitude) in
    let! returnISOString := isoString h returnDate in
    let! solarReturnChart := calculateEphemeris h returnISOString returnLat returnLon in
    let! returnSunLongitude := sunLongitude h solarReturnChart in
    let! calculationDate := now h in
    ret (SolarRevolution srNatalChart
           (Chart (planets solarReturnChart) (houses solarReturnChart)
              (chart_points solarReturnChart)
              (additional_points solarReturnChart)
              returnISOString (returnLat, returnLon))
           natalSunLongitude returnSunLongitude
           (toISOString h calculationDate))
  else if String.eqb name "calculate_synastry" then
    let! arg := destructure h args "person1_datetime" in
    let! person1_datetime := require (stringArgument (arg "person1_datetime"))
      (invalidParams "person1_datetime parameter is required and must be a string") in
    let! person1_latitude :=
      require (numberArgument (-90) 90 (arg "person1_latitude"))
        (invalidParams "person1_latitude must be a number between -90 and 90") in
    let! person1_longitude :=
      require (numberArgument (-180) 180 (arg "person1_longitude"))
        (invalidParams "person1_longitude must be a number between -180 and 180") in
    let! person2_datetime := require (stringArgument (arg "person2_datetime"))
      (invalidParams "person2_datetime parameter is required and must be a string") in
    let! person2_latitude :=
      require (numberArgument (-90) 90 (arg "person2_latitude"))
        (invalidParams "person2_latitude must be a number between -90 and 90") in
    let! person2_longitude :=
      require (numberArgument (-180) 180 (arg "person2_longitude"))
        (invalidParams "person2_longitude must be a number between -180 and 180") in
    let! person1NatalChart := calculateEphemeris h person1_datetime
      (VNumber person1_latitude) (VNumber person1_longitude) in
    let! person2NatalChart := calculateEphemeris h person2_datetime
      (VNumber person2_latitude) (VNumber person2_longitude) in
    let aspects :=
      calculateSynastryAspects (planets person1NatalChart)
        (planets person2NatalChart) in
    let! calculationDate := now h in
    ret (Synastry person1NatalChart person2NatalChart aspects
           (toISOString h calculationDate))
  else
    throw (McpError MethodNotFound ("Unknown tool: " ++ name)).

(** The handler of a tool request, up to the serialisation of the result:
    an [McpError] goes through, any other error becomes an internal
    error. *)
Definition callTool (h : host) (name : string) (args : value) : M result :=
  tryCatch (handleToolCall h name args)
    (fun error =>
       match error with
       | McpError _ _ => throw error
       | Error message =>
           throw (McpError InternalError
                    ("Tool execution failed: " ++ message))
       end).

(** *** The HTTP endpoint *)

(** [request.method === 'initialize']; reading [method] of [null] or
    [undefined] is a [TypeError]. *)
Definition isInitialize (request : value) : fault + bool :=
  match get request "method" with
  | Some (VString s) => inr (String.eqb s "initialize")
  | Some _ => inr false
  | None => inl (CannotRead "method" request)
  end.

(** [items.some(p)]: the elements are tried in order up to the first one
    for which [p] holds; an error on the way ends the search. *)
Fixpoint some (p : value -> fault + bool) (items : list value)
  : fault + bool :=
  match items with
  | [] => inr false
  | x :: rest =>
      match p x with
      | inr true => inr true
      | inr false => some p rest
      | inl f => inl f
      end
  end.

(** [isInitializeRequest(body)]: the value returned, or the error. *)
Definition isInitializeRequest (body : value) : fault + value :=
  match body with
  | VArray items =>
      match some isInitialize items with
      | inr b => inr (VBool b)
      | inl f => inl f
      end
  | _ =>
      if truthy body then
        match isInitialize body with
        | inr b => inr (VBool b)
        | inl f => inl f
        end
      else inr body
  end.

(** What the endpoint does with a request: it hands it to a stored
    transport, or to a new one, or answers with status 400 or 500. *)
Inductive handling (T : Type) : Type :=
| Existing (transport : T)
| Fresh
| BadRequest
| ServerError (details : string).
Arguments Existing {T} _.
Arguments Fresh {T}.
Arguments BadRequest {T}.
Arguments ServerError {T} _.

(** [transports[sessionId]]: a stored transport, or, [transports] being a
    plain object, the member of [Object.prototype] of that name. *)
Definition transportOf {T : Type} (transports : gmap string T)
    (sessionId : string) : option (string + T) :=
  match transports !! sessionId with
  | Some transport => Some (inr transport)
  | None => inl <$> inheritedKey sessionId
  end.

(** The dispatch of [/mcp] on the session id of the request, the stored
    transports and the body.  A member of [Object.prototype] has no
    [handleRequest]: calling it is a [TypeError], caught and answered with
    status 500, as is an error of [isInitializeRequest]. *)
Definition mcp {T : Type} (h : host) (transports : gmap string T)
    (sessionId : option string) (body : value) : handling T :=
  let given :=
    match sessionId with
    | Some id => negb (isEmpty id)
    | None => false
    end in
  match (if given then sessionId ≫= transportOf transports else None) with
  | Some (inr transport) => Existing transport
  | Some (inl _) => ServerError (faultMessage h (NotAFunction "handleRequest"))
  | None =>
      if negb given then
        match isInitializeRequest body with
        | inr v => if truthy v then Fresh else BadRequest
        | inl f => ServerError (faultMessage h f)
        end
      else BadRequest
  end.

(** *** Vocabulary of the properties *)

(** What a tool asks of an argument. *)
Inductive demand : Type :=
| NonEmptyText
| NumberIn (lo hi : Z).

(** A value meets a demand.  A number is refused when it compares below
    the lower bound or above the upper one, which [NaN] never does. *)
Definition passes (d : demand) (v : value) : bool :=
  match d, v with
  | NonEmptyText, VString s => negb (String.eqb s "")
  | NumberIn lo hi, VNumber (Num q) =>
      Qle_bool (inject_Z lo) q && Qle_bool q (inject_Z hi)
  | NumberIn _ _, VNumber NaN => true
  | _, _ => false
  end.

(** The arguments each tool checks, in the order of the checks, each with
    the message of its refusal. *)
Definition demands (name : string) : list (string * demand * string) :=
  if String.eqb name "calculate_planetary_positions" then
    [ ("datetime", NonEmptyText,
       "datetime parameter is required and must be a string");
      ("latitude", NumberIn (-90) 90,
       "latitude must be a number between -90 and 90");
      ("longitude", NumberIn (-180) 180,
       "longitude must be a number between -180 and 180") ]
  else if String.eqb name "calculate_transits" then
    [ ("birth_datetime", NonEmptyText,
       "birth_datetime parameter is required and must be a string");
      ("latitude", NumberIn (-90) 90,
       "birth_latitude must be a number between -90 and 90");
      ("longitude", NumberIn (-180) 180,
       "birth_longitude must be a number between -180 and 180") ]
  else if String.eqb name "calculate_solar_revolution" then
    [ ("birth_datetime", NonEmptyText,
       "birth_datetime parameter is required and must be a string");
      ("birth_latitude", NumberIn (-90) 90,
       "birth_latitude must be a number between -90 and 90");
      ("birth_longitude", NumberIn (-180) 180,
       "birth_longitude must be a number between -180 and 180");
      ("return_year", NumberIn 1900 2100,
       "return_year must be a number between 1900 and 2100") ]
  else if String.eqb name "calculate_synastry" then
    [ ("person1_datetime", NonEmptyText,
       "person1_datetime parameter is required and must be a string");
      ("person1_latitude", NumberIn (-90) 90,
       "person1_latitude must be a number between -90 and 90");
      ("person1_longitude", NumberIn (-180) 180,
       "person1_longitude must be a number between -180 and 180");
      ("person2_datetime", NonEmptyText,
       "person2_datetime parameter is required and must be a string");
      ("person2_latitude", NumberIn (-90) 90,
       "person2_latitude must be a number between -90 and 90");
      ("person2_longitude", NumberIn (-180) 180,
       "person2_longitude must be a number between -180 and 180") ]
  else [].

(** The property [key] of the arguments. *)
Definition argument (args : value) (key : string) : value :=
  default VUndefined (get args key).

(** The message of the first demand the arguments do not meet. *)
Definition firstUnmet (args : value) (ds : list (string * demand * string))
  : option string :=
  snd <$>
    List.find (fun '(key, d, _) => negb (passes d (argument args key))) ds.

(** The beginning of every command. *)
Definition commandStart (h : host) : string :=
  "SE_EPHE_PATH=" ++ ephePath h ++ " swetest -b".

(** The environment of one call of [calculateEphemeris], as the chart
    assembly sees it: the validity of the date and the answers to the two
    commands, run as the n-th and the next. *)
Definition environmentOf (h : host) (n : nat) (datetime : string)
    (lat lng : number) : environment :=
  match parseDate h datetime with
  | None => Environment false (inl "") (inl "")
  | Some d =>
      let swissDate := formatDateToSwiss d in
      let swissTime := formatTimeToSwiss d in
      Environment true
        (execSync h n (planetCmd h swissDate swissTime))
        (execSync h (S n)
           (houseCmd h swissDate swissTime (numberText h lng)
              (numberText h lat)))
  end.

(** The message of the error thrown for a failure of the chart
    assembly. *)
Definition failureMessage (f : failure) : string :=
  "Swiss Ephemeris calculation failed: " ++
  match f with
  | InvalidDatetime =>
      "Invalid datetime format. Use ISO8601 format like 1985-04-12T23:20:50Z"
  | PlanetsFailed message =>
      "Failed to execute swetest for planets: " ++ message
  | HousesFailed message =>
      "Failed to execute swetest for houses: " ++ message
  end.

(** A computation throws plain errors only, never an [McpError]. *)
Definition plain {A : Type} (m : M A) : Prop :=
  forall (st st' : state) (e : exception),
    m st = (inl e, st') -> exists message : string, e = Error message.

(** A computation runs at most [n] commands, each one a call of the
    calculator under the configured path, after the commands already run,
    and reads the clock at most [k] times. *)
Definition bounded {A : Type} (h : host) (n k : nat) (m : M A) : Prop :=
  forall st : state,
    exists cmds : list string,
      executed (snd (m st)) = (executed st ++ cmds)%list /\
      (length cmds <= n)%nat /\
      Forall (fun c => startsWith (commandStart h) c = true) cmds /\
      (readings st <= readings (snd (m st)) <= readings st + k)%nat.

(** A message that asks for initialisation: an object whose own [method]
    is the string [initialize]. *)
Definition initializes (v : value) : Prop :=
  exists fields : list (string * value),
    v = VObject fields /\ assoc fields "method" = Some (VString "initialize").

(** [null] or [undefined]. *)
Definition nullish (v : value) : Prop := v = VNull \/ v = VUndefined.

(** The names of the members of [Object.prototype]. *)
Definition prototypeMembers : list string :=
  [ "__proto__"; "constructor"; "hasOwnProperty"; "isPrototypeOf";
    "propertyIsEnumerable"; "toLocaleString"; "toString"; "valueOf";
    "__defineGetter__"; "__defineSetter__"; "__lookupGetter__";
    "__lookupSetter__" ].

(** The names of the tools of the list. *)
Definition toolNames : list string := tool_name <$> tools.

End Server.
(** ** Sample data of the server *)

(** 12 April 1985, 23:20:50 UTC. *)
Definition sampleDate : Server.date :=
  Server.Date 482196050000 1985 3 12 23 20 50.

(** The date of the return chart of the sample, 12 April 2024. *)
Definition sampleReturnDate : Server.date :=
  Server.Date 1712964050000 2024 3 12 23 20 50.

(** A host that knows the two sample dates, answers every command with
    the sample outputs and has no ephemeris path configured. *)
Definition sampleHost : Server.host :=
  Server.Host
    (fun s =>
       if String.eqb s "1985-04-12T23:20:50Z" then Some sampleDate
       else if String.eqb s "2024-04-12T23:20:50.000Z"
            then Some sampleReturnDate
            else None)
    (fun d =>
       if (Server.getTime d =? 482196050000)%Z then "1985-04-12T23:20:50.000Z"
       else "2024-04-12T23:20:50.000Z")
    (fun _ _ => Some sampleReturnDate)
    (fun _ => sampleReturnDate)
    None
    (fun _ command =>
       if includes "-house" command then inr sampleHouseOutput
       else inr samplePlanetOutput)
    (fun n =>
       match n with
       | Num q => pretty (Qfloor q)
       | NaN => "NaN"
       end)
    (fun _ => "TypeError")
    (fun _ message => message).

(** The same host with a calculator that prints nothing. *)
Definition silentHost : Server.host :=
  Server.Host (Server.parseDate sampleHost) (Server.toISOString sampleHost)
    (Server.localDate sampleHost) (Server.clock sampleHost)
    (Server.SE_EPHE_PATH sampleHost) (fun _ _ => inr "")
    (Server.numberText sampleHost) (Server.faultMessage sampleHost)
    (Server.mcpMessage sampleHost).

(** The arguments of a chart for the sample date at 48 north, 2 east. *)
Definition sampleArguments : Server.value :=
  Server.VObject
    [ ("datetime", Server.VString "1985-04-12T23:20:50Z");
      ("latitude", Server.VNumber (Num 48));
      ("longitude", Server.VNumber (Num 2)) ].

(** The same with a latitude beyond the pole. *)
Definition sampleArgumentsTooFarNorth : Server.value :=
  Server.VObject
    [ ("datetime", Server.VString "1985-04-12T23:20:50Z");
      ("latitude", Server.VNumber (Num 91));
      ("longitude", Server.VNumber (Num 2)) ].

(** The arguments of a solar return for 2024 whose return coordinates are
    texts. *)
Definition sampleReturnArguments : Server.value :=
  Server.VObject
    [ ("birth_datetime", Server.VString "1985-04-12T23:20:50Z");
      ("birth_latitude", Server.VNumber (Num 48));
      ("birth_longitude", Server.VNumber (Num 2));
      ("return_year", Server.VNumber (Num 2024));
      ("return_latitude", Server.VString "north");
      ("return_longitude", Server.VString "east of here") ].

(** The state before anything has run. *)
Definition initialState : Server.state := Server.State [] 0.

(** The first entry of the tool list. *)
Definition positionsTool : Server.tool :=
  hd (Server.Tool "" [] []) Server.tools.

(** Arguments whose datetime is a text that is no date. *)
Definition sampleArgumentsNoDate : Server.value :=
  Server.VObject
    [ ("datetime", Server.VString "the day before yesterday");
      ("latitude", Server.VNumber (Num 48));
      ("longitude", Server.VNumber (Num 2)) ].

(** A body that asks for initialisation. *)
Definition sampleInitialize : Server.value :=
  Server.VObject
    [ ("jsonrpc", Server.VString "2.0");
      ("method", Server.VString "initialize") ].



(** ** Lemmas on numbers *)

Section Numbers.
Local Open Scope Q_scope.

Lemma Qfloor_lower (x : Q) : inject_Z (Qfloor x) <= x.
Proof. apply Qfloor_le. Qed.

Lemma Qfloor_upper (x : Q) : x < inject_Z (Qfloor x) + 1.
Proof.
  pose proof (Qlt_floor x) as H. rewrite inject_Z_plus in H. exact H.
Qed.

Lemma Qceiling_lower (x : Q) : inject_Z (Qceiling x) - 1 < x.
Proof.
  unfold Qceiling. pose proof (Qfloor_upper (- x)) as H.
  rewrite inject_Z_opp. lra.
Qed.

Lemma Qceiling_upper (x : Q) : x <= inject_Z (Qceiling x).
Proof.
  unfold Qceiling. pose proof (Qfloor_lower (- x)) as H.
  rewrite inject_Z_opp. lra.
Qed.

(** An integer between [x - 1] (excluded) and [x] is the floor of [x]. *)
Lemma Qfloor_unique (x : Q) (n : Z) :
  inject_Z n <= x -> x < inject_Z n + 1 -> Qfloor x = n.
Proof.
  intros Hl Hu.
  pose proof (Qfloor_lower x) as Fl. pose proof (Qfloor_upper x) as Fu.
  assert (H1 : inject_Z n < inject_Z (Qfloor x + 1)).
  { rewrite inject_Z_plus. change (inject_Z 1) with 1. lra. }
  assert (H2 : inject_Z (Qfloor x) < inject_Z (n + 1)).
  { rewrite inject_Z_plus. change (inject_Z 1) with 1. lra. }
  rewrite <- Zlt_Qlt in H1, H2. lia.
Qed.

Lemma Qdiv_by (x : Q) (n : positive) :
  x / inject_Z (Zpos n) == x * (1 # n).
Proof. unfold Qdiv. reflexivity. Qed.

Lemma round2_eq (x : Q) :
  round2 x == inject_Z (Qfloor (x * 100 + (1 # 2))) * (1 # 100).
Proof. unfold round2. apply (Qdiv_by _ 100). Qed.

Lemma round2_close (x : Q) : Qabs (round2 x - x) <= 1 # 200.
Proof.
  pose proof (Qfloor_lower (x * 100 + (1 # 2))) as Fl.
  pose proof (Qfloor_upper (x * 100 + (1 # 2))) as Fu.
  apply Qabs_Qle_condition. rewrite round2_eq. split; lra.
Qed.

Lemma round2_nonneg (x : Q) : 0 <= x -> 0 <= round2 x.
Proof.
  intros Hx. rewrite round2_eq.
  assert (H : (0 <= Qfloor (x * 100 + (1 # 2)))%Z).
  { change 0%Z with (Qfloor 0). apply Qfloor_resp_le. lra. }
  rewrite Zle_Qle in H. change (inject_Z 0) with 0 in H. lra.
Qed.

Lemma round2_mono (x y : Q) : x <= y -> round2 x <= round2 y.
Proof.
  intros Hxy. rewrite !round2_eq.
  assert (H : (Qfloor (x * 100 + (1 # 2)) <= Qfloor (y * 100 + (1 # 2)))%Z).
  { apply Qfloor_resp_le. lra. }
  rewrite Zle_Qle in H. lra.
Qed.

Lemma Qmod_range (x m : Q) : 0 < m -> 0 <= Qmod x m /\ Qmod x m < m.
Proof.
  intros Hm. unfold Qmod.
  pose proof (Qfloor_lower (x / m)) as Fl.
  pose proof (Qfloor_upper (x / m)) as Fu.
  assert (E : x == m * (x / m)) by (field; lra).
  split.
  - assert (m * inject_Z (Qfloor (x / m)) <= m * (x / m)) by nra. lra.
  - assert (m * (x / m) < m * (inject_Z (Qfloor (x / m)) + 1)) by nra. lra.
Qed.





End Numbers.

(** ** Lemmas on the parsers *)





(** What an accepted position string yields, in terms of its groups. *)
Lemma parsePosition_inv {L : Type} (label : L) (str : string) (p : parsed L) :
  parsePosition label str = Some p ->
  exists (m1 m2 m3 m4 : string) (si : signInfo),
    posMatch str = Some (m1, m2, m3, m4) /\
    assoc signMap (toLowerCase m2) = Some si /\
    tag p = label /\ p_sign p = sign_name si /\
    match parseFloat m4 with
    | NaN => p_longitude p = NaN /\ p_degree p = NaN
    | Num s =>
        p_longitude p =
          Num (inject_Z (sign_offset si) + inject_Z (parseInt m1)
               + inject_Z (parseInt m3) / 60 + s / 3600)%Q /\
        p_degree p = Num (round2 (positionValue (parseInt m1) (parseInt m3) s))
    end.
Proof.
  unfold parsePosition.
  destruct (posMatch str) as [[[[m1 m2] m3] m4] |]; [| discriminate].
  destruct (assoc signMap (toLowerCase m2)) as [si |] eqn:Esi; [| discriminate].
  intros [= <-]. exists m1, m2, m3, m4, si.
  repeat (split; [try reflexivity; assumption |]).
  destruct (parseFloat m4) as [s |]; split; reflexivity.
Qed.

(** ** The scanner and the position pattern *)

Lemma append_nil_l (s : string) : "" ++ s = s.
Proof. reflexivity. Qed.

Lemma append_cons (c : ascii) (a b : string) :
  String c a ++ b = String c (a ++ b).
Proof. reflexivity. Qed.

Lemma span_app (p : ascii -> bool) (s a b : string) :
  span p s = (a, b) -> s = a ++ b /\ allIn p a = true /\ stopsAt p b.
Proof.
  revert a b. induction s as [| c r IH]; intros a b; cbn [span].
  - intros [= <- <-]. repeat split.
  - destruct (p c) eqn:Ec.
    + destruct (span p r) as [a' b'] eqn:Er. intros [= <- <-].
      destruct (IH a' b' eq_refl) as (-> & Ha & Hb).
      rewrite append_cons. cbn [allIn]. rewrite Ec, Ha. repeat split. exact Hb.
    + intros [= <- <-]. rewrite append_nil_l. repeat split. exact Ec.
Qed.

Lemma span_unique (p : ascii -> bool) (a b : string) :
  allIn p a = true -> stopsAt p b -> span p (a ++ b) = (a, b).
Proof.
  intros Ha Hb. induction a as [| c a IH].
  - rewrite append_nil_l. destruct b as [| c b]; [reflexivity |].
    cbn in Hb. cbn [span]. rewrite Hb. reflexivity.
  - cbn in Ha. apply andb_true_iff in Ha. destruct Ha as [Hc Ha].
    rewrite append_cons. cbn [span]. rewrite Hc, (IH Ha). reflexivity.
Qed.

Lemma isEmpty_false (s : string) : isEmpty s = false <-> s <> "".
Proof. destruct s; cbn; split; congruence. Qed.

(** The character classes that follow one another in the pattern are
    disjoint. *)
Lemma digit_not_space (c : ascii) : isDigit c = true -> isSpace c = false.
Proof.
  unfold isDigit, isSpace. intros H. apply andb_true_iff in H.
  destruct H as [H1 H2]. apply Nat.leb_le in H1, H2.
  repeat (apply orb_false_iff; split);
    [apply andb_false_iff; right; apply Nat.leb_gt; lia
    | apply Nat.eqb_neq; lia | apply Nat.eqb_neq; lia].
Qed.

Lemma letter_not_space (c : ascii) : isLetter c = true -> isSpace c = false.
Proof.
  unfold isLetter, isUpper, isLower, isSpace. intros H.
  apply orb_true_iff in H.
  assert (H' : (65 <= nat_of_ascii c <= 122)%nat).
  { destruct H as [H | H]; apply andb_true_iff in H; destruct H as [H1 H2];
      apply Nat.leb_le in H1, H2; lia. }
  repeat (apply orb_false_iff; split);
    [apply andb_false_iff; right; apply Nat.leb_gt; lia
    | apply Nat.eqb_neq; lia | apply Nat.eqb_neq; lia].
Qed.

Lemma space_not_digit (c : ascii) : isSpace c = true -> isDigit c = false.
Proof.
  intros H. destruct (isDigit c) eqn:E; [| reflexivity].
  apply digit_not_space in E. congruence.
Qed.

Lemma space_not_digitOrDot (c : ascii) : isSpace c = true -> isDigitOrDot c = false.
Proof.
  intros H. unfold isDigitOrDot. rewrite (space_not_digit c H). cbn.
  destruct (Ascii.eqb c ".") eqn:E; [| reflexivity].
  apply Ascii.eqb_eq in E. subst c. discriminate.
Qed.

Lemma space_not_letter (c : ascii) : isSpace c = true -> isLetter c = false.
Proof.
  intros H. destruct (isLetter c) eqn:E; [| reflexivity].
  apply letter_not_space in E. congruence.
Qed.

Lemma apostrophe_not_digit : isDigit "'" = false.
Proof. reflexivity. Qed.

Lemma allIn_head (p q : ascii -> bool) (s t : string) :
  (forall c, p c = true -> q c = false) ->
  s <> "" -> allIn p s = true -> stopsAt q (s ++ t).
Proof.
  intros Hpq Hs Ha. destruct s as [| c s]; [congruence |].
  rewrite append_cons. cbn in *. apply andb_true_iff in Ha. apply Hpq, Ha.
Qed.

Lemma append_nil_r (a : string) : a ++ "" = a.
Proof.
  induction a as [| x a IH]; [reflexivity |].
  rewrite append_cons, IH. reflexivity.
Qed.

(** The scan finds a match exactly for the strings of the pattern, with
    the same groups. *)
Lemma posMatch_grammar (s g1 g2 g3 g4 : string) :
  posMatch s = Some (g1, g2, g3, g4) <-> positionGrammar s g1 g2 g3 g4.
Proof.
  split.
  - unfold posMatch.
    destruct (span isDigit s) as [d1 r1] eqn:E1.
    destruct (isEmpty d1) eqn:N1; [discriminate |].
    destruct (span isSpace r1) as [w1 r2] eqn:E2.
    destruct (isEmpty w1) eqn:N2; [discriminate |].
    destruct r2 as [| a [| b r3]]; try discriminate.
    destruct (isLetter a && isLetter b) eqn:L; [| discriminate].
    destruct (span isSpace r3) as [w2 r4] eqn:E3.
    destruct (isEmpty w2) eqn:N3; [discriminate |].
    destruct (span isDigit r4) as [d3 r5] eqn:E4.
    destruct (isEmpty d3) eqn:N4; [discriminate |].
    destruct r5 as [| q r6]; [discriminate |].
    destruct (Ascii.eqb q "'") eqn:Q.
    2:{ destruct q as [[] [] [] [] [] [] [] []]; try discriminate. }
    apply Ascii.eqb_eq in Q. subst q.
    destruct (span isSpace r6) as [w3 r7] eqn:E5.
    destruct (span isDigitOrDot r7) as [d4 r8] eqn:E6.
    destruct (isEmpty d4) eqn:N5; [discriminate |].
    destruct r8; [| discriminate]. intros [= <- <- <- <-].
    apply span_app in E1, E2, E3, E4, E5, E6.
    destruct E1 as (-> & A1 & _), E2 as (-> & A2 & _), E3 as (-> & A3 & _),
      E4 as (-> & A4 & _), E5 as (-> & A5 & _), E6 as (-> & A6 & _).
    exists w1, w2, w3. rewrite append_nil_r.
    apply isEmpty_false in N1, N2, N3, N4, N5.
    repeat (split; [first [assumption | reflexivity] |]).
    split; [| split; [assumption | split; [assumption |]]].
    + cbn [allIn]. rewrite andb_true_r. exact L.
    + repeat (split; [assumption |]). assumption.
  - intros (w1 & w2 & w3 & -> & N1 & A1 & N2 & A2 & L2 & A3 & N3 & A4 & N4
            & A5 & A6 & N5 & A7).
    destruct g2 as [| a [| b [| c g2]]]; try discriminate. clear L2.
    unfold posMatch.
    rewrite (span_unique isDigit g1 _ A1 (allIn_head _ _ _ _ space_not_digit N2 A2)).
    apply isEmpty_false in N1. rewrite N1.
    assert (Ha : isLetter a = true /\ isLetter b = true).
    { cbn in A3. rewrite andb_true_r in A3. apply andb_true_iff in A3. exact A3. }
    destruct Ha as [La Lb].
    rewrite (span_unique isSpace w1 _ A2).
    2:{ cbn. apply letter_not_space, La. }
    apply isEmpty_false in N2. rewrite N2.
    rewrite !append_cons, append_nil_l. rewrite La, Lb. cbn [andb].
    rewrite (span_unique isSpace w2 _ A4).
    2:{ apply (allIn_head isDigit); [apply digit_not_space | exact N4 | exact A5]. }
    apply isEmpty_false in N3. rewrite N3.
    rewrite (span_unique isDigit g3 _ A5) by reflexivity.
    apply isEmpty_false in N4. rewrite N4.
    rewrite append_nil_l.
    rewrite (span_unique isSpace w3 g4 A6).
    2:{ destruct g4 as [| c g4]; [congruence |]. cbn in *.
        apply andb_true_iff in A7. destruct A7 as [A7 _].
        destruct (isSpace c) eqn:S; [| reflexivity].
        apply space_not_digitOrDot in S. congruence. }
    rewrite <- (append_nil_r g4) at 1.
    rewrite (span_unique isDigitOrDot g4 "" A7 I).
    apply isEmpty_false in N5. rewrite N5. reflexivity.
Qed.

Lemma stripPrefix_app (prefix s r : string) :
  stripPrefix prefix s = Some r <-> s = prefix ++ r.
Proof.
  revert s. induction prefix as [| a p IH]; intros s; cbn [stripPrefix].
  - rewrite append_nil_l. split; congruence.
  - rewrite append_cons. destruct s as [| b s]; [split; discriminate |].
    destruct (Ascii.eqb a b) eqn:E.
    + apply Ascii.eqb_eq in E. subst b. rewrite IH. split; congruence.
    + apply Ascii.eqb_neq in E. split; [discriminate | congruence].
Qed.

(** The house label scan finds the match of the pattern. *)
Lemma houseMatch_grammar (s g : string) :
  houseMatch s = Some g <-> houseGrammar s g.
Proof.
  unfold houseMatch, houseGrammar. split.
  - destruct (stripPrefix "house" s) as [r |] eqn:Ep; [| discriminate].
    apply stripPrefix_app in Ep. subst s.
    destruct (span isSpace r) as [w r1] eqn:E1.
    destruct (isEmpty w) eqn:N1; [discriminate |].
    destruct (span isDigit r1) as [d rest] eqn:E2.
    destruct (isEmpty d) eqn:N2; [discriminate |]. intros [= <-].
    apply span_app in E1, E2.
    destruct E1 as (-> & A1 & _), E2 as (-> & A2 & S2).
    apply isEmpty_false in N1, N2. exists w, rest.
    repeat split; assumption.
  - intros (w & rest & -> & N1 & A1 & N2 & A2 & S2).
    rewrite (proj2 (stripPrefix_app "house" _ (w ++ g ++ rest)) eq_refl).
    rewrite (span_unique isSpace w _ A1).
    2:{ apply (allIn_head isDigit); [apply digit_not_space | exact N2 | exact A2]. }
    apply isEmpty_false in N1. rewrite N1.
    rewrite (span_unique isDigit g rest A2 S2).
    apply isEmpty_false in N2. rewrite N2. reflexivity.
Qed.

(** [includes]: the needle occurs somewhere in the string. *)
Lemma startsWith_app (needle s : string) :
  startsWith needle s = true <-> exists rest : string, s = needle ++ rest.
Proof.
  revert s. induction needle as [| a n IH]; intros s; cbn [startsWith].
  - split; [intros _; exists s; reflexivity | reflexivity].
  - destruct s as [| b s].
    + split; [discriminate | intros [rest H]; rewrite append_cons in H; discriminate].
    + rewrite andb_true_iff, IH. split.
      * intros [E [rest ->]]. apply Ascii.eqb_eq in E. subst b.
        exists rest. reflexivity.
      * intros [rest H]. rewrite append_cons in H. injection H as -> ->.
        split; [apply Ascii.eqb_refl | exists rest; reflexivity].
Qed.

Lemma includes_app (needle s : string) :
  includes needle s = true <->
  exists before after : string, s = before ++ needle ++ after.
Proof.
  induction s as [| c s IH].
  - cbn [includes]. rewrite orb_false_r, startsWith_app. split.
    + intros [rest H]. exists "", rest. exact H.
    + intros (before & after & H). destruct before as [| b before].
      * exists after. exact H.
      * rewrite append_cons in H. discriminate.
  - cbn [includes]. rewrite orb_true_iff, startsWith_app, IH. split.
    + intros [[rest H] | (before & after & H)].
      * exists "", rest. exact H.
      * exists (String c before), after. rewrite append_cons, H. reflexivity.
    + intros (before & after & H). destruct before as [| b before].
      * left. exists after. exact H.
      * right. rewrite append_cons in H. injection H as -> ->.
        exists before, after. reflexivity.
Qed.

(** [split] cuts at every separator and nowhere else: joining the parts
    gives the string back, and no part holds a separator. *)
Lemma split_nonempty (sep : ascii) (s : string) : split sep s <> [].
Proof.
  destruct s as [| c s]; cbn [split]; [discriminate |].
  destruct (Ascii.eqb c sep); [discriminate |].
  destruct (split sep s); discriminate.
Qed.

Lemma join_split (sep : ascii) (s : string) : join sep (split sep s) = s.
Proof.
  induction s as [| c s IH]; [reflexivity |]. cbn [split].
  pose proof (split_nonempty sep s) as Hne.
  destruct (Ascii.eqb c sep) eqn:E.
  - apply Ascii.eqb_eq in E. subst c.
    destruct (split sep s) as [| p rest]; [congruence |].
    cbn [join] in *. rewrite append_nil_l, IH. reflexivity.
  - destruct (split sep s) as [| p rest]; [congruence |].
    destruct rest as [| q rest]; cbn [join] in *.
    + rewrite IH. reflexivity.
    + rewrite append_cons, IH. reflexivity.
Qed.

Lemma split_no_separator (sep : ascii) (s : string) :
  Forall (fun part => allIn (fun c => negb (Ascii.eqb c sep)) part = true)
    (split sep s).
Proof.
  induction s as [| c s IH]; cbn [split].
  - constructor; [reflexivity | constructor].
  - destruct (Ascii.eqb c sep) eqn:E.
    + constructor; [reflexivity | exact IH].
    + destruct (split sep s) as [| p rest]; [constructor; [| constructor] |].
      * cbn. rewrite E. reflexivity.
      * apply Forall_cons in IH. destruct IH as [Hp Hr].
        constructor; [| exact Hr]. cbn. rewrite E, Hp. reflexivity.
Qed.

(** ** Lemmas on the sign table *)



(** ** Lemmas on the remainder and on derived points *)

Section Derived.
Local Open Scope Q_scope.

Lemma Qmod_unique (x m r : Q) (k : Z) :
  0 < m -> 0 <= r -> r < m -> r == x - m * inject_Z k -> r == Qmod x m.
Proof.
  intros Hm Hr0 Hrm Hr.
  assert (Hk : Qfloor (x / m) = k).
  { apply Qfloor_unique; set (z := inject_Z k) in *.
    - apply Qle_shift_div_l; [exact Hm | lra].
    - apply Qlt_shift_div_r; [exact Hm | lra]. }
  unfold Qmod. rewrite Hk. exact Hr.
Qed.


Lemma Qtrunc_nonneg (x : Q) : 0 <= x -> JS.Qtrunc x = Qfloor x.
Proof.
  intros Hx. unfold JS.Qtrunc.
  apply Qle_bool_iff in Hx. rewrite Hx. reflexivity.
Qed.

Lemma Qtrunc_neg (x : Q) : x < 0 -> JS.Qtrunc x = Qceiling x.
Proof.
  intros Hx. unfold JS.Qtrunc.
  destruct (Qle_bool 0 x) eqn:E; [| reflexivity].
  apply Qle_bool_iff in E. lra.
Qed.

Lemma rem_nonneg (x : Q) (n : positive) :
  0 <= x ->
  JS.rem (Num x) (JS.ofZ (Zpos n)) = Num (Qmod x (inject_Z (Zpos n))).
Proof.
  intros Hx. unfold JS.rem, JS.ofZ, Qmod.
  change (JS.Qis_zero (inject_Z (Z.pos n))) with false. simpl.
  rewrite Qtrunc_nonneg; [reflexivity |].
  apply Qle_shift_div_l; [reflexivity | lra].
Qed.

Lemma lt_zero_false (x : Q) : 0 <= x -> JS.lt (Num x) (JS.ofZ 0) = false.
Proof.
  intros Hx. unfold JS.lt, JS.ofZ. apply Qle_bool_iff in Hx.
  change (inject_Z 0) with 0. rewrite Hx. reflexivity.
Qed.

Lemma lt_zero_true (x : Q) : x < 0 -> JS.lt (Num x) (JS.ofZ 0) = true.
Proof.
  intros Hx. unfold JS.lt, JS.ofZ. change (inject_Z 0) with 0.
  destruct (Qle_bool 0 x) eqn:E; [| reflexivity].
  apply Qle_bool_iff in E. lra.
Qed.


Lemma rem_neg (x : Q) (n : positive) :
  x < 0 ->
  JS.rem (Num x) (JS.ofZ (Zpos n)) =
  Num (x - inject_Z (Zpos n) * inject_Z (Qceiling (x / inject_Z (Zpos n)))).
Proof.
  intros Hx. unfold JS.rem, JS.ofZ.
  change (JS.Qis_zero (inject_Z (Z.pos n))) with false. simpl.
  rewrite Qtrunc_neg; [reflexivity |].
  apply Qlt_shift_div_r; [reflexivity | lra].
Qed.

(** The Part of Fortune longitude is the residue of [asc + moon - sun]. *)
Lemma fortuneLongitude_Qmod (a s m : Q) :
  exists r : Q,
  fortuneLongitude (Num a) (Num s) (Num m) = Num r /\
  r == Qmod (a + m - s) 360.
Proof.
  unfold fortuneLongitude. simpl JS.sub.
  set (x := a + m - s).
  change n360 with (JS.ofZ (Zpos 360)).
  destruct (Qlt_le_dec x 0) as [Hneg | Hpos].
  - rewrite (rem_neg x 360 Hneg).
    change (inject_Z (Zpos 360)) with 360.
    set (c := Qceiling (x / 360)).
    pose proof (Qceiling_lower (x / 360)) as Cl.
    pose proof (Qceiling_upper (x / 360)) as Cu.
    fold c in Cl, Cu.
    assert (Ex : x == 360 * (x / 360)) by (field; discriminate).
    set (r0 := x - 360 * inject_Z c).
    assert (Hr0 : -360 < r0 /\ r0 <= 0) by (unfold r0; split; lra).
    destruct (Qlt_le_dec r0 0) as [Hlt | Hge].
    + rewrite (lt_zero_true r0 Hlt). simpl JS.add.
      eexists; split; [reflexivity |].
      apply (Qmod_unique x 360 _ (c + -1)).
      * reflexivity.
      * change (inject_Z 360) with 360. lra.
      * change (inject_Z 360) with 360. lra.
      * rewrite inject_Z_plus. change (inject_Z 360) with 360.
        change (inject_Z (-1)) with (-1). unfold r0. lra.
    + rewrite (lt_zero_false r0 Hge). eexists; split; [reflexivity |].
      apply (Qmod_unique x 360 _ c); try lra. reflexivity.
  - rewrite (rem_nonneg x 360 Hpos).
    pose proof (Qmod_range x 360 ltac:(reflexivity)) as [R0 R1].
    change (inject_Z (Zpos 360)) with 360.
    rewrite (lt_zero_false _ R0). eexists; split; reflexivity.
Qed.

End Derived.

Section DerivedPoints.
Local Open Scope Q_scope.






Lemma opposite_NaN : opposite NaN = NaN.
Proof. reflexivity. Qed.

Lemma derivedPoint_longitude (x : number) : longitude (derivedPoint x) = x.
Proof. reflexivity. Qed.




End DerivedPoints.

(** ** Soundness of the points of a chart *)

Section ParsedPoints.
Local Open Scope Q_scope.





End ParsedPoints.









(** ** The assembled chart *)

Lemma calculateEphemeris_inr (env : environment) (dt : string)
    (lat lng : number) (c : chart) :
  calculateEphemeris env dt lat lng = inr c ->
  exists planetOutput houseOutput : string,
    env = answering planetOutput houseOutput /\
    c = assembleLines (split "010" planetOutput) (split "010" houseOutput)
          dt lat lng.
Proof.
  unfold calculateEphemeris. destruct env as [ok pr hr]. cbn.
  destruct ok; [| discriminate]. cbn.
  destruct pr as [m | po]; [discriminate |].
  destruct hr as [m | ho]; [discriminate |].
  intros [= <-]. exists po, ho. split; reflexivity.
Qed.

(** The assembly never fails once both outputs are there. *)
Lemma calculateEphemeris_answering (po ho dt : string) (lat lng : number) :
  calculateEphemeris (answering po ho) dt lat lng =
  inr (assembleLines (split "010" po) (split "010" ho) dt lat lng).
Proof. reflexivity. Qed.


Lemma ascendant_lookup (pl hl : list string) (dt : string) (lat lng : number) :
  chart_points (assembleLines pl hl dt lat lng) !! "Ascendant" =
  (fold_left addHouseLine (List.filter keepLine hl) (∅, ∅)).2 !! "Ascendant".
Proof.
  unfold assembleLines.
  destruct (fold_left addHouseLine (List.filter keepLine hl) (∅, ∅)) as [hs cps].
  cbn [chart_points snd].
  set (cps1 := match cps !! "Ascendant" with Some _ => _ | None => _ end).
  assert (E1 : cps1 !! "Ascendant" = cps !! "Ascendant").
  { subst cps1. destruct (cps !! "Ascendant") eqn:E; [| exact E].
    rewrite lookup_insert_ne by discriminate. exact E. }
  destruct (cps1 !! "Midheaven"); [| exact E1].
  rewrite lookup_insert_ne by discriminate. exact E1.
Qed.

Lemma fortune_lookup (pl hl : list string) (dt : string) (lat lng : number) :
  let c := assembleLines pl hl dt lat lng in
  additional_points c !! "Part of Fortune" =
  match chart_points c !! "Ascendant", planets c !! "Sun", planets c !! "Moon" with
  | Some asc, Some sun, Some moon =>
      Some (derivedPoint
              (fortuneLongitude (longitude asc) (longitude sun) (longitude moon)))
  | _, _, _ => None
  end.
Proof.
  intros c. subst c. rewrite ascendant_lookup. unfold assembleLines.
  destruct (fold_left addHouseLine (List.filter keepLine hl) (∅, ∅)) as [hs cps].
  cbn [planets additional_points snd].
  set (ps := fold_left addPlanetLine (List.filter keepLine pl) ∅).
  destruct (ps !! "North Node") as [nn |];
    destruct (cps !! "Ascendant"), (ps !! "Sun"), (ps !! "Moon"); cbn;
    rewrite ?lookup_insert_eq; rewrite ?lookup_insert_ne by discriminate;
    rewrite ?lookup_empty; reflexivity.
Qed.

Lemma derivedPoint_NaN : derivedPoint NaN = Point NaN None NaN.
Proof. reflexivity. Qed.




(** C5: the planet-line parser, on the line [Sun            ,22 le 53'51.2332],
    returns the sign Leo, the longitude [120 + 22 + 53/60 + 51.2332/3600]
    (142.8975 to four decimals) and the degree 22.90. *)
Theorem parse_sun_line :
  exists lon deg : Q,
    parsePlanetLine "Sun            ,22 le 53'51.2332"
      = Some (Parsed "Sun" (Num lon) "Leo" (Num deg)) /\
    (lon == 120 + 22 + 53 / 60 + 51.2332 / 3600)%Q /\
    (142.8975 <= lon)%Q /\ (lon < 142.8976)%Q /\
    (deg == 22.90)%Q.
Proof.
  eexists. eexists. split; [vm_compute; reflexivity |].
  repeat split; vm_compute; congruence.
Qed.

(** ** Derived points *)







(** In exact arithmetic the Part of Fortune is as the specification asks:
    the additional points of an assembled chart have it exactly when the
    chart points have an Ascendant and the planets have a Sun and a Moon;
    its longitude is then Ascendant plus Moon minus Sun brought into
    [0, 360), also when that sum is negative; when one of the three is
    missing the key is absent from the chart that is returned. *)
Lemma part_of_fortune_exact (env : environment) (dt : string)
    (lat lng : number) (c : chart) :
  calculateEphemeris env dt lat lng = inr c ->
  match chart_points c !! "Ascendant", planets c !! "Sun", planets c !! "Moon" with
  | Some asc, Some sun, Some moon =>
      exists fortune : point,
        additional_points c !! "Part of Fortune" = Some fortune /\
        num_eq (longitude fortune)
          (fortuneSpec (longitude asc) (longitude sun) (longitude moon)) /\
        (forall q : Q, longitude fortune = Num q -> (0 <= q)%Q /\ (q < 360)%Q)
  | _, _, _ => additional_points c !! "Part of Fortune" = None
  end.
Proof.
  intros Hc.
  destruct (calculateEphemeris_inr _ _ _ _ _ Hc) as (po & ho & _ & ->).
  pose proof (fortune_lookup (split "010" po) (split "010" ho) dt lat lng) as Hl.
  cbv zeta in Hl.
  destruct (chart_points _ !! "Ascendant") as [asc |]; [| exact Hl].
  destruct (planets _ !! "Sun") as [sun |]; [| exact Hl].
  destruct (planets _ !! "Moon") as [moon |]; [| exact Hl].
  eexists. split; [exact Hl |]. rewrite derivedPoint_longitude.
  destruct (longitude asc) as [a |], (longitude sun) as [s |],
    (longitude moon) as [m |]; cbn [fortuneSpec];
    try (split; [exact I | intros q Hq; discriminate]).
  destruct (fortuneLongitude_Qmod a s m) as (r & -> & Er).
  destruct (Qmod_range (a + m - s) 360 ltac:(reflexivity)) as [R0 R1].
  split; [exact Er |]. intros q [= <-]. split; lra.
Qed.

(** ** The chart in binary64 *)

(** The opposite of a longitude never leaves [0, 360) in binary64 either:
    here the North Node of the sample, at 15 degrees. *)
Example binary64_south_node :
  Binary64.derivedPoint
    (Binary64.rem (Binary64.ofZ 15 + Binary64.ofZ 180)%float (Binary64.ofZ 360))
  = Binary64.Point (Binary64.ofZ 195) (Some "Libra") (Binary64.ofZ 15).
Proof. vm_compute. reflexivity. Qed.

(** The planet line of the specification in binary64: the same sign, the
    same degree 22.9, a longitude between 142.8975 and 142.8976. *)
Example binary64_sun_line :
  exists sun : Binary64.parsed string,
    Binary64.parsePlanetLine "Sun            ,22 le 53'51.2332" = Some sun /\
    Binary64.p_sign sun = "Leo" /\
    Binary64.p_degree sun = (Binary64.ofZ 229 / Binary64.ofZ 10)%float /\
    PrimFloat.leb (Binary64.ofZ 1428975 / Binary64.ofZ 10000)%float
      (Binary64.p_longitude sun) = true /\
    PrimFloat.ltb (Binary64.p_longitude sun)
      (Binary64.ofZ 1428976 / Binary64.ofZ 10000)%float = true.
Proof. eexists. repeat split; vm_compute; reflexivity. Qed.

(** Ascendant at 10 degrees 6 minutes, Moon at 20 degrees 12 minutes, Sun at
    30 degrees 18 minutes: the binary64 sum of Ascendant and Moon minus Sun
    is a negative number of the order of 1e-15; the remainder keeps it, 360
    is added and the sum is rounded to 360 exactly. *)
Lemma fortune_rounding :
  exists asc sun moon : Binary64.parsed string,
    Binary64.parseChartPointLine "Ascendant      ,10 ar  6' 0.0000" = Some asc /\
    Binary64.parsePlanetLine "Sun            , 0 ta 18' 0.0000" = Some sun /\
    Binary64.parsePlanetLine "Moon           ,20 ar 12' 0.0000" = Some moon /\
    PrimFloat.ltb
      (Binary64.p_longitude asc + Binary64.p_longitude moon
       - Binary64.p_longitude sun)%float (Binary64.ofZ 0) = true /\
    PrimFloat.ltb (Binary64.ofZ (-1) / Binary64.ofZ (10 ^ 14))%float
      (Binary64.p_longitude asc + Binary64.p_longitude moon
       - Binary64.p_longitude sun)%float = true /\
    Binary64.fortuneLongitude (Binary64.p_longitude asc)
      (Binary64.p_longitude sun) (Binary64.p_longitude moon)
    = Binary64.ofZ 360.
Proof.
  do 3 eexists.
  split; [vm_compute; reflexivity |].
  split; [vm_compute; reflexivity |].
  split; [vm_compute; reflexivity |].
  split; [vm_compute; reflexivity |].
  split; vm_compute; reflexivity.
Qed.

(** C7 fails on the program as it runs.  When the two runs of the ephemeris
    answer with these three lines, the chart is returned with a Part of
    Fortune of longitude 360, which is not below 360, without a sign
    ([signs[12]]) and with degree 0. *)
Theorem fortune_reaches_360 :
  exists c : Binary64.chart,
    Binary64.calculateEphemeris (answering fortunePlanetOutput fortuneHouseOutput)
      "1985-04-12T23:20:50Z" (Binary64.ofZ 48) (Binary64.ofZ 2) = inr c /\
    Binary64.additional_points c !! "Part of Fortune"
    = Some (Binary64.Point (Binary64.ofZ 360) None (Binary64.ofZ 0)) /\
    PrimFloat.ltb (Binary64.ofZ 360) (Binary64.ofZ 360) = false.
Proof.
  eexists. split; [reflexivity |].
  split; vm_compute; reflexivity.
Qed.

(** The same three lines in exact arithmetic: the sum is 0 and the Part of
    Fortune is at 0 degrees of Aries. *)
Example fortune_exact_at_zero :
  exists asc sun moon : parsed string,
    parseChartPointLine "Ascendant      ,10 ar  6' 0.0000" = Some asc /\
    parsePlanetLine "Sun            , 0 ta 18' 0.0000" = Some sun /\
    parsePlanetLine "Moon           ,20 ar 12' 0.0000" = Some moon /\
    derivedFrom 0
      (derivedPoint
         (fortuneLongitude (p_longitude asc) (p_longitude sun) (p_longitude moon))) /\
    sign (derivedPoint
            (fortuneLongitude (p_longitude asc) (p_longitude sun) (p_longitude moon)))
    = Some "Aries".
Proof.
  do 3 eexists.
  split; [vm_compute; reflexivity |].
  split; [vm_compute; reflexivity |].
  split; [vm_compute; reflexivity |].
  split; [| vm_compute; reflexivity].
  repeat split; vm_compute; reflexivity.
Qed.

(** ** Line filtering *)

Lemma parsePosition_None {L : Type} (label : L) (str : string) :
  posMatch str = None -> parsePosition label str = None.
Proof. intros H. unfold parsePosition. rewrite H. reflexivity. Qed.

Lemma grammar_planet (line : string) :
  matchesGrammar line = false -> parsePlanetLine line = None.
Proof.
  unfold matchesGrammar, parsePlanetLine.
  destruct (split "," (trim line)) as [| p0 [| p1 rest]]; try reflexivity.
  destruct (posMatch (trim p1)) eqn:E; [discriminate |].
  intros _. apply parsePosition_None, E.
Qed.

Lemma grammar_house (line : string) :
  matchesGrammar line = false -> parseHouseLine line = None.
Proof.
  unfold matchesGrammar, parseHouseLine.
  destruct (split "," (trim line)) as [| p0 [| p1 rest]]; try reflexivity.
  destruct (posMatch (trim p1)) eqn:E; [discriminate |].
  intros _. destruct (houseMatch (trim p0)); [| reflexivity].
  apply parsePosition_None, E.
Qed.

Lemma grammar_chartPoint (line : string) :
  matchesGrammar line = false -> parseChartPointLine line = None.
Proof.
  unfold matchesGrammar, parseChartPointLine.
  destruct (split "," (trim line)) as [| p0 [| p1 rest]]; try reflexivity.
  destruct (posMatch (trim p1)) eqn:E; [discriminate |].
  intros _. apply parsePosition_None, E.
Qed.

Lemma keepLine_unmarked (line : string) :
  keepLine line = true -> marked line = false.
Proof.
  unfold keepLine, marked.
  destruct (includes "error:" line), (includes "warning:" line);
    rewrite ?andb_false_r; cbn; congruence.
Qed.

Lemma marked_dropped (line : string) : marked line = true -> keepLine line = false.
Proof.
  intros Hm. destruct (keepLine line) eqn:E; [| reflexivity].
  apply keepLine_unmarked in E. congruence.
Qed.

(** A line that is kept but does not contribute leaves the maps as they
    are. *)
Lemma addPlanetLine_skip (m : gmap string point) (line : string) :
  keepLine line = true -> contributes line = false -> addPlanetLine m line = m.
Proof.
  intros Hk Hc. unfold contributes in Hc.
  rewrite (keepLine_unmarked line Hk) in Hc. cbn in Hc.
  unfold addPlanetLine. rewrite (grammar_planet line Hc). reflexivity.
Qed.

Lemma addHouseLine_skip (acc : gmap Z point * gmap string point) (line : string) :
  keepLine line = true -> contributes line = false -> addHouseLine acc line = acc.
Proof.
  intros Hk Hc. unfold contributes in Hc.
  rewrite (keepLine_unmarked line Hk) in Hc. cbn in Hc.
  unfold addHouseLine. destruct acc as [hs cps].
  rewrite (grammar_house line Hc), (grammar_chartPoint line Hc).
  destruct (includes "house " line); [reflexivity |].
  destruct (includes "Ascendant" line || includes "MC" line
            || includes "ARMC" line || includes "Vertex" line); reflexivity.
Qed.

Section Folding.
Context {S : Type} (step : S -> string -> S).
Hypothesis step_skip :
  forall (s : S) (line : string),
  keepLine line = true -> contributes line = false -> step s line = s.

Lemma fold_contributing (lines : list string) (s : S) :
  fold_left step (List.filter keepLine (List.filter contributes lines)) s =
  fold_left step (List.filter keepLine lines) s.
Proof.
  revert s. induction lines as [| l ls IH]; intros s; [reflexivity |].
  cbn [List.filter].
  destruct (contributes l) eqn:Ec; cbn [List.filter];
    destruct (keepLine l) eqn:Ek; cbn [fold_left]; rewrite ?IH; try reflexivity.
  rewrite (step_skip s l Ek Ec). reflexivity.
Qed.
End Folding.

Lemma assembleLines_contributing (pl hl : list string) (dt : string)
    (lat lng : number) :
  assembleLines (List.filter contributes pl) (List.filter contributes hl) dt lat lng
  = assembleLines pl hl dt lat lng.
Proof.
  unfold assembleLines.
  rewrite (fold_contributing addPlanetLine addPlanetLine_skip).
  rewrite (fold_contributing addHouseLine addHouseLine_skip).
  reflexivity.
Qed.

(** C8: whatever the two calculator outputs, the assembly returns a chart,
    and that chart is the one assembled from the lines that carry neither
    [error:] nor [warning:] and match the position grammar: a marked line or
    a line outside the grammar adds no point to the planets, houses or chart
    points, and does not make the assembly fail. *)
Theorem dropped_lines_leave_no_trace (planetOutput houseOutput dt : string)
    (lat lng : number) :
  calculateEphemeris (answering planetOutput houseOutput) dt lat lng =
  inr (assembleLines
         (List.filter contributes (split "010" planetOutput))
         (List.filter contributes (split "010" houseOutput)) dt lat lng)
  /\ (forall line : string,
        includes "error:" line = true \/ includes "warning:" line = true \/
        matchesGrammar line = false ->
        contributes line = false).
Proof.
  split.
  - rewrite assembleLines_contributing. reflexivity.
  - intros line H. unfold contributes, marked.
    destruct H as [H | [H | H]]; rewrite H; cbn;
      rewrite ?orb_true_r, ?andb_false_r; reflexivity.
Qed.

(** ** Parsed positions *)

(** The house scenario of the specification: house 1 in Cancer at
    [90 + 13 + 39/60 + 52.5152/3600], 103.6646 to four decimals. *)
Example parse_house_line :
  exists lon deg : Q,
    parseHouseLine "house  1       ,13 cn 39'52.5152"
      = Some (Parsed 1%Z (Num lon) "Cancer" (Num deg)) /\
    (103.6645 <= lon)%Q /\ (lon < 103.6647)%Q /\ (deg == 13.66)%Q.
Proof.
  eexists. eexists. split; [vm_compute; reflexivity |].
  repeat split; vm_compute; congruence.
Qed.

(** White space after the apostrophe is allowed. *)
Example parse_moon_line :
  exists lon deg : Q,
    parsePlanetLine "Moon           , 2 cp 21' 3.2731"
      = Some (Parsed "Moon" (Num lon) "Capricorn" (Num deg)) /\
    (lon == 270 + 2 + 21 / 60 + 3.2731 / 3600)%Q /\ (deg == 2.35)%Q.
Proof.
  eexists. eexists. split; [vm_compute; reflexivity |].
  split; vm_compute; reflexivity.
Qed.

(** An unknown sign abbreviation, a missing comma and a seconds field with
    a stray character are rejected. *)
Example rejected_lines :
  parsePlanetLine "Sun            ,22 xx 53'51.2332" = None /\
  parsePlanetLine "Sun 22 le 53'51.2332" = None /\
  parsePlanetLine "Sun            ,22 le 53'51.2332x" = None.
Proof. repeat split; vm_compute; reflexivity. Qed.

Section Ranges.
Local Open Scope Q_scope.




End Ranges.




(** ** The loops of the aspect engine as list comprehensions *)

Local Open Scope list_scope.

Section Pushing.
Context {A B : Type} (step : list A -> B -> list A).
Hypothesis step_push : forall (acc : list A) (x : B), step acc x = acc ++ step [] x.

Lemma fold_left_push (l : list B) (acc : list A) :
  fold_left step l acc = acc ++ flat_map (step []) l.
Proof.
  revert acc. induction l as [| x l IH]; intros acc; cbn [fold_left flat_map].
  - rewrite app_nil_r. reflexivity.
  - rewrite IH, step_push, <- app_assoc. reflexivity.
Qed.
End Pushing.

Lemma checkAspect_push (planet1 planet2 : string) (pos1 pos2 : point)
    (acc : list aspect) (entry : string * Z) :
  checkAspect planet1 planet2 pos1 pos2 acc entry =
  acc ++ checkAspect planet1 planet2 pos1 pos2 [] entry.
Proof.
  unfold checkAspect. destruct entry as [name angle].
  destruct (assoc aspectOrbs name); [| rewrite app_nil_r; reflexivity].
  destruct (JS.le _ _); [reflexivity | rewrite app_nil_r; reflexivity].
Qed.

Lemma innerLoop_push (person2Planets : gmap string point) (planet1 : string)
    (pos1 : point) (acc : list aspect) (planet2 : string) :
  innerLoop person2Planets planet1 pos1 acc planet2 =
  acc ++ innerLoop person2Planets planet1 pos1 [] planet2.
Proof.
  unfold innerLoop. destruct (person2Planets !! planet2) as [pos2 |].
  - rewrite !(fold_left_push _ (checkAspect_push planet1 planet2 pos1 pos2)).
    reflexivity.
  - rewrite app_nil_r. reflexivity.
Qed.

Lemma innerLoop_nil (person2Planets : gmap string point) (planet1 : string)
    (pos1 : point) (planet2 : string) :
  innerLoop person2Planets planet1 pos1 [] planet2 =
  match person2Planets !! planet2 with
  | Some pos2 => pairAspects planet1 planet2 pos1 pos2
  | None => []
  end.
Proof.
  unfold innerLoop, pairAspects. destruct (person2Planets !! planet2); [| reflexivity].
  rewrite (fold_left_push _ (checkAspect_push _ _ _ _)). reflexivity.
Qed.

Lemma outerLoop_push (person1Planets person2Planets : gmap string point)
    (acc : list aspect) (planet1 : string) :
  outerLoop person1Planets person2Planets acc planet1 =
  acc ++ outerLoop person1Planets person2Planets [] planet1.
Proof.
  unfold outerLoop. destruct (person1Planets !! planet1) as [pos1 |].
  - rewrite !(fold_left_push _ (innerLoop_push person2Planets planet1 pos1)).
    reflexivity.
  - rewrite app_nil_r. reflexivity.
Qed.

Lemma outerLoop_nil (person1Planets person2Planets : gmap string point)
    (planet1 : string) :
  outerLoop person1Planets person2Planets [] planet1 =
  match person1Planets !! planet1 with
  | Some pos1 => rowAspects person2Planets planet1 pos1
  | None => []
  end.
Proof.
  unfold outerLoop, rowAspects. destruct (person1Planets !! planet1) as [pos1 |];
    [| reflexivity].
  rewrite (fold_left_push _ (innerLoop_push person2Planets planet1 pos1)).
  cbn [app]. apply flat_map_ext. intros planet2. apply innerLoop_nil.
Qed.

(** The pushes of the three nested loops, pair by pair. *)
Lemma collectAspects_flat_map (person1Planets person2Planets : gmap string point) :
  collectAspects person1Planets person2Planets =
  flat_map
    (fun planet1 =>
       match person1Planets !! planet1 with
       | Some pos1 => rowAspects person2Planets planet1 pos1
       | None => []
       end) mainPlanets.
Proof.
  unfold collectAspects.
  rewrite (fold_left_push _ (outerLoop_push person1Planets person2Planets)).
  cbn [app]. apply flat_map_ext. intros planet1. apply outerLoop_nil.
Qed.

(** ** One pair of planets *)

Section OnePair.
Local Open Scope Q_scope.

Lemma toFixed2_comp (x y : Q) : x == y -> toFixed2 (Num x) = toFixed2 (Num y).
Proof.
  intros E. unfold toFixed2.
  rewrite (Qleb_comp 0 0 ltac:(reflexivity) x y E).
  destruct (Qle_bool 0 y); cbn [negb]; f_equal; apply Qfloor_comp; rewrite E; reflexivity.
Qed.

Lemma gt_180 (x : Q) : JS.gt (Num x) n180 = negb (Qle_bool x 180).
Proof. reflexivity. Qed.

(** The distance of the program is the separation of the specification. *)
Lemma angularDistance_separation (l1 l2 : Q) :
  exists d : Q, angularDistance (Num l1) (Num l2) = Num d /\ d == separation l1 l2.
Proof.
  unfold angularDistance, separation. cbn [JS.sub JS.abs JS.lift1 JS.lift2].
  rewrite gt_180. set (x := Qabs (l1 - l2)).
  destruct (Qle_bool x 180) eqn:E; cbn [negb].
  - apply Qle_bool_iff in E. exists x. split; [reflexivity |].
    symmetry. apply Q.min_l. lra.
  - exists (360 - x). split; [reflexivity |].
    assert (H : ~ x <= 180) by (intros H; apply Qle_bool_iff in H; congruence).
    symmetry. apply Q.min_r. apply Qnot_le_lt in H. lra.
Qed.

Lemma angularDistance_NaN_l (x : number) : angularDistance NaN x = NaN.
Proof. reflexivity. Qed.

Lemma angularDistance_NaN_r (x : number) : angularDistance x NaN = NaN.
Proof. destruct x; reflexivity. Qed.

Lemma point_eta (p : point) : Point (longitude p) (sign p) (degree p) = p.
Proof. destruct p; reflexivity. Qed.

Lemma checkAspect_num (planet1 planet2 : string) (pos1 pos2 : point)
    (l1 l2 : Q) (name : string) (angle maxOrb : Z) :
  longitude pos1 = Num l1 -> longitude pos2 = Num l2 ->
  assoc aspectOrbs name = Some maxOrb ->
  checkAspect planet1 planet2 pos1 pos2 [] (name, angle) =
  if Qle_bool (Qabs (separation l1 l2 - inject_Z angle)) (inject_Z maxOrb)
    then [aspectRecord planet1 planet2 pos1 pos2 l1 l2 name (inject_Z angle)]
    else [].
Proof.
  intros H1 H2 Ho. unfold checkAspect. rewrite Ho.
  rewrite !point_eta. rewrite H1, H2.
  destruct (angularDistance_separation l1 l2) as (d & -> & Ed).
  cbn [JS.sub JS.abs JS.lift1 JS.lift2 JS.ofZ JS.le].
  assert (Ea : Qabs (d - inject_Z angle) == Qabs (separation l1 l2 - inject_Z angle))
    by (rewrite Ed; reflexivity).
  rewrite (Qleb_comp _ _ Ea (inject_Z maxOrb) (inject_Z maxOrb) ltac:(reflexivity)).
  destruct (Qle_bool _ _); [| reflexivity].
  cbn [app]. unfold aspectRecord.
  rewrite (toFixed2_comp _ _ Ea), (toFixed2_comp _ _ Ed). reflexivity.
Qed.

Lemma checkAspect_NaN (planet1 planet2 : string) (pos1 pos2 : point)
    (entry : string * Z) :
  angularDistance (longitude pos1) (longitude pos2) = NaN ->
  checkAspect planet1 planet2 pos1 pos2 [] entry = [].
Proof.
  intros H. unfold checkAspect. destruct entry as [name angle]. rewrite H.
  destruct (assoc aspectOrbs name); reflexivity.
Qed.

(** The program and the specification agree on every pair. *)
Lemma pairAspects_spec (planet1 planet2 : string) (pos1 pos2 : point) :
  pairAspects planet1 planet2 pos1 pos2 = specPairAspects planet1 planet2 pos1 pos2.
Proof.
  unfold pairAspects, specPairAspects.
  destruct (longitude pos1) as [l1 |] eqn:E1.
  2:{ unfold aspectAngles. cbn [flat_map].
      rewrite !checkAspect_NaN by (rewrite E1; apply angularDistance_NaN_l).
      reflexivity. }
  destruct (longitude pos2) as [l2 |] eqn:E2.
  2:{ unfold aspectAngles. cbn [flat_map].
      rewrite !checkAspect_NaN by (rewrite E2; apply angularDistance_NaN_r).
      reflexivity. }
  unfold aspectAngles, aspectTable. cbn [flat_map].
  rewrite (checkAspect_num _ _ _ _ l1 l2 "conjunction" 0 8 E1 E2 eq_refl).
  rewrite (checkAspect_num _ _ _ _ l1 l2 "semisextile" 30 3 E1 E2 eq_refl).
  rewrite (checkAspect_num _ _ _ _ l1 l2 "sextile" 60 6 E1 E2 eq_refl).
  rewrite (checkAspect_num _ _ _ _ l1 l2 "square" 90 8 E1 E2 eq_refl).
  rewrite (checkAspect_num _ _ _ _ l1 l2 "trine" 120 8 E1 E2 eq_refl).
  rewrite (checkAspect_num _ _ _ _ l1 l2 "quincunx" 150 3 E1 E2 eq_refl).
  rewrite (checkAspect_num _ _ _ _ l1 l2 "opposition" 180 8 E1 E2 eq_refl).
  reflexivity.
Qed.

End OnePair.

(** ** Membership in the collected aspects *)

Lemma in_specPairAspects (planetA planetB : string) (posA posB : point)
    (a : aspect) :
  In a (specPairAspects planetA planetB posA posB) <->
  exists (lonA lonB : Q) (name : string) (target maxOrb : Q),
    longitude posA = Num lonA /\ longitude posB = Num lonB /\
    In (name, target, maxOrb) aspectTable /\
    (Qabs (separation lonA lonB - target) <= maxOrb)%Q /\
    a = aspectRecord planetA planetB posA posB lonA lonB name target.
Proof.
  unfold specPairAspects. split.
  - destruct (longitude posA) as [lonA |]; [| intros []].
    destruct (longitude posB) as [lonB |]; [| intros []].
    rewrite in_flat_map. intros ([[name target] maxOrb] & Hin & Ha).
    destruct (Qle_bool _ _) eqn:E; [| destruct Ha].
    destruct Ha as [<- | []]. apply Qle_bool_iff in E.
    exists lonA, lonB, name, target, maxOrb. repeat split; assumption.
  - intros (lonA & lonB & name & target & maxOrb & -> & -> & Hin & Hle & ->).
    rewrite in_flat_map. exists (name, target, maxOrb). split; [exact Hin |].
    apply Qle_bool_iff in Hle. rewrite Hle. left. reflexivity.
Qed.

Lemma in_rowAspects (person2Planets : gmap string point) (planet1 : string)
    (pos1 : point) (a : aspect) :
  In a (rowAspects person2Planets planet1 pos1) <->
  exists (planet2 : string) (pos2 : point),
    In planet2 mainPlanets /\ person2Planets !! planet2 = Some pos2 /\
    In a (specPairAspects planet1 planet2 pos1 pos2).
Proof.
  unfold rowAspects. rewrite in_flat_map. split.
  - intros (planet2 & Hin & Ha).
    destruct (person2Planets !! planet2) as [pos2 |] eqn:E; [| destruct Ha].
    rewrite pairAspects_spec in Ha. eauto.
  - intros (planet2 & pos2 & Hin & E & Ha). exists planet2.
    split; [exact Hin |]. rewrite E, pairAspects_spec. exact Ha.
Qed.

Lemma in_collectAspects (person1Planets person2Planets : gmap string point)
    (a : aspect) :
  In a (collectAspects person1Planets person2Planets) <->
  exists (planet1 planet2 : string) (pos1 pos2 : point),
    In planet1 mainPlanets /\ In planet2 mainPlanets /\
    person1Planets !! planet1 = Some pos1 /\
    person2Planets !! planet2 = Some pos2 /\
    In a (specPairAspects planet1 planet2 pos1 pos2).
Proof.
  rewrite collectAspects_flat_map, in_flat_map. split.
  - intros (planet1 & Hin & Ha).
    destruct (person1Planets !! planet1) as [pos1 |] eqn:E; [| destruct Ha].
    apply in_rowAspects in Ha. destruct Ha as (planet2 & pos2 & H2 & E2 & Ha).
    exists planet1, planet2, pos1, pos2. repeat split; assumption.
  - intros (planet1 & planet2 & pos1 & pos2 & H1 & H2 & E1 & E2 & Ha).
    exists planet1. split; [exact H1 |]. rewrite E1.
    apply in_rowAspects. eauto.
Qed.

(** Every record carries a plain orb: the rounding of a magnitude. *)
Lemma aspectRecord_plainOrb (planetA planetB : string) (posA posB : point)
    (lonA lonB : Q) (name : string) (target : Q) :
  plainOrb (aspectRecord planetA planetB posA posB lonA lonB name target).
Proof.
  unfold plainOrb, aspectRecord, toFixed2. cbn [orb].
  set (x := Qabs (separation lonA lonB - target)).
  assert (Hx : (0 <= x)%Q) by apply Qabs_nonneg.
  pose proof Hx as Hb. apply Qle_bool_iff in Hb. rewrite Hb. cbn [negb].
  eexists. split; [reflexivity |].
  change 0%Z with (Qfloor 0). apply Qfloor_resp_le. lra.
Qed.

Lemma collectAspects_plainOrb (person1Planets person2Planets : gmap string point) :
  Forall plainOrb (collectAspects person1Planets person2Planets).
Proof.
  apply List.Forall_forall. intros a Ha. apply in_collectAspects in Ha.
  destruct Ha as (p1 & p2 & pos1 & pos2 & _ & _ & _ & _ & Ha).
  apply in_specPairAspects in Ha.
  destruct Ha as (lonA & lonB & name & target & maxOrb & _ & _ & _ & _ & ->).
  apply aspectRecord_plainOrb.
Qed.

(** ** The sort *)

Section SortFacts.
Context {A : Type} (compare : A -> A -> number).

Lemma insertSorted_Permutation (x : A) (l : list A) :
  Permutation (insertSorted compare x l) (x :: l).
Proof.
  induction l as [| y l IH]; cbn [insertSorted]; [reflexivity |].
  destruct (JS.gt (compare x y) (JS.ofZ 0)); [| reflexivity].
  rewrite IH. apply perm_swap.
Qed.

Lemma sort_Permutation (l : list A) : Permutation (sort compare l) l.
Proof.
  induction l as [| x l IH]; cbn [sort]; [reflexivity |].
  rewrite insertSorted_Permutation, IH. reflexivity.
Qed.

End SortFacts.

Lemma compareOrb_plain (a b : aspect) (ha hb : Z) :
  orb a = Dec false ha -> orb b = Dec false hb ->
  JS.gt (compareOrb a b) (JS.ofZ 0) = (hb <? ha)%Z.
Proof.
  intros Ha Hb. unfold compareOrb. rewrite Ha, Hb.
  cbn [parseFloatDec JS.sub JS.lift2 JS.gt JS.lt JS.ofZ].
  destruct (hb <? ha)%Z eqn:E.
  - apply Z.ltb_lt in E. apply negb_true_iff.
    destruct (Qle_bool _ _) eqn:Q; [| reflexivity].
    apply Qle_bool_iff in Q. rewrite Zlt_Qlt in E.
    rewrite !(Qdiv_by _ 100) in Q. change (inject_Z 0) with 0%Q in Q. lra.
  - apply Z.ltb_ge in E. apply negb_false_iff. apply Qle_bool_iff.
    rewrite Zle_Qle in E. rewrite !(Qdiv_by _ 100).
    change (inject_Z 0) with 0%Q. lra.
Qed.

Lemma orbLe_plain (a b : aspect) (ha hb : Z) :
  orb a = Dec false ha -> orb b = Dec false hb -> (ha <= hb)%Z -> orbLe a b.
Proof.
  intros Ha Hb Hle. unfold orbLe. rewrite Ha, Hb. cbn [parseFloatDec].
  eexists. eexists. split; [reflexivity |]. split; [reflexivity |].
  rewrite Zle_Qle in Hle. rewrite !(Qdiv_by _ 100). lra.
Qed.

Lemma orbLe_trans (a b c : aspect) : orbLe a b -> orbLe b c -> orbLe a c.
Proof.
  intros (x & y & Hx & Hy & Hxy) (y' & z & Hy' & Hz & Hyz).
  rewrite Hy in Hy'. injection Hy' as <-.
  exists x, z. repeat split; try assumption. lra.
Qed.

Lemma insertSorted_sorted (x : aspect) (l : list aspect) :
  plainOrb x -> Forall plainOrb l ->
  StronglySorted orbLe l -> StronglySorted orbLe (insertSorted compareOrb x l).
Proof.
  intros (hx & Hx & _) Hl Hs. induction Hs as [| y l Hs IH Hy]; cbn [insertSorted].
  - constructor; constructor.
  - apply Forall_cons in Hl. destruct Hl as [(hy & Hy' & _) Hl].
    rewrite (compareOrb_plain x y hx hy Hx Hy').
    destruct (hy <? hx)%Z eqn:E.
    + apply Z.ltb_lt in E. constructor; [exact (IH Hl) |].
      apply List.Forall_forall. intros z Hz.
      apply (Permutation_in _ (insertSorted_Permutation compareOrb x l)) in Hz.
      destruct Hz as [<- | Hz].
      * apply (orbLe_plain y x hy hx Hy' Hx). lia.
      * rewrite List.Forall_forall in Hy. exact (Hy z Hz).
    + apply Z.ltb_ge in E.
      assert (Hxy : orbLe x y) by (apply (orbLe_plain x y hx hy Hx Hy'); lia).
      constructor; [constructor; assumption |].
      constructor; [exact Hxy |].
      apply List.Forall_forall. intros z Hz.
      rewrite List.Forall_forall in Hy.
      exact (orbLe_trans x y z Hxy (Hy z Hz)).
Qed.

Lemma sort_sorted (l : list aspect) :
  Forall plainOrb l -> StronglySorted orbLe (sort compareOrb l).
Proof.
  induction l as [| x l IH]; intros Hl; cbn [sort]; [constructor |].
  apply Forall_cons in Hl. destruct Hl as [Hx Hl].
  apply insertSorted_sorted; [exact Hx | | exact (IH Hl)].
  apply List.Forall_forall. intros z Hz.
  apply (Permutation_in _ (sort_Permutation compareOrb l)) in Hz.
  rewrite List.Forall_forall in Hl. exact (Hl z Hz).
Qed.

Lemma decimal2_eqb_eq (x y : decimal2) : decimal2_eqb x y = true <-> x = y.
Proof.
  destruct x as [s h |], y as [s' h' |]; cbn; split; try congruence;
    try discriminate.
  - intros H. apply andb_true_iff in H. destruct H as [Hs Hh].
    apply Bool.eqb_prop in Hs. apply Z.eqb_eq in Hh. congruence.
  - intros [= -> ->]. rewrite Bool.eqb_reflx, Z.eqb_refl. reflexivity.
Qed.

(** An element the insertion passes over has another orb. *)
Lemma compareOrb_same (x y : aspect) :
  orb y = orb x -> JS.gt (compareOrb x y) (JS.ofZ 0) = false.
Proof.
  intros E. unfold compareOrb. rewrite E.
  destruct (parseFloatDec (orb x)) as [q |]; [| reflexivity].
  cbn [JS.sub JS.lift2 JS.gt JS.lt JS.ofZ]. apply negb_false_iff.
  apply Qle_bool_iff. change (inject_Z 0) with 0%Q. lra.
Qed.

Lemma withOrb_insertSorted (o : decimal2) (x : aspect) (l : list aspect) :
  withOrb o (insertSorted compareOrb x l) = withOrb o (x :: l).
Proof.
  induction l as [| y l IH]; cbn [insertSorted]; [reflexivity |].
  destruct (JS.gt (compareOrb x y) (JS.ofZ 0)) eqn:E; [| reflexivity].
  unfold withOrb in *. cbn [List.filter] in *. rewrite IH.
  destruct (decimal2_eqb (orb x) o) eqn:Ex; [| reflexivity].
  destruct (decimal2_eqb (orb y) o) eqn:Ey; [| reflexivity].
  apply decimal2_eqb_eq in Ex, Ey.
  rewrite (compareOrb_same x y) in E by congruence. discriminate.
Qed.

Lemma withOrb_sort (o : decimal2) (l : list aspect) :
  withOrb o (sort compareOrb l) = withOrb o l.
Proof.
  induction l as [| x l IH]; cbn [sort]; [reflexivity |].
  rewrite withOrb_insertSorted. unfold withOrb in *. cbn [List.filter].
  rewrite IH. reflexivity.
Qed.

(** ** The stably sorted arrangement is unique *)

Lemma orbLe_antisym (x y : aspect) :
  plainOrb x -> plainOrb y -> orbLe x y -> orbLe y x -> orb x = orb y.
Proof.
  intros (hx & Hx & _) (hy & Hy & _) (a & b & Ha & Hb & Hab) (b' & a' & Hb' & Ha' & Hba).
  rewrite Hx in *. rewrite Hy in *. cbn [parseFloatDec] in *.
  injection Ha as <-. injection Hb as <-. injection Hb' as <-. injection Ha' as <-.
  rewrite !(Qdiv_by _ 100) in Hab, Hba.
  assert (H1 : (inject_Z hx <= inject_Z hy)%Q) by lra.
  assert (H2 : (inject_Z hy <= inject_Z hx)%Q) by lra.
  rewrite <- Zle_Qle in H1, H2. f_equal. lia.
Qed.

Lemma decimal2_eqb_refl (o : decimal2) : decimal2_eqb o o = true.
Proof. apply decimal2_eqb_eq. reflexivity. Qed.

Lemma withOrb_cons_same (x : aspect) (l : list aspect) :
  withOrb (orb x) (x :: l) = x :: withOrb (orb x) l.
Proof. unfold withOrb. cbn [List.filter]. rewrite decimal2_eqb_refl. reflexivity. Qed.

Lemma withOrb_tail (x : aspect) (l1 l2 : list aspect) :
  (forall o, withOrb o (x :: l1) = withOrb o (x :: l2)) ->
  forall o, withOrb o l1 = withOrb o l2.
Proof.
  intros H o. specialize (H o). unfold withOrb in *. cbn [List.filter] in H.
  destruct (decimal2_eqb (orb x) o); [injection H as H |]; exact H.
Qed.

Lemma stable_sort_unique (r1 r2 : list aspect) :
  Forall plainOrb r1 ->
  StronglySorted orbLe r1 -> StronglySorted orbLe r2 ->
  Permutation r1 r2 ->
  (forall o, withOrb o r1 = withOrb o r2) ->
  r1 = r2.
Proof.
  revert r2. induction r1 as [| x r1 IH]; intros r2 Hplain S1 S2 Hperm Hst.
  - apply Permutation_nil in Hperm. congruence.
  - destruct r2 as [| y r2].
    { symmetry in Hperm. apply Permutation_nil in Hperm. discriminate. }
    apply StronglySorted_inv in S1, S2.
    destruct S1 as [S1 Hx], S2 as [S2 Hy].
    apply Forall_cons in Hplain. destruct Hplain as [Px Pr1].
    assert (Py : plainOrb y).
    { assert (Hin : In y (x :: r1)).
      { apply (Permutation_in _ (Permutation_sym Hperm)). left. reflexivity. }
      destruct Hin as [<- | Hin]; [exact Px |].
      rewrite List.Forall_forall in Pr1. exact (Pr1 y Hin). }
    assert (Eo : orb x = orb y).
    { assert (Hin1 : In x (y :: r2)).
      { apply (Permutation_in _ Hperm). left. reflexivity. }
      assert (Hin2 : In y (x :: r1)).
      { apply (Permutation_in _ (Permutation_sym Hperm)). left. reflexivity. }
      destruct Hin1 as [<- | Hin1]; [reflexivity |].
      destruct Hin2 as [<- | Hin2]; [reflexivity |].
      rewrite List.Forall_forall in Hx, Hy.
      exact (orbLe_antisym x y Px Py (Hx y Hin2) (Hy x Hin1)). }
    assert (Exy : x = y).
    { pose proof (Hst (orb x)) as H. rewrite withOrb_cons_same in H.
      rewrite Eo in H at 2. rewrite Eo, withOrb_cons_same in H.
      injection H as H _. exact H. }
    subst y. f_equal. apply IH; try assumption.
    + apply (Permutation_cons_inv Hperm).
    + apply (withOrb_tail x). exact Hst.
Qed.

(** ** One record for each pair and aspect type *)

Section FlatMapFacts.
Context {X K V : Type} (key : V -> K).

Lemma flat_map_keys_sublist (f : X -> list V) (g : X -> list K) (l : list X) :
  (forall x, List.map key (f x) `sublist_of` g x) ->
  List.map key (flat_map f l) `sublist_of` flat_map g l.
Proof.
  intros H. induction l as [| x l IH]; cbn [flat_map]; [constructor |].
  rewrite List.map_app. apply sublist_app; [apply H | exact IH].
Qed.

Lemma flat_map_length_le (f : X -> list V) (n : nat) (l : list X) :
  (forall x, length (f x) <= n)%nat ->
  (length (flat_map f l) <= length l * n)%nat.
Proof.
  intros H. induction l as [| x l IH]; cbn [flat_map length]; [lia |].
  rewrite length_app. specialize (H x). lia.
Qed.

End FlatMapFacts.

Lemma checkAspect_keys (planet1 planet2 : string) (pos1 pos2 : point)
    (entry : string * Z) :
  List.map aspectKey (checkAspect planet1 planet2 pos1 pos2 [] entry)
    `sublist_of` [(planet1, planet2, fst entry)].
Proof.
  unfold checkAspect. destruct entry as [name angle].
  destruct (assoc aspectOrbs name); [| apply sublist_nil_l].
  destruct (JS.le _ _); [| apply sublist_nil_l].
  cbn. reflexivity.
Qed.

Lemma pairAspects_keys (planet1 planet2 : string) (pos1 pos2 : point) :
  List.map aspectKey (pairAspects planet1 planet2 pos1 pos2)
    `sublist_of` keysOfPair planet1 planet2.
Proof.
  unfold pairAspects, keysOfPair.
  assert (E : List.map (fun entry : string * Z => (planet1, planet2, entry.1))
                aspectAngles
              = flat_map (fun entry : string * Z => [(planet1, planet2, entry.1)])
                  aspectAngles) by reflexivity.
  rewrite E. apply flat_map_keys_sublist. intros entry. apply checkAspect_keys.
Qed.

Lemma collectAspects_keys (person1Planets person2Planets : gmap string point) :
  List.map aspectKey (collectAspects person1Planets person2Planets)
    `sublist_of` allKeys.
Proof.
  rewrite collectAspects_flat_map. unfold allKeys.
  apply flat_map_keys_sublist. intros planet1.
  destruct (person1Planets !! planet1) as [pos1 |]; [| apply sublist_nil_l].
  unfold rowAspects. apply flat_map_keys_sublist. intros planet2.
  destruct (person2Planets !! planet2) as [pos2 |]; [| apply sublist_nil_l].
  apply pairAspects_keys.
Qed.

Lemma allKeys_NoDup : NoDup allKeys.
Proof. apply (bool_decide_unpack _). vm_compute. reflexivity. Qed.

Lemma collectAspects_NoDup (person1Planets person2Planets : gmap string point) :
  NoDup (List.map aspectKey (collectAspects person1Planets person2Planets)).
Proof.
  apply (sublist_NoDup _ allKeys); [apply allKeys_NoDup | apply collectAspects_keys].
Qed.

Lemma calculateSynastryAspects_Permutation
    (person1Planets person2Planets : gmap string point) :
  Permutation (calculateSynastryAspects person1Planets person2Planets)
    (collectAspects person1Planets person2Planets).
Proof. apply sort_Permutation. Qed.

Lemma calculateSynastryAspects_NoDup
    (person1Planets person2Planets : gmap string point) :
  NoDup (List.map aspectKey (calculateSynastryAspects person1Planets person2Planets)).
Proof.
  eapply (NoDup_Permutation_proper _ _); [| apply collectAspects_NoDup].
  apply Permutation_map, calculateSynastryAspects_Permutation.
Qed.

(** The records of the result, in the words of the specification. *)
Lemma in_calculateSynastryAspects
    (person1Planets person2Planets : gmap string point) (a : aspect) :
  In a (calculateSynastryAspects person1Planets person2Planets) <->
  exists (planetA planetB : string) (posA posB : point) (lonA lonB : Q)
         (name : string) (target maxOrb : Q),
    In planetA mainPlanets /\ In planetB mainPlanets /\
    person1Planets !! planetA = Some posA /\
    person2Planets !! planetB = Some posB /\
    longitude posA = Num lonA /\ longitude posB = Num lonB /\
    In (name, target, maxOrb) aspectTable /\
    (Qabs (separation lonA lonB - target) <= maxOrb)%Q /\
    a = aspectRecord planetA planetB posA posB lonA lonB name target.
Proof.
  split.
  - intros Ha.
    apply (Permutation_in _ (calculateSynastryAspects_Permutation _ _)) in Ha.
    apply in_collectAspects in Ha.
    destruct Ha as (p1 & p2 & pos1 & pos2 & H1 & H2 & E1 & E2 & Ha).
    apply in_specPairAspects in Ha.
    destruct Ha as (lonA & lonB & name & target & maxOrb & L1 & L2 & Hin & Hle & ->).
    exists p1, p2, pos1, pos2, lonA, lonB, name, target, maxOrb.
    repeat split; assumption.
  - intros (p1 & p2 & pos1 & pos2 & lonA & lonB & name & target & maxOrb
            & H1 & H2 & E1 & E2 & L1 & L2 & Hin & Hle & ->).
    apply (Permutation_in _
             (Permutation_sym (calculateSynastryAspects_Permutation _ _))).
    apply in_collectAspects. exists p1, p2, pos1, pos2.
    repeat (split; [assumption |]). apply in_specPairAspects.
    exists lonA, lonB, name, target, maxOrb. repeat split; assumption.
Qed.

(** ** Exchanging the two charts *)

Lemma flat_map_nil {X V : Type} (l : list X) :
  flat_map (fun _ : X => @nil V) l = [].
Proof. induction l as [| x l IH]; [reflexivity | exact IH]. Qed.

Section Exchange.
Context {X Y V : Type}.

Lemma flat_map_app_Permutation (g h : Y -> list V) (ys : list Y) :
  Permutation (flat_map (fun y => g y ++ h y) ys) (flat_map g ys ++ flat_map h ys).
Proof.
  induction ys as [| y ys IH]; cbn [flat_map]; [reflexivity |].
  rewrite IH, <- !app_assoc. apply Permutation_app_head.
  rewrite !app_assoc. apply Permutation_app_tail, Permutation_app_comm.
Qed.

Lemma flat_map_exchange (f : X -> Y -> list V) (xs : list X) (ys : list Y) :
  Permutation (flat_map (fun x => flat_map (f x) ys) xs)
    (flat_map (fun y => flat_map (fun x => f x y) xs) ys).
Proof.
  induction xs as [| x xs IH]; cbn [flat_map].
  - rewrite (flat_map_nil ys). reflexivity.
  - rewrite IH. symmetry. apply flat_map_app_Permutation.
Qed.

End Exchange.

Lemma collectAspects_cells (person1Planets person2Planets : gmap string point) :
  collectAspects person1Planets person2Planets =
  flat_map
    (fun planet1 =>
       flat_map (cellAspects person1Planets person2Planets planet1) mainPlanets)
    mainPlanets.
Proof.
  rewrite collectAspects_flat_map. apply flat_map_ext. intros planet1.
  unfold cellAspects, rowAspects.
  destruct (person1Planets !! planet1) as [pos1 |].
  - apply flat_map_ext. intros planet2.
    destruct (person2Planets !! planet2); [apply pairAspects_spec | reflexivity].
  - rewrite flat_map_nil. reflexivity.
Qed.

Lemma separation_sym (lonA lonB : Q) : separation lonB lonA = separation lonA lonB.
Proof. unfold separation. rewrite (Qabs_Qminus lonB lonA). reflexivity. Qed.

Lemma swapRoles_aspectRecord (planetA planetB : string) (posA posB : point)
    (lonA lonB : Q) (name : string) (target : Q) :
  swapRoles (aspectRecord planetB planetA posB posA lonB lonA name target) =
  aspectRecord planetA planetB posA posB lonA lonB name target.
Proof. unfold swapRoles, aspectRecord. cbn. rewrite separation_sym. reflexivity. Qed.

Lemma specPairAspects_swap (planetA planetB : string) (posA posB : point) :
  List.map swapRoles (specPairAspects planetB planetA posB posA) =
  specPairAspects planetA planetB posA posB.
Proof.
  unfold specPairAspects.
  destruct (longitude posA) as [lonA |], (longitude posB) as [lonB |];
    try reflexivity.
  induction aspectTable as [| [[name target] maxOrb] t IH]; cbn [flat_map];
    [reflexivity |].
  rewrite List.map_app, IH, separation_sym.
  destruct (Qle_bool _ _); [| reflexivity].
  cbn [List.map app]. rewrite <- swapRoles_aspectRecord, separation_sym.
  reflexivity.
Qed.

Lemma cellAspects_swap (A B : gmap string point) (planetA planetB : string) :
  List.map swapRoles (cellAspects B A planetB planetA) = cellAspects A B planetA planetB.
Proof.
  unfold cellAspects.
  destruct (A !! planetA) as [posA |], (B !! planetB) as [posB |];
    try reflexivity.
  apply specPairAspects_swap.
Qed.

Lemma map_flat_map {X V W : Type} (g : V -> W) (f : X -> list V) (l : list X) :
  List.map g (flat_map f l) = flat_map (fun x => List.map g (f x)) l.
Proof.
  induction l as [| x l IH]; cbn [flat_map]; [reflexivity |].
  rewrite List.map_app, IH. reflexivity.
Qed.

Lemma cells_swap (A B : gmap string point) (xs ys : list string) :
  Permutation
    (List.map swapRoles
       (flat_map (fun planetB => flat_map (cellAspects B A planetB) xs) ys))
    (flat_map (fun planetA => flat_map (cellAspects A B planetA) ys) xs).
Proof.
  rewrite (flat_map_exchange (cellAspects A B) xs ys).
  assert (E : List.map swapRoles
                (flat_map (fun planetB => flat_map (cellAspects B A planetB) xs) ys)
              = flat_map
                  (fun planetB =>
                     flat_map (fun planetA => cellAspects A B planetA planetB) xs)
                  ys).
  { rewrite map_flat_map. apply flat_map_ext. intros planetB.
    rewrite map_flat_map. apply flat_map_ext. intros planetA.
    apply cellAspects_swap. }
  rewrite E. reflexivity.
Qed.

Lemma collectAspects_swap (A B : gmap string point) :
  Permutation (List.map swapRoles (collectAspects B A)) (collectAspects A B).
Proof. rewrite !collectAspects_cells. apply cells_swap. Qed.

Lemma aspectTriple_swapRoles (a : aspect) : aspectTriple (swapRoles a) = aspectTriple a.
Proof. reflexivity. Qed.

(** ** Orb windows *)

Section Windows.
Local Open Scope Q_scope.

Lemma withinOrb_unique (d : Q) (e1 e2 : string * Q * Q) :
  In e1 aspectTable -> In e2 aspectTable ->
  withinOrb d e1 -> withinOrb d e2 -> e1 = e2.
Proof.
  unfold aspectTable. intros H1 H2.
  repeat (destruct H1 as [<- | H1]); try destruct H1;
    repeat (destruct H2 as [<- | H2]); try destruct H2;
    cbn [withinOrb]; intros W1 W2; try reflexivity; exfalso;
    apply Qabs_Qle_condition in W1; apply Qabs_Qle_condition in W2; lra.
Qed.

Lemma windows_of_table (d : Q) :
  0 <= d -> d <= 180 ->
  Forall2 (fun e w => fst (fst e) = fst (fst w) /\ (withinOrb d e <-> inWindow d w))
    aspectTable orbWindows.
Proof.
  intros H0 H180. unfold aspectTable, orbWindows.
  repeat (constructor;
    [ split; [reflexivity |]; cbn [withinOrb inWindow];
    rewrite Qabs_Qle_condition; split; intros [? ?]; split; lra |]).
  constructor.
Qed.

Lemma windows_disjoint (d : Q) (w1 w2 : string * Q * Q) :
  In w1 orbWindows -> In w2 orbWindows ->
  inWindow d w1 -> inWindow d w2 -> w1 = w2.
Proof.
  unfold orbWindows. intros H1 H2.
  repeat (destruct H1 as [<- | H1]); try destruct H1;
    repeat (destruct H2 as [<- | H2]); try destruct H2;
    cbn [inWindow]; intros W1 W2; try reflexivity; exfalso; lra.
Qed.

End Windows.

(** ** At most one record for a pair *)

Lemma filter_sublist {V : Type} (f : V -> bool) (l : list V) :
  List.filter f l `sublist_of` l.
Proof.
  induction l as [| x l IH]; cbn [List.filter]; [constructor |].
  destruct (f x); [apply sublist_skip | apply sublist_cons]; exact IH.
Qed.

Lemma map_sublist {V W : Type} (g : V -> W) (l1 l2 : list V) :
  l1 `sublist_of` l2 -> List.map g l1 `sublist_of` List.map g l2.
Proof.
  induction 1; cbn [List.map];
    [constructor | apply sublist_skip | apply sublist_cons]; assumption.
Qed.

Lemma NoDup_all_equal {V W : Type} (g : V -> W) (l : list V) :
  NoDup (List.map g l) ->
  (forall x y, In x l -> In y l -> g x = g y) ->
  (length l <= 1)%nat.
Proof.
  destruct l as [| x [| y l]]; cbn [length]; try lia.
  intros Hnd Heq. exfalso.
  assert (E : g x = g y) by (apply Heq; cbn; auto).
  cbn [List.map] in Hnd. rewrite E in Hnd.
  apply NoDup_cons in Hnd. destruct Hnd as [Hn _]. apply Hn. left.
Qed.

Lemma forPair_length (A B : gmap string point) (planetA planetB : string) :
  (length (forPair planetA planetB (calculateSynastryAspects A B)) <= 1)%nat.
Proof.
  apply (NoDup_all_equal aspectKey).
  - apply (sublist_NoDup _ (List.map aspectKey (calculateSynastryAspects A B)));
      [apply calculateSynastryAspects_NoDup |].
    apply map_sublist, filter_sublist.
  - intros x y Hx Hy. unfold forPair in Hx, Hy.
    apply filter_In in Hx, Hy. destruct Hx as [Hx Kx], Hy as [Hy Ky].
    apply andb_true_iff in Kx, Ky. destruct Kx as [Kx1 Kx2], Ky as [Ky1 Ky2].
    apply String.eqb_eq in Kx1, Kx2, Ky1, Ky2.
    apply in_calculateSynastryAspects in Hx, Hy.
    destruct Hx as (pA & pB & posA & posB & lonA & lonB & name & target & maxOrb
                    & _ & _ & EA & EB & LA & LB & Hin & Hle & ->).
    destruct Hy as (pA' & pB' & posA' & posB' & lonA' & lonB' & name' & target'
                    & maxOrb' & _ & _ & EA' & EB' & LA' & LB' & Hin' & Hle' & ->).
    cbn in Kx1, Kx2, Ky1, Ky2. subst pA pB pA' pB'.
    rewrite EA in EA'. injection EA' as <-.
    rewrite EB in EB'. injection EB' as <-.
    rewrite LA in LA'. injection LA' as <-.
    rewrite LB in LB'. injection LB' as <-.
    pose proof (withinOrb_unique (separation lonA lonB) _ _ Hin Hin' Hle Hle') as E.
    injection E as -> _ _. reflexivity.
Qed.

Lemma specPairAspects_length (planetA planetB : string) (posA posB : point) :
  (length (specPairAspects planetA planetB posA posB) <= 1)%nat.
Proof.
  apply (NoDup_all_equal aspect_name).
  - apply (sublist_NoDup _ (List.map (fun e : string * Q * Q => fst (fst e)) aspectTable));
      [apply (bool_decide_unpack _); vm_compute; reflexivity |].
    unfold specPairAspects.
    destruct (longitude posA) as [lonA |]; [| apply sublist_nil_l].
    destruct (longitude posB) as [lonB |]; [| apply sublist_nil_l].
    induction aspectTable as [| [[name target] maxOrb] t IH];
      cbn [flat_map List.map]; [constructor |].
    rewrite List.map_app.
    destruct (Qle_bool _ _); cbn [List.map app fst];
      [apply sublist_skip | apply sublist_cons]; exact IH.
  - intros x y Hx Hy. apply in_specPairAspects in Hx, Hy.
    destruct Hx as (lonA & lonB & name & target & maxOrb & LA & LB & Hin & Hle & ->).
    destruct Hy as (lonA' & lonB' & name' & target' & maxOrb'
                    & LA' & LB' & Hin' & Hle' & ->).
    rewrite LA in LA'. injection LA' as <-.
    rewrite LB in LB'. injection LB' as <-.
    pose proof (withinOrb_unique (separation lonA lonB) _ _ Hin Hin' Hle Hle') as E.
    injection E as -> _ _. reflexivity.
Qed.

Lemma collectAspects_length (A B : gmap string point) :
  (length (collectAspects A B) <= 100)%nat.
Proof.
  rewrite collectAspects_cells.
  change 100%nat with (length mainPlanets * (length mainPlanets * 1))%nat.
  apply flat_map_length_le. intros planetA.
  apply flat_map_length_le. intros planetB.
  unfold cellAspects. destruct (A !! planetA), (B !! planetB); cbn [length]; try lia.
  apply specPairAspects_length.
Qed.

(** ** The aspect engine: main results *)

(** The scenario of the specification: planets at 0 and 95 degrees are in
    square with orb 5.00, and in no other aspect. *)
Example square_at_95 :
  calculateSynastryAspects
    {[ "Sun" := Point (Num 0) (Some "Aries") (Num 0) ]}
    {[ "Sun" := Point (Num 95) (Some "Cancer") (Num 5) ]}
  = [ Aspect "Sun" "Sun" "square" (Dec false 500) (Dec false 9500)
        (Point (Num 0) (Some "Aries") (Num 0))
        (Point (Num 95) (Some "Cancer") (Num 5)) ].
Proof. vm_compute. reflexivity. Qed.

(** Planets at 10 and 100 degrees are in exact square. *)
Example square_at_90 :
  calculateSynastryAspects
    {[ "Sun" := Point (Num 10) (Some "Aries") (Num 10) ]}
    {[ "Moon" := Point (Num 100) (Some "Cancer") (Num 10) ]}
  = [ Aspect "Sun" "Moon" "square" (Dec false 0) (Dec false 9000)
        (Point (Num 10) (Some "Aries") (Num 10))
        (Point (Num 100) (Some "Cancer") (Num 10)) ].
Proof. vm_compute. reflexivity. Qed.

(** Bodies outside the ten main planets take no part. *)
Example nodes_take_no_part :
  calculateSynastryAspects
    {[ "North Node" := Point (Num 10) (Some "Aries") (Num 10) ]}
    {[ "North Node" := Point (Num 10) (Some "Aries") (Num 10) ]}
  = [].
Proof. vm_compute. reflexivity. Qed.

(** [toFixed(2)] of a magnitude reads back as the magnitude rounded to two
    decimals. *)
Lemma toFixed2_round2 (x : Q) :
  (0 <= x)%Q ->
  parseFloatDec (toFixed2 (Num x)) = Num (round2 x) /\
  (Qabs (round2 x - x) <= 1 # 200)%Q.
Proof.
  intros Hx. split; [| apply round2_close].
  unfold toFixed2. apply Qle_bool_iff in Hx. rewrite Hx. reflexivity.
Qed.


(** C3: the list [calculateSynastryAspects] returns is in non-decreasing
    order of orb, and it is the list of the pushed records with the records
    of equal orb left in the order in which the loops pushed them; it is
    the only list with these properties, whatever stable sorting procedure
    computes it. *)
Theorem aspects_sorted_stable (person1Planets person2Planets : gmap string point) :
  let result := calculateSynastryAspects person1Planets person2Planets in
  let pushed := collectAspects person1Planets person2Planets in
  StronglySorted orbLe result /\
  Permutation result pushed /\
  (forall o : decimal2, withOrb o result = withOrb o pushed) /\
  (forall other : list aspect,
      StronglySorted orbLe other -> Permutation other pushed ->
      (forall o : decimal2, withOrb o other = withOrb o pushed) ->
      other = result).
Proof.
  cbv zeta.
  pose proof (sort_sorted _ (collectAspects_plainOrb person1Planets person2Planets))
    as Hsorted.
  pose proof (calculateSynastryAspects_Permutation person1Planets person2Planets)
    as Hperm.
  split; [exact Hsorted |]. split; [exact Hperm |].
  split; [intros o; apply withOrb_sort |].
  intros other Hs Hp Hst. symmetry. apply stable_sort_unique.
  - apply List.Forall_forall. intros a Ha.
    apply (Permutation_in _ Hperm) in Ha.
    pose proof (collectAspects_plainOrb person1Planets person2Planets) as Hpl.
    rewrite List.Forall_forall in Hpl. exact (Hpl a Ha).
  - exact Hsorted.
  - exact Hs.
  - rewrite Hperm, Hp. reflexivity.
  - intros o. rewrite Hst. apply withOrb_sort.
Qed.

(** C4: exchanging the two maps exchanges the roles in every record and
    nothing else: the records of [(B, A)] with person 1 and person 2
    swapped are, as a multiset, the records of [(A, B)]; in particular both
    results have the same multiset of (angle, aspect type, orb) triples. *)
Theorem aspects_symmetric (A B : gmap string point) :
  Permutation (List.map swapRoles (calculateSynastryAspects B A))
    (calculateSynastryAspects A B) /\
  Permutation (List.map aspectTriple (calculateSynastryAspects A B))
    (List.map aspectTriple (calculateSynastryAspects B A)).
Proof.
  assert (H : Permutation (List.map swapRoles (calculateSynastryAspects B A))
                (calculateSynastryAspects A B)).
  { rewrite (calculateSynastryAspects_Permutation A B).
    rewrite <- (collectAspects_swap A B).
    apply Permutation_map, calculateSynastryAspects_Permutation. }
  split; [exact H |].
  rewrite <- H, List.map_map.
  apply Permutation_refl'. apply List.map_ext. intros a.
  apply aspectTriple_swapRoles.
Qed.

Lemma separation_range (lonA lonB : Q) :
  (0 <= lonA)%Q -> (lonA < 360)%Q -> (0 <= lonB)%Q -> (lonB < 360)%Q ->
  (0 <= separation lonA lonB)%Q /\ (separation lonA lonB <= 180)%Q.
Proof.
  intros A0 A1 B0 B1. unfold separation.
  assert (H : (0 <= Qabs (lonA - lonB))%Q /\ (Qabs (lonA - lonB) < 360)%Q).
  { split; [apply Qabs_nonneg |]. apply Qabs_Qlt_condition. split; lra. }
  destruct H as [H0 H1]. set (x := Qabs (lonA - lonB)) in *.
  destruct (Q.min_spec x (360 - x)) as [[Hlt ->] | [Hle ->]]; split; lra.
Qed.

(** C10: over [0, 180] the orb tests of the seven aspect types are the
    windows [0,8], [27,33], [54,66], [82,98], [112,128], [147,153] and
    [172,180]; these are pairwise disjoint, so two longitudes in [0, 360)
    pass the test of one aspect type at most; each ordered pair of planets
    has one record at most, and the list has 100 records at most. *)
Theorem at_most_one_aspect :
  (forall d : Q,
      (0 <= d)%Q -> (d <= 180)%Q ->
      Forall2 (fun e w => fst (fst e) = fst (fst w)
                          /\ (withinOrb d e <-> inWindow d w))
        aspectTable orbWindows) /\
  (forall (d : Q) (w1 w2 : string * Q * Q),
      In w1 orbWindows -> In w2 orbWindows ->
      inWindow d w1 -> inWindow d w2 -> w1 = w2) /\
  (forall (lonA lonB : Q) (e1 e2 : string * Q * Q),
      (0 <= lonA)%Q -> (lonA < 360)%Q -> (0 <= lonB)%Q -> (lonB < 360)%Q ->
      In e1 aspectTable -> In e2 aspectTable ->
      withinOrb (separation lonA lonB) e1 ->
      withinOrb (separation lonA lonB) e2 ->
      (0 <= separation lonA lonB)%Q /\ (separation lonA lonB <= 180)%Q /\
      e1 = e2) /\
  (forall (A B : gmap string point) (planetA planetB : string),
      (length (forPair planetA planetB (calculateSynastryAspects A B)) <= 1)%nat) /\
  (forall A B : gmap string point,
      (length (calculateSynastryAspects A B) <= 100)%nat).
Proof.
  split; [exact windows_of_table |].
  split; [exact windows_disjoint |].
  split; [| split].
  - intros lonA lonB e1 e2 A0 A1 B0 B1 H1 H2 W1 W2.
    destruct (separation_range lonA lonB A0 A1 B0 B1) as [S0 S1].
    split; [exact S0 |]. split; [exact S1 |].
    exact (withinOrb_unique _ _ _ H1 H2 W1 W2).
  - exact forPair_length.
  - intros A B.
    rewrite (Permutation_length (calculateSynastryAspects_Permutation A B)).
    apply collectAspects_length.
Qed.

(** ** The date and the time given to the calculator *)

Lemma pretty_N_char_digit (x : N) :
  (x < 10)%N ->
  digitValue (pretty_N_char x) = Z.of_N x /\ isDigit (pretty_N_char x) = true.
Proof.
  intros H.
  assert (E : (x = 0 \/ x = 1 \/ x = 2 \/ x = 3 \/ x = 4 \/ x = 5 \/ x = 6
               \/ x = 7 \/ x = 8 \/ x = 9)%N) by lia.
  repeat (destruct E as [-> | E]; [split; reflexivity |]).
  subst x. split; reflexivity.
Qed.

(** Reading the decimal notation of a number gives the number back. *)
Lemma parseDigits_pretty_N_go (x : N) :
  exists k : Z,
    (0 <= k)%Z /\
    forall (a : Z) (s : string),
      parseDigits a (pretty_N_go x s) = parseDigits (a * 10 ^ k + Z.of_N x) s.
Proof.
  induction (N.lt_wf_0 x) as [x _ IH].
  destruct (N.eq_dec x 0%N) as [-> | Hx].
  - exists 0%Z. split; [lia |]. intros a s. rewrite pretty_N_go_0.
    f_equal. lia.
  - assert (Hpos : (0 < x)%N) by lia.
    destruct (IH (x `div` 10)%N) as (k & Hk & Hgo).
    { apply N.div_lt; lia. }
    exists (k + 1)%Z. split; [lia |]. intros a s.
    rewrite pretty_N_go_step by exact Hpos. rewrite Hgo. cbn [parseDigits].
    destruct (pretty_N_char_digit (x `mod` 10)%N) as [-> _].
    { apply N.mod_lt. lia. }
    f_equal. rewrite Z.pow_add_r by lia.
    pose proof (N.div_mod x 10 ltac:(lia)) as Hdm.
    assert (Hz : Z.of_N x
                 = (10 * Z.of_N (x `div` 10) + Z.of_N (x `mod` 10))%Z) by lia.
    set (q := Z.of_N (x `div` 10)) in *. set (r := Z.of_N (x `mod` 10)) in *.
    rewrite Hz. ring.
Qed.

Lemma parseInt_pretty (n : Z) : (0 <= n)%Z -> parseInt (pretty n) = n.
Proof.
  intros Hn. destruct n as [| p | p]; [reflexivity | | lia].
  unfold pretty, pretty_Z, pretty, pretty_positive, pretty, pretty_N.
  destruct (decide (N.pos p = 0%N)) as [E | _]; [discriminate |].
  destruct (parseDigits_pretty_N_go (N.pos p)) as (k & _ & Hgo).
  unfold parseInt. rewrite Hgo. cbn [parseDigits]. lia.
Qed.

Lemma allIn_pretty_N_go (x : N) (s : string) :
  allIn isDigit s = true -> allIn isDigit (pretty_N_go x s) = true.
Proof.
  revert s. induction (N.lt_wf_0 x) as [x _ IH]. intros s Hs.
  destruct (N.eq_dec x 0%N) as [-> | Hx]; [rewrite pretty_N_go_0; exact Hs |].
  rewrite pretty_N_go_step by lia. apply IH.
  - apply N.div_lt; lia.
  - cbn [allIn]. rewrite Hs.
    destruct (pretty_N_char_digit (x `mod` 10)%N) as [_ ->]; [| reflexivity].
    apply N.mod_lt. lia.
Qed.

Lemma allIn_pretty (n : Z) : (0 <= n)%Z -> allIn isDigit (pretty n) = true.
Proof.
  intros Hn. destruct n as [| p | p]; [reflexivity | | lia].
  unfold pretty, pretty_Z, pretty, pretty_positive, pretty, pretty_N.
  destruct (decide (N.pos p = 0%N)) as [E | _]; [discriminate |].
  apply allIn_pretty_N_go. reflexivity.
Qed.

(** Padded to two places, a number below 100 is two digits that read as
    the number. *)
Lemma padStart_two_digits (n : Z) :
  (0 <= n < 100)%Z ->
  exists a b : ascii,
    Server.padStart 2 "0" (pretty n) = String a (String b "") /\
    isDigit a = true /\ isDigit b = true /\
    parseInt (String a (String b "")) = n.
Proof.
  intros Hn.
  assert (E : n = Z.of_nat (Z.to_nat n)) by lia.
  assert (Hk : (Z.to_nat n < 100)%nat) by lia.
  revert E Hk. generalize (Z.to_nat n). intros k -> Hk.
  do 100 (destruct k as [| k];
          [do 2 eexists; repeat split; vm_compute; reflexivity |]).
  lia.
Qed.

Lemma digit_not_separator (c : ascii) :
  isDigit c = true -> Ascii.eqb c ":" = false /\ Ascii.eqb c "." = false.
Proof.
  destruct c as [[] [] [] [] [] [] [] []]; vm_compute; intros H;
    try discriminate H; split; reflexivity.
Qed.

Lemma split_digits (sep : ascii) (s : string) :
  (sep = ":" \/ sep = ".")%char -> allIn isDigit s = true -> split sep s = [s].
Proof.
  intros Hsep. induction s as [| c s IH]; [reflexivity |].
  cbn [allIn]. intros H. apply andb_true_iff in H. destruct H as [Hc Hs].
  cbn [split]. rewrite (IH Hs).
  destruct (digit_not_separator c Hc) as [H1 H2].
  destruct Hsep as [-> | ->]; [rewrite H1 | rewrite H2]; reflexivity.
Qed.

(** X1.  The time argument of the calculator.  For a date whose UTC hours,
    minutes and seconds are in their ranges, [formatTimeToSwiss] gives
    eight characters, and the three fields between the colons read back as
    the hours, the minutes and the seconds. *)
Theorem formatTimeToSwiss_roundTrip (d : Server.date) :
  (0 <= Server.getUTCHours d < 24)%Z ->
  (0 <= Server.getUTCMinutes d < 60)%Z ->
  (0 <= Server.getUTCSeconds d < 60)%Z ->
  String.length (Server.formatTimeToSwiss d) = 8%nat /\
  List.map parseInt (split ":" (Server.formatTimeToSwiss d))
  = [Server.getUTCHours d; Server.getUTCMinutes d; Server.getUTCSeconds d].
Proof.
  intros Hh Hm Hs. unfold Server.formatTimeToSwiss.
  destruct (padStart_two_digits (Server.getUTCHours d) ltac:(lia))
    as (a1 & b1 & -> & Ha1 & Hb1 & E1).
  destruct (padStart_two_digits (Server.getUTCMinutes d) ltac:(lia))
    as (a2 & b2 & -> & Ha2 & Hb2 & E2).
  destruct (padStart_two_digits (Server.getUTCSeconds d) ltac:(lia))
    as (a3 & b3 & -> & Ha3 & Hb3 & E3).
  split; [reflexivity |].
  rewrite !append_cons, !append_nil_l. cbn [split].
  rewrite (proj1 (digit_not_separator a1 Ha1)), (proj1 (digit_not_separator b1 Hb1)),
    (proj1 (digit_not_separator a2 Ha2)), (proj1 (digit_not_separator b2 Hb2)),
    (proj1 (digit_not_separator a3 Ha3)), (proj1 (digit_not_separator b3 Hb3)).
  cbn [Ascii.eqb Bool.eqb List.map]. rewrite E1, E2, E3. reflexivity.
Qed.

Lemma formatTimeToSwiss_roundTrip_witness :
  String.length (Server.formatTimeToSwiss sampleDate) = 8%nat /\
  List.map parseInt (split ":" (Server.formatTimeToSwiss sampleDate))
  = [23; 20; 50]%Z.
Proof.
  apply (formatTimeToSwiss_roundTrip sampleDate); vm_compute; split; congruence.
Defined.

Lemma pretty_four_digits (n : Z) :
  (1000 <= n <= 9999)%Z -> String.length (pretty n) = 4%nat.
Proof.
  intros Hn. destruct n as [| p | p]; [lia | | lia].
  unfold pretty, pretty_Z, pretty, pretty_positive, pretty, pretty_N.
  destruct (decide (N.pos p = 0%N)) as [E | _]; [discriminate |].
  set (x := N.pos p). assert (Hx : (1000 <= x <= 9999)%N) by lia.
  clearbody x.
  rewrite pretty_N_go_step by lia.
  rewrite pretty_N_go_step
    by (apply N.div_str_pos; lia).
  assert (H2 : (10 <= (x / 10) / 10)%N).
  { rewrite N.Div0.div_div. apply N.div_le_lower_bound; lia. }
  rewrite pretty_N_go_step by lia.
  assert (H3 : (0 < ((x / 10) / 10) / 10 < 10)%N).
  { rewrite !N.Div0.div_div. split.
    - apply N.div_str_pos. lia.
    - apply N.Div0.div_lt_upper_bound. lia. }
  rewrite pretty_N_go_step by lia.
  rewrite (N.div_small (((x / 10) / 10) / 10) 10) by lia.
  rewrite pretty_N_go_0. reflexivity.
Qed.

(** X2.  The date argument of the calculator.  For a date whose UTC day
    and month are in their ranges and whose year is not negative, the three
    fields of [formatDateToSwiss] between the dots read back as the day,
    the month counted from 1 and the year.  Day and month take two places;
    the year is written as it is, without padding, so that the text has the
    ten characters of DD.MM.YYYY for the years 1000 to 9999. *)
Theorem formatDateToSwiss_roundTrip (d : Server.date) :
  (1 <= Server.getUTCDate d <= 31)%Z ->
  (0 <= Server.getUTCMonth d <= 11)%Z ->
  (0 <= Server.getUTCFullYear d)%Z ->
  List.map parseInt (split "." (Server.formatDateToSwiss d))
  = [Server.getUTCDate d; (Server.getUTCMonth d + 1)%Z; Server.getUTCFullYear d]
  /\ String.length (Server.formatDateToSwiss d)
     = (6 + String.length (pretty (Server.getUTCFullYear d)))%nat
  /\ ((1000 <= Server.getUTCFullYear d <= 9999)%Z ->
      String.length (Server.formatDateToSwiss d) = 10%nat).
Proof.
  intros Hd Hm Hy. unfold Server.formatDateToSwiss.
  destruct (padStart_two_digits (Server.getUTCDate d) ltac:(lia))
    as (a1 & b1 & -> & Ha1 & Hb1 & E1).
  destruct (padStart_two_digits (Server.getUTCMonth d + 1)%Z ltac:(lia))
    as (a2 & b2 & -> & Ha2 & Hb2 & E2).
  rewrite !append_cons, !append_nil_l. cbn [String.length].
  split; [| split; [reflexivity |]].
  - cbn [split].
    rewrite (split_digits "." _ (or_intror eq_refl)
               (allIn_pretty _ Hy)).
    rewrite (proj2 (digit_not_separator a1 Ha1)), (proj2 (digit_not_separator b1 Hb1)),
      (proj2 (digit_not_separator a2 Ha2)), (proj2 (digit_not_separator b2 Hb2)).
    cbn [Ascii.eqb Bool.eqb List.map]. rewrite E1, E2, (parseInt_pretty _ Hy).
    reflexivity.
  - intros Hr. rewrite (pretty_four_digits _ Hr). reflexivity.
Qed.

Lemma formatDateToSwiss_roundTrip_witness :
  List.map parseInt (split "." (Server.formatDateToSwiss sampleDate))
  = [12; 4; 1985]%Z
  /\ String.length (Server.formatDateToSwiss sampleDate) = 10%nat.
Proof.
  destruct (formatDateToSwiss_roundTrip sampleDate) as (H1 & _ & H3);
    [vm_compute; split; congruence ..| vm_compute; congruence |].
  split; [exact H1 | apply H3; vm_compute; split; congruence].
Defined.

(** ** One call of the calculator *)

(** The run of [calculateEphemeris], step by step: the date, the planet
    command, the texts of the coordinates, the house command. *)
Lemma calculateEphemeris_run (h : Server.host) (dt : string)
    (lat lng : Server.value) (st : Server.state) :
  Server.calculateEphemeris h dt lat lng st =
  match Server.parseDate h dt with
  | None => (inl (Server.Error (Server.failureMessage InvalidDatetime)), st)
  | Some d =>
      let pc :=
        Server.planetCmd h (Server.formatDateToSwiss d)
          (Server.formatTimeToSwiss d) in
      let st1 :=
        Server.State (Server.executed st ++ [pc]) (Server.readings st) in
      match Server.execSync h (length (Server.executed st)) pc with
      | inl m =>
          (inl (Server.Error (Server.failureMessage (PlanetsFailed m))), st1)
      | inr po =>
          match Server.toText h lng, Server.toText h lat with
          | Some lngText, Some latText =>
              let hc :=
                Server.houseCmd h (Server.formatDateToSwiss d)
                  (Server.formatTimeToSwiss d) lngText latText in
              let st2 :=
                Server.State (Server.executed st ++ [pc; hc])
                  (Server.readings st) in
              match Server.execSync h (S (length (Server.executed st))) hc with
              | inl m =>
                  (inl (Server.Error (Server.failureMessage (HousesFailed m))),
                   st2)
              | inr ho => (inr (Server.assemble po ho dt lat lng), st2)
              end
          | _, _ =>
              (inl (Server.Error
                      ("Swiss Ephemeris calculation failed: "
                       +:+ Server.faultMessage h Server.NoPrimitiveValue)),
               st1)
          end
      end
  end.
Proof.
  unfold Server.calculateEphemeris, Server.tryCatch, Server.bind,
    Server.require, Server.exec, Server.throw, Server.ret.
  destruct (Server.parseDate h dt) as [d |]; [| reflexivity].
  cbn [Server.executed Server.readings].
  destruct (Server.execSync h (length (Server.executed st)) _) as [m | po];
    [reflexivity |].
  destruct (Server.toText h lng) as [lngText |]; [| reflexivity].
  destruct (Server.toText h lat) as [latText |]; [| reflexivity].
  cbn [Server.executed Server.readings].
  rewrite length_app, Nat.add_comm. cbn [length Nat.add].
  rewrite <- app_assoc. cbn [app].
  destruct (Server.execSync h _ _) as [m | ho]; reflexivity.
Qed.

Lemma startsWith_prefix (a b : string) : startsWith a (a +:+ b) = true.
Proof. apply startsWith_app. exists b. reflexivity. Qed.

Lemma append_assoc (a b c : string) : (a +:+ b) +:+ c = a +:+ (b +:+ c).
Proof.
  induction a as [| x a IH]; [reflexivity |].
  rewrite !append_cons, IH. reflexivity.
Qed.

Lemma planetCmd_start (h : Server.host) (swissDate swissTime : string) :
  startsWith (Server.commandStart h) (Server.planetCmd h swissDate swissTime)
  = true.
Proof.
  unfold Server.commandStart, Server.planetCmd. apply startsWith_app.
  exists (swissDate +:+ " -ut" +:+ swissTime
          +:+ " -p0123456789tADFGHI -fPZ -g, -head").
  rewrite !append_assoc. reflexivity.
Qed.

Lemma houseCmd_start (h : Server.host) (swissDate swissTime a b : string) :
  startsWith (Server.commandStart h) (Server.houseCmd h swissDate swissTime a b)
  = true.
Proof.
  unfold Server.commandStart, Server.houseCmd. apply startsWith_app.
  exists (swissDate +:+ " -ut" +:+ swissTime +:+ " -house" +:+ a +:+ ","
          +:+ b +:+ ",P -fPZ -g, -head").
  rewrite !append_assoc. reflexivity.
Qed.

(** The commands of one call of [calculateEphemeris]. *)
Lemma calculateEphemeris_effects (h : Server.host) (dt : string)
    (lat lng : Server.value) (st st' : Server.state)
    (r : Server.exception + Server.chart) :
  Server.calculateEphemeris h dt lat lng st = (r, st') ->
  exists cmds : list string,
    Server.executed st' = Server.executed st ++ cmds /\
    Server.readings st' = Server.readings st /\
    (length cmds <= 2)%nat /\
    Forall (fun c => startsWith (Server.commandStart h) c = true) cmds /\
    (Server.parseDate h dt = None -> cmds = []) /\
    (forall c : Server.chart, r = inr c -> length cmds = 2%nat) /\
    (forall e : Server.exception, r = inl e -> exists m, e = Server.Error m).
Proof.
  rewrite calculateEphemeris_run.
  destruct (Server.parseDate h dt) as [d |].
  2:{ intros [= <- <-]. exists []. rewrite app_nil_r.
      repeat split; auto; try discriminate. intros e [= <-]. eauto. }
  cbv zeta.
  destruct (Server.execSync h (length (Server.executed st)) _) as [m | po].
  { intros [= <- <-]. eexists [_]. cbn [Server.executed Server.readings length].
    repeat split; auto; try discriminate.
    - constructor; [apply planetCmd_start | constructor].
    - intros e [= <-]. eauto. }
  destruct (Server.toText h lng) as [lngText |].
  2:{ intros [= <- <-]. eexists [_]. cbn [Server.executed Server.readings length].
      repeat split; auto; try discriminate.
      - constructor; [apply planetCmd_start | constructor].
      - intros e [= <-]. eauto. }
  destruct (Server.toText h lat) as [latText |].
  2:{ intros [= <- <-]. eexists [_]. cbn [Server.executed Server.readings length].
      repeat split; auto; try discriminate.
      - constructor; [apply planetCmd_start | constructor].
      - intros e [= <-]. eauto. }
  destruct (Server.execSync h (S _) _) as [m | ho]; intros [= <- <-];
    eexists [_; _]; cbn [Server.executed Server.readings length];
    repeat split; auto; try discriminate;
    try (constructor; [apply planetCmd_start |
                       constructor; [apply houseCmd_start | constructor]]).
  intros e [= <-]. eauto.
Qed.

(** X3.  The commands of [calculateEphemeris].  Whatever the host answers,
    a call runs at most two commands, each a [swetest] call under the
    configured ephemeris path, and reads no clock.  Nothing is run for a
    datetime that is not a date; a chart is returned only after both
    commands have run; and the only error thrown is a plain [Error], never
    an [McpError]. *)
Theorem calculateEphemeris_commands (h : Server.host) (dt : string)
    (lat lng : Server.value) (st : Server.state) :
  let '(r, st') := Server.calculateEphemeris h dt lat lng st in
  exists cmds : list string,
    Server.executed st' = Server.executed st ++ cmds /\
    Server.readings st' = Server.readings st /\
    (length cmds <= 2)%nat /\
    Forall (fun c => startsWith (Server.commandStart h) c = true) cmds /\
    (Server.parseDate h dt = None -> cmds = []) /\
    (forall c : Server.chart, r = inr c -> length cmds = 2%nat) /\
    (forall e : Server.exception, r = inl e -> exists m, e = Server.Error m).
Proof.
  destruct (Server.calculateEphemeris h dt lat lng st) as [r st'] eqn:E.
  exact (calculateEphemeris_effects h dt lat lng st st' r E).
Qed.

(** The maps of the chart the server assembles are those of
    [assembleLines]. *)
Lemma assemble_assembleLines (po ho dt : string) (lat lng : number) :
  let c := assembleLines (split "010" po) (split "010" ho) dt lat lng in
  Server.assemble po ho dt (Server.VNumber lat) (Server.VNumber lng)
  = Server.Chart (planets c) (houses c) (chart_points c) (additional_points c)
      dt (Server.VNumber lat, Server.VNumber lng).
Proof.
  unfold Server.assemble, assembleLines.
  destruct (fold_left addHouseLine _ _) as [hs cps].
  reflexivity.
Qed.

(** X4.  The chart of the server is the chart of the assembly.  For
    coordinates that are numbers, [calculateEphemeris] returns the chart
    that the chart assembly gives in the environment made of the validity
    of the date and of the host's answers to the two commands, and throws
    the message of the assembly's failure otherwise. *)
Theorem calculateEphemeris_refines (h : Server.host) (dt : string)
    (lat lng : number) (st : Server.state) :
  fst (Server.calculateEphemeris h dt (Server.VNumber lat) (Server.VNumber lng) st)
  = match calculateEphemeris
            (Server.environmentOf h (length (Server.executed st)) dt lat lng)
            dt lat lng with
    | inl f => inl (Server.Error (Server.failureMessage f))
    | inr c =>
        inr (Server.Chart (planets c) (houses c) (chart_points c)
               (additional_points c) dt
               (Server.VNumber lat, Server.VNumber lng))
    end.
Proof.
  rewrite calculateEphemeris_run.
  unfold Server.environmentOf, calculateEphemeris.
  destruct (Server.parseDate h dt) as [d |]; [| reflexivity].
  cbn [dateValid negb planetRun houseRun Server.toText]. cbv zeta.
  destruct (Server.execSync h (length (Server.executed st)) _) as [m | po];
    [reflexivity |].
  destruct (Server.execSync h (S _) _) as [m | ho]; [reflexivity |].
  cbn [fst]. rewrite assemble_assembleLines. reflexivity.
Qed.

(** ** The checks of the tools *)

Lemma bind_inl {A B : Type} (m : Server.M A) (k : A -> Server.M B)
    (st st' : Server.state) (e : Server.exception) :
  Server.bind m k st = (inl e, st') ->
  m st = (inl e, st') \/
  exists (a : A) (st1 : Server.state), m st = (inr a, st1) /\ k a st1 = (inl e, st').
Proof.
  unfold Server.bind. destruct (m st) as [[e1 | a] st1].
  - intros [= <- <-]. left. reflexivity.
  - intros H. right. exists a, st1. split; [reflexivity | exact H].
Qed.

Lemma plain_ret {A : Type} (a : A) : Server.plain (Server.ret a).
Proof. intros st st' e [=]. Qed.

Lemma plain_throw {A : Type} (message : string) :
  Server.plain (Server.throw (A := A) (Server.Error message)).
Proof. intros st st' e [= <- _]. eauto. Qed.

Lemma plain_bind {A B : Type} (m : Server.M A) (k : A -> Server.M B) :
  Server.plain m -> (forall a : A, Server.plain (k a)) ->
  Server.plain (Server.bind m k).
Proof.
  intros Hm Hk st st' e H. apply bind_inl in H.
  destruct H as [H | (a & st1 & _ & H)]; [exact (Hm _ _ _ H) | exact (Hk _ _ _ _ H)].
Qed.

Lemma plain_calculateEphemeris (h : Server.host) (dt : string)
    (lat lng : Server.value) :
  Server.plain (Server.calculateEphemeris h dt lat lng).
Proof.
  intros st st' e H.
  destruct (calculateEphemeris_effects h dt lat lng st st' _ H)
    as (cmds & _ & _ & _ & _ & _ & _ & He).
  exact (He e eq_refl).
Qed.

Lemma plain_now (h : Server.host) : Server.plain (Server.now h).
Proof. intros st st' e [=]. Qed.

Lemma plain_sunLongitude (h : Server.host) (c : Server.chart) :
  Server.plain (Server.sunLongitude h c).
Proof.
  unfold Server.sunLongitude.
  destruct (Server.planets c !! "Sun"); [apply plain_ret | apply plain_throw].
Qed.

Lemma plain_isoString (h : Server.host) (d : option Server.date) :
  Server.plain (Server.isoString h d).
Proof. destruct d; [apply plain_ret | apply plain_throw]. Qed.

(** A sequence of steps that throw plain errors throws plain errors. *)
Ltac plain_steps :=
  repeat first
    [ apply plain_ret | apply plain_throw | apply plain_calculateEphemeris
    | apply plain_now | apply plain_sunLongitude | apply plain_isoString
    | apply plain_bind; [| intro]
    | progress cbv zeta ].

(** A check and the demand it stands for. *)
Lemma stringArgument_passes (v : Server.value) :
  match Server.stringArgument v with
  | Some s => v = Server.VString s /\ Server.passes Server.NonEmptyText v = true
  | None => Server.passes Server.NonEmptyText v = false
  end.
Proof.
  destruct v as [| | b | n | s | l | f]; try reflexivity.
  destruct s as [| c s]; cbn; [reflexivity | split; reflexivity].
Qed.

Lemma numberArgument_passes (lo hi : Z) (v : Server.value) :
  match Server.numberArgument lo hi v with
  | Some n => v = Server.VNumber n /\ Server.passes (Server.NumberIn lo hi) v = true
  | None => Server.passes (Server.NumberIn lo hi) v = false
  end.
Proof.
  destruct v as [| | b | n | s | l | f]; try reflexivity.
  destruct n as [q |]; [| split; reflexivity].
  cbn [Server.numberArgument Server.passes JS.lt JS.gt JS.ofZ].
  destruct (Qle_bool (inject_Z lo) q), (Qle_bool q (inject_Z hi)); cbn;
    try reflexivity; split; reflexivity.
Qed.

Lemma firstUnmet_cons (args : Server.value) (key : string) (d : Server.demand)
    (message : string) (rest : list (string * Server.demand * string)) :
  Server.firstUnmet args ((key, d, message) :: rest)
  = if Server.passes d (Server.argument args key) then Server.firstUnmet args rest
    else Some message.
Proof.
  unfold Server.firstUnmet. cbn [List.find].
  destruct (Server.passes d (Server.argument args key)); reflexivity.
Qed.

Lemma destructure_object (h : Server.host) (args : Server.value) (key : string) :
  args <> Server.VUndefined -> args <> Server.VNull ->
  Server.destructure h args key = Server.ret (Server.argument args).
Proof. intros H1 H2. destruct args; try congruence; reflexivity. Qed.

Lemma In_toolNames (name : string) :
  In name Server.toolNames ->
  name = "calculate_planetary_positions" \/ name = "calculate_transits" \/
  name = "calculate_solar_revolution" \/ name = "calculate_synastry".
Proof. cbn. intuition congruence. Qed.

Lemma bind_ret_l {A B : Type} (a : A) (k : A -> Server.M B) :
  Server.bind (Server.ret a) k = k a.
Proof. reflexivity. Qed.

Lemma bind_throw_l {A B : Type} (e : Server.exception) (k : A -> Server.M B) :
  Server.bind (Server.throw e) k = Server.throw e.
Proof. reflexivity. Qed.

(** One check at the head of a computation: it is met and the computation
    goes on with the argument, or it is not and its error is thrown. *)
Ltac check_argument :=
  match goal with
  | |- context [Server.require (Server.stringArgument ?v) ?e] =>
      let H := fresh "Hcheck" in
      let E := fresh "Hvalue" in
      pose proof (stringArgument_passes v) as H;
      destruct (Server.stringArgument v) as [? |];
      [destruct H as [E H] |]; rewrite H;
      cbn [Server.require]; rewrite ?bind_ret_l, ?bind_throw_l;
      [| reflexivity]
  | |- context [Server.require (Server.numberArgument ?lo ?hi ?v) ?e] =>
      let H := fresh "Hcheck" in
      let E := fresh "Hvalue" in
      pose proof (numberArgument_passes lo hi v) as H;
      destruct (Server.numberArgument lo hi v) as [? |];
      [destruct H as [E H] |]; rewrite H;
      cbn [Server.require]; rewrite ?bind_ret_l, ?bind_throw_l;
      [| reflexivity]
  end.

(** The checks of a tool: the first demand that is not met decides the
    error, and nothing has happened before it is thrown. *)
Lemma handleToolCall_checks (h : Server.host) (name : string)
    (args : Server.value) (st : Server.state) :
  In name Server.toolNames ->
  args <> Server.VUndefined -> args <> Server.VNull ->
  match Server.firstUnmet args (Server.demands name) with
  | Some message =>
      Server.handleToolCall h name args st
      = (inl (Server.McpError Server.InvalidParams message), st)
  | None =>
      forall (e : Server.exception) (st' : Server.state),
        Server.handleToolCall h name args st = (inl e, st') ->
        exists m : string, e = Server.Error m
  end.
Proof.
  intros Hname H1 H2. apply In_toolNames in Hname.
  destruct Hname as [-> | [-> | [-> | ->]]];
    unfold Server.handleToolCall, Server.demands;
    cbn [String.eqb Ascii.eqb Bool.eqb];
    rewrite (destructure_object h args _ H1 H2), bind_ret_l;
    rewrite !firstUnmet_cons; unfold Server.invalidParams;
    repeat check_argument;
    change (Server.firstUnmet args []) with (@None string);
    intros e st' Hrun;
    match type of Hrun with
    | ?m st = _ => assert (Hp : Server.plain m) by plain_steps
    end; exact (Hp _ _ _ Hrun).
Qed.

(** X5.  The checks of a tool.  For a tool of the list and arguments other
    than [null] and [undefined]: when a checked argument does not meet its
    demand, the call throws [InvalidParams] with the message of the first
    such argument, in the order of the checks, and leaves the state as it
    was (no command is run, no clock read); when all demands are met, the
    call throws no [McpError] at all.  A text must be a non-empty string; a
    number is refused when it is below or above its bounds, so [NaN] is
    let through. *)
Theorem tool_validation (h : Server.host) (name : string)
    (args : Server.value) (st : Server.state) :
  In name Server.toolNames ->
  args <> Server.VUndefined -> args <> Server.VNull ->
  match Server.firstUnmet args (Server.demands name) with
  | Some message =>
      Server.handleToolCall h name args st
      = (inl (Server.McpError Server.InvalidParams message), st)
  | None =>
      forall (e : Server.exception) (st' : Server.state),
        Server.handleToolCall h name args st = (inl e, st') ->
        exists m : string, e = Server.Error m
  end.
Proof. exact (handleToolCall_checks h name args st). Qed.

Lemma tool_validation_witness :
  Server.handleToolCall sampleHost "calculate_planetary_positions"
    sampleArgumentsTooFarNorth initialState
  = (inl (Server.McpError Server.InvalidParams
            "latitude must be a number between -90 and 90"),
     initialState).
Proof.
  refine (tool_validation sampleHost "calculate_planetary_positions"
            sampleArgumentsTooFarNorth initialState _ _ _);
    [vm_compute; auto | discriminate | discriminate].
Defined.

(** A known tool called with no arguments at all. *)
Lemma handleToolCall_no_arguments (h : Server.host) (name : string)
    (args : Server.value) (st : Server.state) :
  In name Server.toolNames ->
  args = Server.VUndefined \/ args = Server.VNull ->
  exists (key : string) (d : Server.demand) (message : string)
         (rest : list (string * Server.demand * string)),
    Server.demands name = (key, d, message) :: rest /\
    Server.handleToolCall h name args st
    = (inl (Server.Error
              (Server.faultMessage h (Server.CannotDestructure key args))),
       st).
Proof.
  intros Hname Hargs. apply In_toolNames in Hname.
  destruct Hname as [-> | [-> | [-> | ->]]]; destruct Hargs as [-> | ->];
    do 4 eexists; split; reflexivity.
Qed.

Lemma handleToolCall_unknown (h : Server.host) (name : string)
    (args : Server.value) (st : Server.state) :
  ~ In name Server.toolNames ->
  Server.handleToolCall h name args st
  = (inl (Server.McpError Server.MethodNotFound ("Unknown tool: " +:+ name)),
     st).
Proof.
  intros Hname. unfold Server.handleToolCall.
  destruct (String.eqb_spec name "calculate_planetary_positions") as [-> | _];
    [exfalso; apply Hname; cbn; auto |].
  destruct (String.eqb_spec name "calculate_transits") as [-> | _];
    [exfalso; apply Hname; cbn; auto |].
  destruct (String.eqb_spec name "calculate_solar_revolution") as [-> | _];
    [exfalso; apply Hname; cbn; auto |].
  destruct (String.eqb_spec name "calculate_synastry") as [-> | _];
    [exfalso; apply Hname; cbn; auto |].
  reflexivity.
Qed.

(** The errors of [handleToolCall], by their origin. *)
Lemma handleToolCall_errors (h : Server.host) (name : string)
    (args : Server.value) (st st' : Server.state) (e : Server.exception) :
  Server.handleToolCall h name args st = (inl e, st') ->
  (~ In name Server.toolNames /\ st' = st /\
   e = Server.McpError Server.MethodNotFound ("Unknown tool: " +:+ name))
  \/ (In name Server.toolNames /\ st' = st /\
      exists message : string,
        Server.firstUnmet args (Server.demands name) = Some message /\
        e = Server.McpError Server.InvalidParams message)
  \/ (In name Server.toolNames /\ exists m : string, e = Server.Error m).
Proof.
  intros H.
  destruct (In_dec string_dec name Server.toolNames) as [Hin | Hout].
  2:{ left. rewrite (handleToolCall_unknown h name args st Hout) in H.
      injection H as <- <-. auto. }
  right.
  assert (Hargs : (args = Server.VUndefined \/ args = Server.VNull)
                  \/ (args <> Server.VUndefined /\ args <> Server.VNull)).
  { destruct args; auto; right; split; discriminate. }
  destruct Hargs as [Hargs | [H1 H2]].
  - destruct (handleToolCall_no_arguments h name args st Hin Hargs)
      as (key & d & message & rest & _ & E).
    rewrite E in H. injection H as <- <-. right. eauto.
  - pose proof (handleToolCall_checks h name args st Hin H1 H2) as Hc.
    destruct (Server.firstUnmet args (Server.demands name)) as [message |].
    + rewrite Hc in H. injection H as <- <-. left. eauto.
    + right. split; [exact Hin | exact (Hc e st' H)].
Qed.

(** X6.  Unknown tools.  [handleToolCall] throws [MethodNotFound] exactly
    for the names that are not in the tool list, with the name in its
    message and before anything else is done: every tool of the list is
    handled, and nothing else is. *)
Theorem unknown_tool (h : Server.host) (name : string) (args : Server.value)
    (st : Server.state) :
  (~ In name Server.toolNames ->
   Server.handleToolCall h name args st
   = (inl (Server.McpError Server.MethodNotFound ("Unknown tool: " +:+ name)),
      st))
  /\ (In name Server.toolNames ->
      forall (message : string) (st' : Server.state),
        Server.handleToolCall h name args st
        <> (inl (Server.McpError Server.MethodNotFound message), st')).
Proof.
  split; [apply handleToolCall_unknown |].
  intros Hin message st' H.
  destruct (handleToolCall_errors h name args st st' _ H)
    as [[Hout _] | [(_ & _ & m & _ & E) | (_ & m & E)]];
    [contradiction | discriminate E | discriminate E].
Qed.

(** X7.  The tool list and the checks agree.  The arguments a tool checks
    are the properties its entry of the tool list declares as required.  A
    call in which one of them is missing, or has another type than the
    declared one, throws [InvalidParams] and runs nothing.  (The two
    properties that are declared but not required, the return coordinates
    of the solar return, are not checked at all.) *)
Theorem required_arguments (h : Server.host) (t : Server.tool)
    (fields : list (string * Server.value)) (key : string)
    (st : Server.state) :
  In t Server.tools ->
  In key (Server.tool_required t) ->
  (assoc fields key = None \/
   exists (v : Server.value) (type : string),
     assoc fields key = Some v /\
     assoc (Server.tool_properties t) key = Some type /\
     Server.typeOf v <> type) ->
  Server.tool_required t = (fun d => fst (fst d)) <$> Server.demands (Server.tool_name t)
  /\ exists message : string,
       Server.handleToolCall h (Server.tool_name t) (Server.VObject fields) st
       = (inl (Server.McpError Server.InvalidParams message), st).
Proof.
  intros Ht Hkey Hbad.
  assert (Hv : exists v : Server.value,
             Server.argument (Server.VObject fields) key = v /\
             forall type : string,
               assoc (Server.tool_properties t) key = Some type ->
               Server.typeOf v <> type).
  { destruct Hbad as [E | (v & type & E & Ety & Hty)].
    - exists Server.VUndefined. split.
      + unfold Server.argument. cbn. rewrite E. reflexivity.
      + intros type Ety Hty. cbn in Hty. subst type.
        cbn in Ht.
        destruct Ht as [<- | [<- | [<- | [<- | []]]]]; cbn in Hkey, Ety;
          repeat (destruct Hkey as [<- | Hkey]; [discriminate Ety |]);
          destruct Hkey.
    - exists v. split.
      + unfold Server.argument. cbn. rewrite E. reflexivity.
      + intros type' Ety'. congruence. }
  destruct Hv as (v & Ev & Hty).
  assert (Hin : In (Server.tool_name t) Server.toolNames).
  { apply in_map. exact Ht. }
  pose proof (handleToolCall_checks h (Server.tool_name t)
                (Server.VObject fields) st Hin ltac:(discriminate)
                ltac:(discriminate)) as Hc.
  assert (Hfirst : Server.tool_required t
                   = (fun d => fst (fst d)) <$> Server.demands (Server.tool_name t)
                   /\ Server.firstUnmet (Server.VObject fields)
                        (Server.demands (Server.tool_name t)) <> None).
  { cbn in Ht.
    destruct Ht as [<- | [<- | [<- | [<- | []]]]];
      (split; [reflexivity |]);
      cbn [Server.tool_name Server.tool_required Server.tool_properties] in *;
      unfold Server.demands; cbn [String.eqb Ascii.eqb Bool.eqb];
      rewrite !firstUnmet_cons;
      repeat (destruct Hkey as [<- | Hkey];
              [ rewrite Ev;
                repeat match goal with
                       | |- context [if Server.passes ?d ?x then _ else _] =>
                           destruct (Server.passes d x) eqn:?; try discriminate
                       end;
                exfalso;
                match goal with
                | Hp : Server.passes _ v = true |- _ =>
                    destruct v as [| | ? | [?|] | ? | ? | ?];
                    try discriminate Hp; eapply Hty; reflexivity
                end
              |]);
      destruct Hkey. }
  destruct Hfirst as [Hreq Hsome]. split; [exact Hreq |].
  destruct (Server.firstUnmet _ _) as [message |]; [| congruence].
  exists message. exact Hc.
Qed.

Lemma required_arguments_witness :
  exists message : string,
    Server.handleToolCall sampleHost "calculate_planetary_positions"
      (Server.VObject []) initialState
    = (inl (Server.McpError Server.InvalidParams message), initialState).
Proof.
  refine (proj2 (required_arguments sampleHost positionsTool [] "datetime"
                   initialState _ _ _));
    [left; reflexivity | left; reflexivity | left; reflexivity].
Defined.

(** ** The handler of a tool request *)

Lemma callTool_run (h : Server.host) (name : string) (args : Server.value)
    (st : Server.state) :
  Server.callTool h name args st
  = match Server.handleToolCall h name args st with
    | (inl (Server.Error m), st') =>
        (inl (Server.McpError Server.InternalError
                ("Tool execution failed: " +:+ m)), st')
    | other => other
    end.
Proof.
  unfold Server.callTool, Server.tryCatch.
  destruct (Server.handleToolCall h name args st) as [[[code m | m] | r] st'];
    reflexivity.
Qed.

(** X8.  The errors of a tool request.  Whatever fails, the handler throws
    an [McpError], never a plain error: [MethodNotFound] for a name outside
    the tool list and [InvalidParams] for an argument that fails its check,
    both before anything is run; every other failure, be it of the
    calculator or of the program itself, is an [InternalError] whose
    message starts with "Tool execution failed: ". *)
Theorem callTool_errors (h : Server.host) (name : string)
    (args : Server.value) (st st' : Server.state) (e : Server.exception) :
  Server.callTool h name args st = (inl e, st') ->
  (~ In name Server.toolNames /\ st' = st /\
   e = Server.McpError Server.MethodNotFound ("Unknown tool: " +:+ name))
  \/ (In name Server.toolNames /\ st' = st /\
      exists message : string,
        Server.firstUnmet args (Server.demands name) = Some message /\
        e = Server.McpError Server.InvalidParams message)
  \/ (In name Server.toolNames /\
      exists m : string,
        e = Server.McpError Server.InternalError
              ("Tool execution failed: " +:+ m)).
Proof.
  rewrite callTool_run.
  destruct (Server.handleToolCall h name args st) as [[e0 | r] st0] eqn:E;
    [| destruct r; discriminate].
  pose proof (handleToolCall_errors h name args st st0 e0 E) as Herr.
  destruct e0 as [code m | m].
  - intros [= <- <-].
    destruct Herr as [H | [H | (_ & m' & H)]]; [auto | auto | discriminate H].
  - intros [= <- <-].
    destruct Herr as [(_ & _ & H) | [(_ & _ & m' & _ & H) | (Hin & _)]];
      [discriminate H | discriminate H |].
    right. right. eauto.
Qed.

Lemma callTool_errors_witness :
  (~ In "calculate_planetary_positions" Server.toolNames /\
   initialState = initialState /\
   Server.McpError Server.InvalidParams
     "latitude must be a number between -90 and 90"
   = Server.McpError Server.MethodNotFound
       ("Unknown tool: " +:+ "calculate_planetary_positions"))
  \/ (In "calculate_planetary_positions" Server.toolNames /\
      initialState = initialState /\
      exists message : string,
        Server.firstUnmet sampleArgumentsTooFarNorth
          (Server.demands "calculate_planetary_positions") = Some message /\
        Server.McpError Server.InvalidParams
          "latitude must be a number between -90 and 90"
        = Server.McpError Server.InvalidParams message)
  \/ (In "calculate_planetary_positions" Server.toolNames /\
      exists m : string,
        Server.McpError Server.InvalidParams
          "latitude must be a number between -90 and 90"
        = Server.McpError Server.InternalError
            ("Tool execution failed: " +:+ m)).
Proof.
  apply (callTool_errors sampleHost "calculate_planetary_positions"
           sampleArgumentsTooFarNorth initialState initialState).
  vm_compute. reflexivity.
Defined.

(** X9.  A datetime that is no date.  The check of the datetime argument
    asks for a non-empty string only, so a string that the engine cannot
    read as a date passes it; the call then fails inside
    [calculateEphemeris], before any command is run, and is reported as an
    [InternalError], not as [InvalidParams]. *)
Theorem unparseable_datetime (h : Server.host) (args : Server.value)
    (dt : string) (st : Server.state) :
  Server.argument args "datetime" = Server.VString dt -> dt <> "" ->
  Server.passes (Server.NumberIn (-90) 90) (Server.argument args "latitude")
  = true ->
  Server.passes (Server.NumberIn (-180) 180) (Server.argument args "longitude")
  = true ->
  Server.parseDate h dt = None ->
  Server.callTool h "calculate_planetary_positions" args st
  = (inl (Server.McpError Server.InternalError
            "Tool execution failed: Swiss Ephemeris calculation failed: Invalid datetime format. Use ISO8601 format like 1985-04-12T23:20:50Z"),
     st).
Proof.
  intros Hdt Hne Hlat Hlng Hdate.
  assert (Hargs : args <> Server.VUndefined /\ args <> Server.VNull).
  { split; intros ->; discriminate Hdt. }
  destruct Hargs as [H1 H2].
  rewrite callTool_run. unfold Server.handleToolCall.
  cbn [String.eqb Ascii.eqb Bool.eqb].
  rewrite (destructure_object h args _ H1 H2), bind_ret_l.
  rewrite Hdt.
  assert (Es : Server.stringArgument (Server.VString dt) = Some dt).
  { destruct dt; [congruence | reflexivity]. }
  rewrite Es. cbn [Server.require]. rewrite bind_ret_l.
  pose proof (numberArgument_passes (-90) 90 (Server.argument args "latitude"))
    as Ha.
  destruct (Server.numberArgument (-90) 90 _) as [lat |]; [| congruence].
  pose proof (numberArgument_passes (-180) 180
                (Server.argument args "longitude")) as Hb.
  destruct (Server.numberArgument (-180) 180 _) as [lng |]; [| congruence].
  cbn [Server.require]. rewrite !bind_ret_l.
  unfold Server.bind. rewrite calculateEphemeris_run, Hdate. reflexivity.
Qed.

Lemma unparseable_datetime_witness :
  Server.callTool sampleHost "calculate_planetary_positions"
    sampleArgumentsNoDate initialState
  = (inl (Server.McpError Server.InternalError
            "Tool execution failed: Swiss Ephemeris calculation failed: Invalid datetime format. Use ISO8601 format like 1985-04-12T23:20:50Z"),
     initialState).
Proof.
  apply (unparseable_datetime sampleHost sampleArgumentsNoDate
           "the day before yesterday" initialState);
    [reflexivity | discriminate | reflexivity | reflexivity | reflexivity].
Defined.



(** ** The solar return *)

(** The checks of the solar return are passed: the checked arguments are
    the values they are, and the call is what follows the checks. *)
Lemma solar_revolution_checked (h : Server.host) (args : Server.value)
    (dt : string) (lat lng year : number) :
  Server.firstUnmet args (Server.demands "calculate_solar_revolution") = None ->
  Server.argument args "birth_datetime" = Server.VString dt ->
  Server.argument args "birth_latitude" = Server.VNumber lat ->
  Server.argument args "birth_longitude" = Server.VNumber lng ->
  Server.argument args "return_year" = Server.VNumber year ->
  Server.stringArgument (Server.argument args "birth_datetime") = Some dt /\
  Server.numberArgument (-90) 90 (Server.argument args "birth_latitude")
  = Some lat /\
  Server.numberArgument (-180) 180 (Server.argument args "birth_longitude")
  = Some lng /\
  Server.numberArgument 1900 2100 (Server.argument args "return_year")
  = Some year /\
  Server.destructure h args "birth_datetime" = Server.ret (Server.argument args).
Proof.
  intros Hun Hdt Hlat Hlng Hyear.
  unfold Server.demands in Hun. cbn [String.eqb Ascii.eqb Bool.eqb] in Hun.
  rewrite !firstUnmet_cons in Hun.
  pose proof (stringArgument_passes (Server.argument args "birth_datetime")) as H1.
  pose proof (numberArgument_passes (-90) 90
                (Server.argument args "birth_latitude")) as H2.
  pose proof (numberArgument_passes (-180) 180
                (Server.argument args "birth_longitude")) as H3.
  pose proof (numberArgument_passes 1900 2100
                (Server.argument args "return_year")) as H4.
  destruct (Server.stringArgument _) as [s |];
    [destruct H1 as [E1 _] | rewrite H1 in Hun; discriminate Hun].
  destruct (Server.passes Server.NonEmptyText _); [| discriminate Hun].
  destruct (Server.numberArgument (-90) 90 _) as [n2 |];
    [destruct H2 as [E2 _] | rewrite H2 in Hun; discriminate Hun].
  destruct (Server.passes (Server.NumberIn (-90) 90) _); [| discriminate Hun].
  destruct (Server.numberArgument (-180) 180 _) as [n3 |];
    [destruct H3 as [E3 _] | rewrite H3 in Hun; discriminate Hun].
  destruct (Server.passes (Server.NumberIn (-180) 180) _); [| discriminate Hun].
  destruct (Server.numberArgument 1900 2100 _) as [n4 |];
    [destruct H4 as [E4 _] | rewrite H4 in Hun; discriminate Hun].
  repeat split; try congruence.
  apply destructure_object; intros ->; discriminate Hdt.
Qed.

(** X11.  A solar return needs a Sun.  When the natal chart has been
    computed and holds no Sun (the calculator printed no line for it), the
    solar return fails on reading the longitude of the Sun: the request is
    answered with an [InternalError] carrying the engine's message, after
    the commands of the natal chart have run and before anything is
    computed for the return. *)
Theorem solar_revolution_without_sun (h : Server.host) (args : Server.value)
    (dt : string) (lat lng year : number) (natal : Server.chart)
    (st st1 : Server.state) :
  Server.firstUnmet args (Server.demands "calculate_solar_revolution") = None ->
  Server.argument args "birth_datetime" = Server.VString dt ->
  Server.argument args "birth_latitude" = Server.VNumber lat ->
  Server.argument args "birth_longitude" = Server.VNumber lng ->
  Server.argument args "return_year" = Server.VNumber year ->
  Server.calculateEphemeris h dt (Server.VNumber lat) (Server.VNumber lng) st
  = (inr natal, st1) ->
  Server.planets natal !! "Sun" = None ->
  Server.callTool h "calculate_solar_revolution" args st
  = (inl (Server.McpError Server.InternalError
            ("Tool execution failed: "
             +:+ Server.faultMessage h
                   (Server.CannotRead "longitude" Server.VUndefined))),
     st1).
Proof.
  intros Hun Hdt Hlat Hlng Hyear Hnatal Hsun.
  destruct (solar_revolution_checked h args dt lat lng year Hun Hdt Hlat Hlng Hyear)
    as (E1 & E2 & E3 & E4 & E0).
  rewrite callTool_run. unfold Server.handleToolCall.
  cbn [String.eqb Ascii.eqb Bool.eqb].
  rewrite E0, bind_ret_l, E1, E2, E3, E4. cbn [Server.require].
  rewrite !bind_ret_l. unfold Server.bind at 1. rewrite Hnatal.
  unfold Server.bind at 1. unfold Server.sunLongitude. rewrite Hsun.
  reflexivity.
Qed.

Lemma solar_revolution_without_sun_witness :
  Server.callTool silentHost "calculate_solar_revolution"
    sampleReturnArguments initialState
  = (inl (Server.McpError Server.InternalError
            ("Tool execution failed: "
             +:+ Server.faultMessage silentHost
                   (Server.CannotRead "longitude" Server.VUndefined))),
     snd (Server.calculateEphemeris silentHost "1985-04-12T23:20:50Z"
            (Server.VNumber (Num 48)) (Server.VNumber (Num 2)) initialState)).
Proof.
  eapply (solar_revolution_without_sun silentHost sampleReturnArguments
            "1985-04-12T23:20:50Z" (Num 48) (Num 2) (Num 2024));
    [reflexivity | reflexivity | reflexivity | reflexivity | reflexivity
    | vm_compute; reflexivity | vm_compute; reflexivity].
Defined.

(** X12.  The return coordinates are not checked.  The coordinates of the
    return location are taken as they come whenever they are not
    [undefined]: no type and no range is asked of them.  Once the natal
    chart is there with its Sun and the return date is a date, the house
    command of the return chart is run with their texts in it, the
    longitude first, whatever these texts are. *)
Theorem return_coordinates_unchecked (h : Server.host) (args : Server.value)
    (dt : string) (lat lng year : number) (returnLat returnLon : Server.value)
    (latText lngText : string) (natal : Server.chart) (sun : point)
    (birth returnDate d : Server.date) (output : string)
    (st st1 : Server.state) :
  Server.firstUnmet args (Server.demands "calculate_solar_revolution") = None ->
  Server.argument args "birth_datetime" = Server.VString dt ->
  Server.argument args "birth_latitude" = Server.VNumber lat ->
  Server.argument args "birth_longitude" = Server.VNumber lng ->
  Server.argument args "return_year" = Server.VNumber year ->
  Server.argument args "return_latitude" = returnLat ->
  returnLat <> Server.VUndefined ->
  Server.toText h returnLat = Some latText ->
  Server.argument args "return_longitude" = returnLon ->
  returnLon <> Server.VUndefined ->
  Server.toText h returnLon = Some lngText ->
  Server.calculateEphemeris h dt (Server.VNumber lat) (Server.VNumber lng) st
  = (inr natal, st1) ->
  Server.planets natal !! "Sun" = Some sun ->
  Server.parseDate h dt = Some birth ->
  Server.localDate h year birth = Some returnDate ->
  Server.parseDate h (Server.toISOString h returnDate) = Some d ->
  Server.execSync h (length (Server.executed st1))
    (Server.planetCmd h (Server.formatDateToSwiss d) (Server.formatTimeToSwiss d))
  = inr output ->
  Server.executed (snd (Server.handleToolCall h "calculate_solar_revolution" args st))
  = Server.executed st1 ++
    [ Server.planetCmd h (Server.formatDateToSwiss d) (Server.formatTimeToSwiss d);
      Server.commandStart h +:+ Server.formatDateToSwiss d +:+ " -ut"
      +:+ Server.formatTimeToSwiss d +:+ " -house" +:+ lngText +:+ ","
      +:+ latText +:+ ",P -fPZ -g, -head" ].
Proof.
  intros Hun Hdt Hlat Hlng Hyear Hrlat Nlat Tlat Hrlon Nlon Tlon Hnatal Hsun
    Hbirth Hreturn Hd Hplanet.
  destruct (solar_revolution_checked h args dt lat lng year Hun Hdt Hlat Hlng Hyear)
    as (E1 & E2 & E3 & E4 & E0).
  unfold Server.handleToolCall. cbn [String.eqb Ascii.eqb Bool.eqb].
  rewrite E0, bind_ret_l, E1, E2, E3, E4. cbn [Server.require].
  rewrite !bind_ret_l. unfold Server.bind at 1. rewrite Hnatal.
  unfold Server.bind at 1. unfold Server.sunLongitude. rewrite Hsun.
  cbn [Server.ret]. cbv zeta. rewrite Hbirth, Hreturn, Hrlat, Hrlon.
  cbn [Server.isoString]. rewrite bind_ret_l.
  assert (Ea : Server.orElse returnLat (Server.VNumber lat) = returnLat)
    by (destruct returnLat; [congruence | reflexivity ..]).
  assert (Eb : Server.orElse returnLon (Server.VNumber lng) = returnLon)
    by (destruct returnLon; [congruence | reflexivity ..]).
  rewrite Ea, Eb. unfold Server.bind at 1.
  rewrite calculateEphemeris_run, Hd. cbv zeta. rewrite Hplanet, Tlon, Tlat.
  assert (Ecmd : Server.houseCmd h (Server.formatDateToSwiss d)
                   (Server.formatTimeToSwiss d) lngText latText
                 = Server.commandStart h +:+ Server.formatDateToSwiss d
                   +:+ " -ut" +:+ Server.formatTimeToSwiss d +:+ " -house"
                   +:+ lngText +:+ "," +:+ latText +:+ ",P -fPZ -g, -head").
  { unfold Server.houseCmd, Server.commandStart. rewrite !append_assoc.
    reflexivity. }
  rewrite Ecmd.
  destruct (Server.execSync h (S _) _) as [m | ho].
  - reflexivity.
  - unfold Server.bind, Server.sunLongitude.
    destruct (Server.planets (Server.assemble _ _ _ _ _) !! "Sun"); reflexivity.
Qed.

Lemma return_coordinates_unchecked_witness :
  Server.executed
    (snd (Server.handleToolCall sampleHost "calculate_solar_revolution"
            sampleReturnArguments initialState))
  = Server.executed
      (snd (Server.calculateEphemeris sampleHost "1985-04-12T23:20:50Z"
              (Server.VNumber (Num 48)) (Server.VNumber (Num 2)) initialState))
    ++ [ Server.planetCmd sampleHost
           (Server.formatDateToSwiss sampleReturnDate)
           (Server.formatTimeToSwiss sampleReturnDate);
         Server.commandStart sampleHost
         +:+ Server.formatDateToSwiss sampleReturnDate +:+ " -ut"
         +:+ Server.formatTimeToSwiss sampleReturnDate +:+ " -house"
         +:+ "east of here" +:+ "," +:+ "north" +:+ ",P -fPZ -g, -head" ].
Proof.
  eapply (return_coordinates_unchecked sampleHost sampleReturnArguments
            "1985-04-12T23:20:50Z" (Num 48) (Num 2) (Num 2024)
            (Server.VString "north") (Server.VString "east of here")
            "north" "east of here" _ _ sampleDate sampleReturnDate
            sampleReturnDate);
    [reflexivity | reflexivity | reflexivity | reflexivity | reflexivity
    | reflexivity | discriminate | reflexivity | reflexivity | discriminate
    | reflexivity | vm_compute; reflexivity | vm_compute; reflexivity
    | reflexivity | reflexivity | reflexivity | vm_compute; reflexivity].
Defined.

(** ** What a tool call runs *)

Lemma bounded_weaken {A : Type} (h : Server.host) (n n' k k' : nat)
    (m : Server.M A) :
  Server.bounded h n k m -> (n <= n')%nat -> (k <= k')%nat ->
  Server.bounded h n' k' m.
Proof.
  intros Hm Hn Hk st. destruct (Hm st) as (cmds & E & Hl & Hf & Hr).
  exists cmds. repeat split; try assumption; lia.
Qed.

Lemma bounded_ret {A : Type} (h : Server.host) (a : A) :
  Server.bounded h 0 0 (Server.ret a).
Proof.
  intros st. exists []. cbn. rewrite app_nil_r.
  split; [reflexivity |]. split; [lia |]. split; [constructor | lia].
Qed.

Lemma bounded_throw {A : Type} (h : Server.host) (e : Server.exception) :
  Server.bounded h 0 0 (Server.throw (A := A) e).
Proof.
  intros st. exists []. cbn. rewrite app_nil_r.
  split; [reflexivity |]. split; [lia |]. split; [constructor | lia].
Qed.

Lemma bounded_bind {A B : Type} (h : Server.host) (n1 n2 k1 k2 : nat)
    (m : Server.M A) (f : A -> Server.M B) :
  Server.bounded h n1 k1 m -> (forall a : A, Server.bounded h n2 k2 (f a)) ->
  Server.bounded h (n1 + n2) (k1 + k2) (Server.bind m f).
Proof.
  intros Hm Hf st. destruct (Hm st) as (c1 & E1 & L1 & F1 & R1).
  unfold Server.bind. destruct (m st) as [[e | a] st1]; cbn [snd] in *.
  - exists c1. repeat split; try assumption; lia.
  - destruct (Hf a st1) as (c2 & E2 & L2 & F2 & R2).
    exists (c1 ++ c2). rewrite E2, E1, app_assoc, length_app.
    repeat split; try lia. apply Forall_app. split; assumption.
Qed.

Lemma bounded_tryCatch {A : Type} (h : Server.host) (n1 n2 k1 k2 : nat)
    (m : Server.M A) (handler : Server.exception -> Server.M A) :
  Server.bounded h n1 k1 m ->
  (forall e : Server.exception, Server.bounded h n2 k2 (handler e)) ->
  Server.bounded h (n1 + n2) (k1 + k2) (Server.tryCatch m handler).
Proof.
  intros Hm Hf st. destruct (Hm st) as (c1 & E1 & L1 & F1 & R1).
  unfold Server.tryCatch. destruct (m st) as [[e | a] st1]; cbn [snd] in *.
  - destruct (Hf e st1) as (c2 & E2 & L2 & F2 & R2).
    exists (c1 ++ c2). rewrite E2, E1, app_assoc, length_app.
    repeat split; try lia. apply Forall_app. split; assumption.
  - exists c1. repeat split; try assumption; lia.
Qed.

Lemma bounded_require {A : Type} (h : Server.host) (o : option A)
    (e : Server.exception) :
  Server.bounded h 0 0 (Server.require o e).
Proof. destruct o; [apply bounded_ret | apply bounded_throw]. Qed.

Lemma bounded_destructure (h : Server.host) (args : Server.value)
    (key : string) :
  Server.bounded h 0 0 (Server.destructure h args key).
Proof.
  unfold Server.destructure.
  destruct (Server.get args key); [apply bounded_ret | apply bounded_throw].
Qed.

Lemma bounded_sunLongitude (h : Server.host) (c : Server.chart) :
  Server.bounded h 0 0 (Server.sunLongitude h c).
Proof.
  unfold Server.sunLongitude.
  destruct (Server.planets c !! "Sun"); [apply bounded_ret | apply bounded_throw].
Qed.

Lemma bounded_isoString (h : Server.host) (d : option Server.date) :
  Server.bounded h 0 0 (Server.isoString h d).
Proof. destruct d; [apply bounded_ret | apply bounded_throw]. Qed.

Lemma bounded_now (h : Server.host) : Server.bounded h 0 1 (Server.now h).
Proof.
  intros st. exists []. cbn. rewrite app_nil_r.
  split; [reflexivity |]. split; [lia |]. split; [constructor | lia].
Qed.

Lemma bounded_calculateEphemeris (h : Server.host) (dt : string)
    (lat lng : Server.value) :
  Server.bounded h 2 0 (Server.calculateEphemeris h dt lat lng).
Proof.
  intros st.
  destruct (Server.calculateEphemeris h dt lat lng st) as [r st'] eqn:E.
  destruct (calculateEphemeris_effects h dt lat lng st st' r E)
    as (cmds & E1 & E2 & L & F & _).
  exists cmds. cbn [snd]. repeat split; try assumption; lia.
Qed.

(** The bound of a sequence of steps, step by step. *)
Ltac bounded_steps :=
  repeat first
    [ apply bounded_ret | apply bounded_throw | apply bounded_require
    | apply bounded_destructure | apply bounded_sunLongitude
    | apply bounded_isoString | apply bounded_now
    | apply bounded_calculateEphemeris
    | eapply bounded_bind; [| intro]
    | progress cbv zeta ].

Lemma bounded_handleToolCall (h : Server.host) (name : string)
    (args : Server.value) :
  Server.bounded h
    (if String.eqb name "calculate_planetary_positions" then 2 else 4) 1
    (Server.handleToolCall h name args).
Proof.
  unfold Server.handleToolCall.
  destruct (String.eqb name "calculate_planetary_positions").
  { eapply bounded_weaken; [bounded_steps | cbn; lia ..]. }
  destruct (String.eqb name "calculate_transits").
  { eapply bounded_weaken; [bounded_steps | cbn; lia ..]. }
  destruct (String.eqb name "calculate_solar_revolution").
  { eapply bounded_weaken; [bounded_steps | cbn; lia ..]. }
  destruct (String.eqb name "calculate_synastry").
  { eapply bounded_weaken; [bounded_steps | cbn; lia ..]. }
  eapply bounded_weaken; [apply bounded_throw | lia ..].
Qed.

(** X13.  What a tool request runs.  Whatever the name, the arguments and
    the answers of the host, one request runs at most four commands (at
    most two for [calculate_planetary_positions]) and reads the clock at
    most once; every command it runs is a [swetest] call under the
    configured ephemeris path, added after the commands run before. *)
Theorem tool_call_commands (h : Server.host) (name : string)
    (args : Server.value) :
  Server.bounded h
    (if String.eqb name "calculate_planetary_positions" then 2 else 4) 1
    (Server.callTool h name args).
Proof.
  unfold Server.callTool.
  eapply bounded_weaken;
    [ eapply bounded_tryCatch;
      [ apply bounded_handleToolCall
      | intros [code m | m]; apply bounded_throw ]
    | lia ..].
Qed.

(** ** The HTTP endpoint *)

Lemma method_not_initialize (fields : list (string * Server.value))
    (m : Server.value) :
  default Server.VUndefined (assoc fields "method") = m ->
  m <> Server.VString "initialize" ->
  ~ Server.initializes (Server.VObject fields)
  /\ ~ Server.nullish (Server.VObject fields).
Proof.
  intros Em Hm. split.
  - intros (f & [= <-] & E). rewrite E in Em. cbn in Em. congruence.
  - intros [E | E]; discriminate E.
Qed.

Lemma isInitialize_spec (v : Server.value) :
  match Server.isInitialize v with
  | inr true => Server.initializes v
  | inr false => ~ Server.initializes v /\ ~ Server.nullish v
  | inl f => Server.nullish v /\ f = Server.CannotRead "method" v
  end.
Proof.
  assert (Hother : forall w : Server.value,
             (forall fields, w <> Server.VObject fields) ->
             w <> Server.VNull -> w <> Server.VUndefined ->
             ~ Server.initializes w /\ ~ Server.nullish w).
  { intros w H1 H2 H3. split.
    - intros (f & E & _). exact (H1 f E).
    - intros [E | E]; congruence. }
  destruct v as [| | b | n | s | l | fields];
    try (apply Hother; intros; discriminate).
  - split; [right; reflexivity | reflexivity].
  - split; [left; reflexivity | reflexivity].
  - clear Hother. unfold Server.isInitialize. cbn [Server.get].
    destruct (default Server.VUndefined (assoc fields "method"))
      as [| | b | n | s | l | f] eqn:Em;
      try (eapply method_not_initialize; [exact Em | discriminate]).
    destruct (String.eqb_spec s "initialize") as [-> | Hs].
    + exists fields. split; [reflexivity |].
      destruct (assoc fields "method") as [m |]; cbn in Em; congruence.
    + eapply method_not_initialize; [exact Em | congruence].
Qed.

Lemma some_isInitialize (items : list Server.value) :
  match Server.some Server.isInitialize items with
  | inr true =>
      exists (pre : list Server.value) (x : Server.value)
             (post : list Server.value),
        items = pre ++ x :: post /\ Server.initializes x /\
        Forall (fun y => ~ Server.initializes y /\ ~ Server.nullish y) pre
  | inr false =>
      Forall (fun y => ~ Server.initializes y /\ ~ Server.nullish y) items
  | inl f =>
      exists (pre : list Server.value) (x : Server.value)
             (post : list Server.value),
        items = pre ++ x :: post /\ Server.nullish x /\
        f = Server.CannotRead "method" x /\
        Forall (fun y => ~ Server.initializes y /\ ~ Server.nullish y) pre
  end.
Proof.
  induction items as [| x items IH]; cbn [Server.some]; [constructor |].
  pose proof (isInitialize_spec x) as Hx.
  destruct (Server.isInitialize x) as [f | [|]].
  - destruct Hx as [Hn ->]. exists [], x, items. repeat split; auto.
  - exists [], x, items. repeat split; auto.
  - destruct (Server.some Server.isInitialize items) as [f | [|]].
    + destruct IH as (pre & y & post & -> & Hy & Hf & Hpre).
      exists (x :: pre), y, post. repeat split; auto.
    + destruct IH as (pre & y & post & -> & Hy & Hpre).
      exists (x :: pre), y, post. repeat split; auto.
    + constructor; assumption.
Qed.

(** The first element of a list that initialises or is [null] or
    [undefined] is the same however the list is cut. *)
Lemma first_mark_unique (pre1 pre2 post1 post2 : list Server.value)
    (x1 x2 : Server.value) :
  pre1 ++ x1 :: post1 = pre2 ++ x2 :: post2 ->
  Forall (fun y => ~ Server.initializes y /\ ~ Server.nullish y) pre1 ->
  Forall (fun y => ~ Server.initializes y /\ ~ Server.nullish y) pre2 ->
  Server.initializes x1 \/ Server.nullish x1 ->
  Server.initializes x2 \/ Server.nullish x2 ->
  x1 = x2.
Proof.
  revert pre2. induction pre1 as [| a pre1 IH]; intros pre2 E H1 H2 M1 M2.
  - destruct pre2 as [| b pre2]; cbn in E.
    + congruence.
    + injection E as <- _. apply Forall_cons in H2. destruct H2 as [[Na Nb] _].
      tauto.
  - destruct pre2 as [| b pre2]; cbn in E.
    + injection E as -> _. apply Forall_cons in H1. destruct H1 as [[Na Nb] _].
      tauto.
    + injection E as <- E. apply Forall_cons in H1, H2.
      exact (IH pre2 E (proj2 H1) (proj2 H2) M1 M2).
Qed.

Lemma initializes_not_nullish (v : Server.value) :
  Server.initializes v -> ~ Server.nullish v.
Proof. intros (f & -> & _) [E | E]; discriminate E. Qed.

(** X14.  Which bodies start a session.  For a body that is not an array,
    [isInitializeRequest] never fails; its value counts as true exactly
    when the body is an object whose [method] is the string [initialize],
    and a body that counts as false ([undefined], [null], an empty string,
    zero) is returned as it is.  For an array, the elements are looked at
    in order up to the first one that asks for initialisation or is [null]
    or [undefined]: in the first case the answer is [true], in the second
    the call fails with the error of reading [method] of that element, and
    without such an element the answer is [false]. *)
Theorem isInitializeRequest_spec (body : Server.value) :
  match body with
  | Server.VArray items =>
      (Server.isInitializeRequest body = inr (Server.VBool true) <->
       exists (pre : list Server.value) (x : Server.value)
              (post : list Server.value),
         items = pre ++ x :: post /\ Server.initializes x /\
         Forall (fun y => ~ Server.initializes y /\ ~ Server.nullish y) pre)
      /\ (forall f : Server.fault,
            Server.isInitializeRequest body = inl f <->
            exists (pre : list Server.value) (x : Server.value)
                   (post : list Server.value),
              items = pre ++ x :: post /\ Server.nullish x /\
              f = Server.CannotRead "method" x /\
              Forall (fun y => ~ Server.initializes y /\ ~ Server.nullish y) pre)
      /\ (Server.isInitializeRequest body = inr (Server.VBool false) <->
          Forall (fun y => ~ Server.initializes y /\ ~ Server.nullish y) items)
  | _ =>
      exists v : Server.value,
        Server.isInitializeRequest body = inr v /\
        (Server.truthy v = true <-> Server.initializes body) /\
        (Server.truthy body = false -> v = body)
  end.
Proof.
  destruct body as [| | b | n | s | items | fields].
  - exists Server.VUndefined. repeat split; try discriminate.
    intros (f & E & _). discriminate E.
  - exists Server.VNull. repeat split; try discriminate.
    intros (f & E & _). discriminate E.
  - exists (Server.VBool false).
    split; [destruct b; reflexivity |].
    split; [split; [discriminate | intros (f & E & _); discriminate E] |].
    cbn. intros ->. reflexivity.
  - unfold Server.isInitializeRequest.
    destruct (Server.truthy (Server.VNumber n)) eqn:T.
    + exists (Server.VBool false). cbn [Server.isInitialize Server.get].
      repeat split; try discriminate. intros (f & E & _). discriminate E.
    + exists (Server.VNumber n). repeat split; try congruence.
      intros (f & E & _). discriminate E.
  - unfold Server.isInitializeRequest.
    destruct (Server.truthy (Server.VString s)) eqn:T.
    + exists (Server.VBool false). cbn [Server.isInitialize Server.get].
      repeat split; try discriminate. intros (f & E & _). discriminate E.
    + exists (Server.VString s). repeat split; try congruence.
      intros (f & E & _). discriminate E.
  - pose proof (some_isInitialize items) as Hs.
    unfold Server.isInitializeRequest.
    destruct (Server.some Server.isInitialize items) as [f0 | [|]].
    + destruct Hs as (pre & x & post & E & Hx & Hf & Hpre).
      split; [| split].
      * split; [discriminate |].
        intros (pre' & x' & post' & E' & Hx' & Hpre'). exfalso.
        rewrite E in E'.
        pose proof (first_mark_unique _ _ _ _ _ _ E' Hpre Hpre'
                      (or_intror Hx) (or_introl Hx')) as <-.
        exact (initializes_not_nullish x Hx' Hx).
      * intros f. split.
        -- intros [= <-]. eauto 10.
        -- intros (pre' & x' & post' & E' & Hx' & -> & Hpre').
           rewrite E in E'.
           pose proof (first_mark_unique _ _ _ _ _ _ E' Hpre Hpre'
                         (or_intror Hx) (or_intror Hx')) as <-.
           rewrite Hf. reflexivity.
      * split; [discriminate |]. intros Hall. exfalso. rewrite E in Hall.
        apply Forall_app in Hall. destruct Hall as [_ Hall].
        apply Forall_cons in Hall. tauto.
    + destruct Hs as (pre & x & post & E & Hx & Hpre).
      split; [| split].
      * split; [eauto 10 | reflexivity].
      * intros f. split; [discriminate |].
        intros (pre' & x' & post' & E' & Hx' & _ & Hpre'). exfalso.
        rewrite E in E'.
        pose proof (first_mark_unique _ _ _ _ _ _ E' Hpre Hpre'
                      (or_introl Hx) (or_intror Hx')) as <-.
        exact (initializes_not_nullish x Hx Hx').
      * split; [discriminate |]. intros Hall. exfalso. rewrite E in Hall.
        apply Forall_app in Hall. destruct Hall as [_ Hall].
        apply Forall_cons in Hall. tauto.
    + split; [| split].
      * split; [discriminate |].
        intros (pre & x & post & -> & Hx & _). exfalso.
        apply Forall_app in Hs. destruct Hs as [_ Hs].
        apply Forall_cons in Hs. tauto.
      * intros f. split; [discriminate |].
        intros (pre & x & post & -> & Hx & _). exfalso.
        apply Forall_app in Hs. destruct Hs as [_ Hs].
        apply Forall_cons in Hs. tauto.
      * split; [intros _; exact Hs | reflexivity].
  - pose proof (isInitialize_spec (Server.VObject fields)) as Hs.
    unfold Server.isInitializeRequest. cbn [Server.truthy].
    destruct (Server.isInitialize (Server.VObject fields)) as [f | [|]].
    + destruct Hs as [[E | E] _]; discriminate E.
    + exists (Server.VBool true). repeat split; auto; discriminate.
    + exists (Server.VBool false). destruct Hs as [Hs _].
      repeat split; try discriminate. intros H. contradiction.
Qed.

Lemma inheritedKey_members (name : string) :
  (exists k : string, inheritedKey name = Some k)
  <-> In name Server.prototypeMembers.
Proof.
  unfold inheritedKey, Server.prototypeMembers.
  destruct (String.eqb_spec name "__proto__") as [-> | N1];
    [split; [intros _; cbn; auto | eauto] |].
  destruct (String.eqb_spec name "constructor") as [-> | N2];
    [split; [intros _; cbn; auto | eauto] |].
  destruct (existsb (String.eqb name) _) eqn:E.
  - split; [intros _ | eauto].
    apply existsb_exists in E. destruct E as (x & Hx & Ex).
    apply String.eqb_eq in Ex. subst x. cbn in Hx. cbn. tauto.
  - split; [intros [k Hk]; discriminate Hk |].
    intros Hin. exfalso.
    assert (Hex : existsb (String.eqb name)
                    [ "hasOwnProperty"; "isPrototypeOf"; "propertyIsEnumerable";
                      "toLocaleString"; "toString"; "valueOf";
                      "__defineGetter__"; "__defineSetter__";
                      "__lookupGetter__"; "__lookupSetter__" ] = true).
    { apply existsb_exists. exists name. split; [| apply String.eqb_refl].
      cbn in Hin. cbn. intuition congruence. }
    congruence.
Qed.

(** X15.  The sessions of the endpoint.  A request that carries the id of
    a stored transport is handed to that transport, whatever its body.  A
    request that carries any other id is refused with status 400, even if
    its body asks for initialisation; unless the id is the name of a member
    of [Object.prototype], which the lookup in the plain object finds: the
    request then fails with status 500.  A request without an id, or with
    an empty one, gets a new transport exactly when [isInitializeRequest]
    gives a value that counts as true; the stored transports play no part
    in it. *)
Theorem mcp_sessions {T : Type} (h : Server.host) (transports : gmap string T)
    (body : Server.value) :
  (forall (id : string) (transport : T),
     id <> "" -> transports !! id = Some transport ->
     Server.mcp h transports (Some id) body = Server.Existing transport)
  /\ (forall id : string,
        id <> "" -> transports !! id = None ->
        Server.mcp h transports (Some id) body
        = if bool_decide (In id Server.prototypeMembers)
          then Server.ServerError
                 (Server.faultMessage h (Server.NotAFunction "handleRequest"))
          else Server.BadRequest)
  /\ (forall sessionId : option string,
        sessionId = None \/ sessionId = Some "" ->
        Server.mcp h transports sessionId body = Server.mcp h ∅ None body /\
        (Server.mcp h transports sessionId body = Server.Fresh <->
         exists v : Server.value,
           Server.isInitializeRequest body = inr v /\ Server.truthy v = true)).
Proof.
  split; [| split].
  - intros id transport Hid Hstored. unfold Server.mcp.
    apply isEmpty_false in Hid. rewrite Hid. cbn [negb mbind option_bind].
    unfold Server.transportOf. rewrite Hstored. reflexivity.
  - intros id Hid Hstored. unfold Server.mcp.
    apply isEmpty_false in Hid. rewrite Hid. cbn [negb mbind option_bind].
    unfold Server.transportOf. rewrite Hstored.
    pose proof (inheritedKey_members id) as Hm.
    destruct (inheritedKey id) as [k |]; cbn [fmap option_fmap option_map].
    + rewrite bool_decide_eq_true_2 by (apply Hm; eauto). reflexivity.
    + rewrite bool_decide_eq_false_2; [reflexivity |].
      intros Hin. apply Hm in Hin. destruct Hin as [k Hk]. discriminate Hk.
  - intros sessionId Hs.
    assert (E : Server.mcp h transports sessionId body
                = match Server.isInitializeRequest body with
                  | inr v => if Server.truthy v then Server.Fresh
                             else Server.BadRequest
                  | inl f => Server.ServerError (Server.faultMessage h f)
                  end).
    { destruct Hs as [-> | ->]; reflexivity. }
    split; [rewrite E; reflexivity |]. rewrite E.
    destruct (Server.isInitializeRequest body) as [f | v].
    + split; [discriminate | intros (v & Hv & _); discriminate Hv].
    + destruct (Server.truthy v) eqn:Tv.
      * split; [eauto | reflexivity].
      * split; [discriminate | intros (v' & [= <-] & Hv'); congruence].
Qed.

(** ** The angles opposite to the Ascendant and the Midheaven *)




(** ** Where the points of a chart come from *)

Section FoldInvariant.
Context {S X : Type} (step : S -> X -> S) (P : S -> Prop) (l : list X).
Hypothesis step_keeps : forall (s : S) (x : X), In x l -> P s -> P (step s x).

Lemma fold_left_invariant_from (l' : list X) (s : S) :
  (forall x : X, In x l' -> In x l) -> P s -> P (fold_left step l' s).
Proof.
  revert s. induction l' as [| x l' IH]; intros s Hsub Hs; [exact Hs |].
  cbn [fold_left]. apply IH.
  - intros y Hy. apply Hsub. right. exact Hy.
  - apply step_keeps; [apply Hsub; left; reflexivity | exact Hs].
Qed.

Lemma fold_left_invariant (s : S) : P s -> P (fold_left step l s).
Proof. apply fold_left_invariant_from. auto. Qed.
End FoldInvariant.

Lemma filter_keepLine_In (lines : list string) (line : string) :
  In line (List.filter keepLine lines) -> In line lines /\ keepLine line = true.
Proof. apply filter_In. Qed.

(** Every planet of the map comes from a line. *)
Lemma planets_from_lines (lines : list string) (k : string) (p : point) :
  fold_left addPlanetLine (List.filter keepLine lines) ∅ !! k = Some p ->
  exists (line : string) (entry : parsed string),
    In line lines /\ keepLine line = true /\
    parsePlanetLine line = Some entry /\
    k = canonicalName planetNames (tag entry) /\ p = pointOf entry.
Proof.
  revert k p.
  apply (fold_left_invariant addPlanetLine
           (fun m => forall k p, m !! k = Some p ->
              exists (line : string) (entry : parsed string),
                In line lines /\ keepLine line = true /\
                parsePlanetLine line = Some entry /\
                k = canonicalName planetNames (tag entry) /\ p = pointOf entry)
           (List.filter keepLine lines)).
  - intros m line Hin Hm k p. unfold addPlanetLine.
    apply filter_keepLine_In in Hin. destruct Hin as [Hin Hk].
    destruct (parsePlanetLine line) as [entry |] eqn:Ep; [| apply Hm].
    destruct (decide (canonicalName planetNames (tag entry) = k)) as [<- | Hne].
    + rewrite lookup_insert_eq. intros [= <-]. exists line, entry. auto.
    + rewrite lookup_insert_ne by exact Hne. apply Hm.
  - intros k p Hk. rewrite lookup_empty in Hk. discriminate Hk.
Qed.

(** Every house and every chart point of the two maps comes from a
    line. *)
Lemma houses_from_lines (lines : list string) :
  let acc := fold_left addHouseLine (List.filter keepLine lines) (∅, ∅) in
  (forall (n : Z) (p : point),
     acc.1 !! n = Some p ->
     (1 <= n <= 12)%Z /\
     exists (line : string) (entry : parsed Z),
       In line lines /\ keepLine line = true /\
       includes "house " line = true /\
       parseHouseLine line = Some entry /\
       n = tag entry /\ p = pointOf entry)
  /\ (forall (k : string) (p : point),
        acc.2 !! k = Some p ->
        exists (line : string) (entry : parsed string),
          In line lines /\ keepLine line = true /\
          includes "house " line = false /\
          parseChartPointLine line = Some entry /\
          k = canonicalName pointNames (tag entry) /\ p = pointOf entry).
Proof.
  cbv zeta.
  apply (fold_left_invariant addHouseLine
           (fun acc =>
              (forall (n : Z) (p : point),
                 acc.1 !! n = Some p ->
                 (1 <= n <= 12)%Z /\
                 exists (line : string) (entry : parsed Z),
                   In line lines /\ keepLine line = true /\
                   includes "house " line = true /\
                   parseHouseLine line = Some entry /\
                   n = tag entry /\ p = pointOf entry)
              /\ (forall (k : string) (p : point),
                    acc.2 !! k = Some p ->
                    exists (line : string) (entry : parsed string),
                      In line lines /\ keepLine line = true /\
                      includes "house " line = false /\
                      parseChartPointLine line = Some entry /\
                      k = canonicalName pointNames (tag entry) /\
                      p = pointOf entry))
           (List.filter keepLine lines)).
  - intros [hs cps] line Hin [Hh Hc]. cbn [fst snd] in Hh, Hc.
    apply filter_keepLine_In in Hin. destruct Hin as [Hin Hk].
    unfold addHouseLine.
    destruct (includes "house " line) eqn:Eh.
    + destruct (parseHouseLine line) as [entry |] eqn:Ep;
        [| split; assumption].
      destruct ((1 <=? tag entry)%Z && (tag entry <=? 12)%Z) eqn:Er;
        [| split; assumption].
      split; [| exact Hc]. cbn [fst]. intros n p.
      destruct (decide (tag entry = n)) as [<- | Hne].
      * rewrite lookup_insert_eq. intros [= <-].
        apply andb_true_iff in Er. destruct Er as [E1 E2].
        apply Z.leb_le in E1, E2. split; [lia |].
        exists line, entry. auto 10.
      * rewrite lookup_insert_ne by exact Hne. apply Hh.
    + destruct (includes "Ascendant" line || includes "MC" line
                || includes "ARMC" line || includes "Vertex" line);
        [| split; assumption].
      destruct (parseChartPointLine line) as [entry |] eqn:Ep;
        [| split; assumption].
      split; [exact Hh |]. cbn [snd]. intros k p.
      destruct (decide (canonicalName pointNames (tag entry) = k)) as [<- | Hne].
      * rewrite lookup_insert_eq. intros [= <-]. exists line, entry. auto 10.
      * rewrite lookup_insert_ne by exact Hne. apply Hc.
  - split; intros k p Hk; cbn in Hk; rewrite lookup_empty in Hk;
      discriminate Hk.
Qed.

(** X17.  No point without a line.  In the chart assembled from two
    outputs, every planet is the position parsed from a line of the planet
    output that is kept by the filter, under the readable name of its label;
    every house is the position parsed from a kept line of the house output
    that contains [house ], and its number is between 1 and 12; every chart
    point other than Descendant and IC is the position parsed from a kept
    line of the house output that does not contain [house ]; and the
    additional points hold nothing but the South Node and the Part of
    Fortune. *)
Theorem points_come_from_lines (planetOutput houseOutput dt : string)
    (lat lng : number) :
  let c :=
    assembleLines (split "010" planetOutput) (split "010" houseOutput)
      dt lat lng in
  calculateEphemeris (answering planetOutput houseOutput) dt lat lng = inr c
  /\ (forall (k : string) (p : point),
        planets c !! k = Some p ->
        exists (line : string) (entry : parsed string),
          In line (split "010" planetOutput) /\ keepLine line = true /\
          parsePlanetLine line = Some entry /\
          k = canonicalName planetNames (tag entry) /\ p = pointOf entry)
  /\ (forall (n : Z) (p : point),
        houses c !! n = Some p ->
        (1 <= n <= 12)%Z /\
        exists (line : string) (entry : parsed Z),
          In line (split "010" houseOutput) /\ keepLine line = true /\
          includes "house " line = true /\
          parseHouseLine line = Some entry /\
          n = tag entry /\ p = pointOf entry)
  /\ (forall (k : string) (p : point),
        chart_points c !! k = Some p ->
        k = "Descendant" \/ k = "IC" \/
        exists (line : string) (entry : parsed string),
          In line (split "010" houseOutput) /\ keepLine line = true /\
          includes "house " line = false /\
          parseChartPointLine line = Some entry /\
          k = canonicalName pointNames (tag entry) /\ p = pointOf entry)
  /\ (forall (k : string) (p : point),
        additional_points c !! k = Some p ->
        k = "South Node" \/ k = "Part of Fortune").
Proof.
  cbv zeta. split; [reflexivity |].
  pose proof (planets_from_lines (split "010" planetOutput)) as HP.
  pose proof (houses_from_lines (split "010" houseOutput)) as HH.
  cbv zeta in HH. unfold assembleLines.
  destruct (fold_left addHouseLine _ (∅, ∅)) as [hs cps].
  cbn [fst snd] in HH. destruct HH as [Hh Hc].
  cbn [planets houses chart_points additional_points].
  split; [exact HP |]. split; [exact Hh |]. split.
  - intros k p Hk.
    destruct (decide (k = "Descendant")) as [-> | N1]; [auto |].
    destruct (decide (k = "IC")) as [-> | N2]; [auto |].
    right. right. apply Hc.
    destruct (cps !! "Ascendant") as [asc |].
    + destruct (_ !! "Midheaven") as [mc |].
      * rewrite !lookup_insert_ne in Hk by congruence. exact Hk.
      * rewrite !lookup_insert_ne in Hk by congruence. exact Hk.
    + destruct (cps !! "Midheaven") as [mc |].
      * rewrite !lookup_insert_ne in Hk by congruence. exact Hk.
      * exact Hk.
  - intros k p Hk.
    destruct (decide (k = "South Node")) as [-> | N1]; [auto |].
    destruct (decide (k = "Part of Fortune")) as [-> | N2]; [auto |].
    exfalso. revert Hk.
    set (ps := fold_left addPlanetLine _ ∅).
    destruct (ps !! "North Node");
      destruct (cps !! "Ascendant"), (ps !! "Sun"), (ps !! "Moon");
      rewrite ?lookup_insert_ne by congruence;
      rewrite lookup_empty; discriminate.
Qed.

(** ** Lines that name the same body *)




(** ** A calculator that prints nothing usable *)

Lemma filter_none {X : Type} (f : X -> bool) (l : list X) :
  (forall x : X, In x l -> f x = false) -> List.filter f l = [].
Proof.
  induction l as [| x l IH]; intros H; [reflexivity |].
  cbn [List.filter]. rewrite (H x (or_introl eq_refl)).
  apply IH. intros y Hy. apply H. right. exact Hy.
Qed.

(** X19.  An empty chart is not an error.  When no line of the two
    outputs can add a point (each is marked as an error or a warning or is
    outside the position pattern, as with outputs that are empty),
    [calculateEphemeris] still returns a chart: its four maps are empty,
    the datetime and the coordinates are those of the call. *)
Theorem chart_without_lines (planetOutput houseOutput dt : string)
    (lat lng : number) :
  (forall line : string,
     In line (split "010" planetOutput) -> contributes line = false) ->
  (forall line : string,
     In line (split "010" houseOutput) -> contributes line = false) ->
  calculateEphemeris (answering planetOutput houseOutput) dt lat lng
  = inr (Chart ∅ ∅ ∅ ∅ dt (lat, lng)).
Proof.
  intros Hp Hh. rewrite calculateEphemeris_answering.
  rewrite <- assembleLines_contributing.
  rewrite (filter_none contributes _ Hp), (filter_none contributes _ Hh).
  reflexivity.
Qed.

Lemma chart_without_lines_witness :
  calculateEphemeris (answering "" "warning: no ephemeris files")
    "1985-04-12T23:20:50Z" (Num 48) (Num 2)
  = inr (Chart ∅ ∅ ∅ ∅ "1985-04-12T23:20:50Z" (Num 48, Num 2)).
Proof.
  apply (chart_without_lines "" "warning: no ephemeris files");
    intros line [<- | []]; reflexivity.
Defined.

(** ** The lines the parsers accept *)

Lemma assoc_In {V : Type} (table : list (string * V)) (key : string) :
  (exists v : V, assoc table key = Some v) <-> In key (fst <$> table).
Proof.
  induction table as [| [k v] table IH]; cbn [assoc fmap list_fmap In].
  - split; [intros [v H]; discriminate H | intros []].
  - destruct (String.eqb_spec k key) as [-> | Hne].
    + split; [auto | eauto].
    + rewrite IH. cbn [fst]. split; [auto | intros [H | H]; congruence].
Qed.

Lemma parsePosition_accepts {L : Type} (label : L) (str : string) :
  (exists p : parsed L, parsePosition label str = Some p) <->
  exists g1 g2 g3 g4 : string,
    positionGrammar str g1 g2 g3 g4 /\
    In (toLowerCase g2)
      [ "ar"; "ta"; "ge"; "cn"; "le"; "vi"; "li"; "sc"; "sa"; "cp"; "aq"; "pi" ].
Proof.
  change [ "ar"; "ta"; "ge"; "cn"; "le"; "vi"; "li"; "sc"; "sa"; "cp"; "aq"; "pi" ]
    with (fst <$> signMap).
  split.
  - intros [p Hp].
    destruct (parsePosition_inv label str p Hp)
      as (m1 & m2 & m3 & m4 & si & Hm & Hsi & _).
    exists m1, m2, m3, m4. split; [apply posMatch_grammar, Hm |].
    apply assoc_In. eauto.
  - intros (g1 & g2 & g3 & g4 & Hg & Hin).
    apply posMatch_grammar in Hg. apply assoc_In in Hin.
    destruct Hin as [si Hsi]. unfold parsePosition. rewrite Hg, Hsi. eauto.
Qed.

Lemma parsePosition_tag {L : Type} (label : L) (str : string) (p : parsed L) :
  parsePosition label str = Some p -> tag p = label.
Proof.
  intros Hp.
  destruct (parsePosition_inv label str p Hp)
    as (m1 & m2 & m3 & m4 & si & _ & _ & Ht & _).
  exact Ht.
Qed.

(** X20.  The lines the parsers accept.  [parsePlanetLine] accepts a line
    exactly when the line, trimmed, has a comma and its second field,
    trimmed, is of the position pattern with one of the twelve sign
    abbreviations in either letter case; the name is the first field,
    trimmed, whatever it is; fields after the second are not looked at.
    [parseHouseLine] asks in addition that the first field, trimmed, starts
    with [house], white space and digits, which give the number; what
    follows the digits is not looked at.  [parseChartPointLine] is the same
    function as [parsePlanetLine]. *)
Theorem accepted_lines (line : string) :
  ((exists p : parsed string, parsePlanetLine line = Some p) <->
   exists (p0 p1 : string) (rest : list string) (g1 g2 g3 g4 : string),
     split "," (trim line) = p0 :: p1 :: rest /\
     positionGrammar (trim p1) g1 g2 g3 g4 /\
     In (toLowerCase g2)
       [ "ar"; "ta"; "ge"; "cn"; "le"; "vi"; "li"; "sc"; "sa"; "cp"; "aq";
         "pi" ])
  /\ (forall p : parsed string,
        parsePlanetLine line = Some p ->
        exists (p0 : string) (rest : list string),
          split "," (trim line) = p0 :: rest /\ tag p = trim p0)
  /\ ((exists p : parsed Z, parseHouseLine line = Some p) <->
      exists (p0 p1 : string) (rest : list string) (g g1 g2 g3 g4 : string),
        split "," (trim line) = p0 :: p1 :: rest /\
        houseGrammar (trim p0) g /\
        positionGrammar (trim p1) g1 g2 g3 g4 /\
        In (toLowerCase g2)
          [ "ar"; "ta"; "ge"; "cn"; "le"; "vi"; "li"; "sc"; "sa"; "cp"; "aq";
            "pi" ])
  /\ (forall p : parsed Z,
        parseHouseLine line = Some p ->
        exists (p0 : string) (rest : list string) (g : string),
          split "," (trim line) = p0 :: rest /\
          houseGrammar (trim p0) g /\ tag p = parseInt g)
  /\ parseChartPointLine line = parsePlanetLine line.
Proof.
  unfold parsePlanetLine, parseHouseLine.
  destruct (split "," (trim line)) as [| p0 [| p1 rest]] eqn:Es.
  - split; [split; [intros [p Hp]; discriminate Hp
                   | intros (? & ? & ? & ? & ? & ? & ? & H & _); discriminate H] |].
    split; [intros p Hp; discriminate Hp |].
    split; [split; [intros [p Hp]; discriminate Hp
                   | intros (? & ? & ? & ? & ? & ? & ? & ? & H & _);
                     discriminate H] |].
    split; [intros p Hp; discriminate Hp |].
    unfold parseChartPointLine. rewrite Es. reflexivity.
  - split; [split; [intros [p Hp]; discriminate Hp
                   | intros (? & ? & ? & ? & ? & ? & ? & H & _); discriminate H] |].
    split; [intros p Hp; discriminate Hp |].
    split; [split; [intros [p Hp]; discriminate Hp
                   | intros (? & ? & ? & ? & ? & ? & ? & ? & H & _);
                     discriminate H] |].
    split; [intros p Hp; discriminate Hp |].
    unfold parseChartPointLine. rewrite Es. reflexivity.
  - split; [| split; [| split; [| split]]].
    + rewrite parsePosition_accepts. split.
      * intros (g1 & g2 & g3 & g4 & Hg & Hin).
        exists p0, p1, rest, g1, g2, g3, g4. auto.
      * intros (q0 & q1 & r & g1 & g2 & g3 & g4 & [= <- <- <-] & Hg & Hin).
        eauto 10.
    + intros p Hp. exists p0, (p1 :: rest). split; [reflexivity |].
      exact (parsePosition_tag _ _ _ Hp).
    + split.
      * intros [p Hp].
        destruct (houseMatch (trim p0)) as [g |] eqn:Eg; [| discriminate Hp].
        destruct (proj1 (parsePosition_accepts (parseInt g) (trim p1)) (ex_intro _ p Hp))
          as (g1 & g2 & g3 & g4 & Hg & Hin).
        exists p0, p1, rest, g, g1, g2, g3, g4.
        split; [reflexivity |]. split; [apply houseMatch_grammar, Eg | auto].
      * intros (q0 & q1 & r & g & g1 & g2 & g3 & g4 & [= <- <- <-] & Hh & Hg & Hin).
        apply houseMatch_grammar in Hh. rewrite Hh.
        apply parsePosition_accepts. eauto 10.
    + intros p Hp.
      destruct (houseMatch (trim p0)) as [g |] eqn:Eg; [| discriminate Hp].
      exists p0, (p1 :: rest), g. split; [reflexivity |].
      split; [apply houseMatch_grammar, Eg |].
      exact (parsePosition_tag _ _ _ Hp).
    + unfold parseChartPointLine. rewrite Es. reflexivity.
Qed.

(** ** What the aspect engine reads and what it reports *)

Lemma flat_map_ext_In {X V : Type} (f g : X -> list V) (l : list X) :
  (forall x : X, In x l -> f x = g x) -> flat_map f l = flat_map g l.
Proof.
  induction l as [| x l IH]; intros H; [reflexivity |].
  cbn [flat_map]. rewrite (H x (or_introl eq_refl)). f_equal.
  apply IH. intros y Hy. apply H. right. exact Hy.
Qed.

(** X21.  Only the ten main planets count.  [calculateSynastryAspects]
    reads its two maps at the ten main planets and nowhere else: two pairs
    of maps that agree on these names give the same list, whatever else
    they hold (the lunar nodes, Chiron, the asteroids). *)
Theorem synastry_reads_main_planets (A A' B B' : gmap string point) :
  (forall planet : string, In planet mainPlanets -> A !! planet = A' !! planet) ->
  (forall planet : string, In planet mainPlanets -> B !! planet = B' !! planet) ->
  calculateSynastryAspects A B = calculateSynastryAspects A' B'.
Proof.
  intros HA HB. unfold calculateSynastryAspects. f_equal.
  rewrite !collectAspects_flat_map. apply flat_map_ext_In.
  intros planet1 H1. rewrite <- (HA planet1 H1).
  destruct (A !! planet1) as [pos1 |]; [| reflexivity].
  unfold rowAspects. apply flat_map_ext_In.
  intros planet2 H2. rewrite <- (HB planet2 H2). reflexivity.
Qed.

Lemma synastry_reads_main_planets_witness :
  calculateSynastryAspects
    {[ "Sun" := Point (Num 0) (Some "Aries") (Num 0) ]}
    {[ "Sun" := Point (Num 95) (Some "Cancer") (Num 5) ]}
  = calculateSynastryAspects
      {[ "Sun" := Point (Num 0) (Some "Aries") (Num 0);
         "Chiron" := Point (Num 95) (Some "Cancer") (Num 5) ]}
      {[ "Sun" := Point (Num 95) (Some "Cancer") (Num 5);
         "North Node" := Point (Num 0) (Some "Aries") (Num 0) ]}.
Proof.
  apply synastry_reads_main_planets; intros planet Hin; cbn in Hin;
    repeat (destruct Hin as [<- | Hin]; [vm_compute; reflexivity |]);
    destruct Hin.
Defined.

Section OrbBounds.
Local Open Scope Q_scope.

Lemma aspectTable_bounds (name : string) (target maxOrb : Q) :
  In (name, target, maxOrb) aspectTable ->
  exists z : Z,
    assoc aspectOrbs name = Some z /\ maxOrb == inject_Z z /\
    (0 <= z <= 8)%Z /\ round2 maxOrb == maxOrb.
Proof.
  cbn. intros H.
  repeat (destruct H as [[= <- <- <-] | H];
          [eexists; split; [reflexivity |]; repeat split;
           vm_compute; congruence |]).
  destruct H.
Qed.

Lemma round2_180 : round2 180 == 180.
Proof. vm_compute. reflexivity. Qed.

Lemma round2_0 : round2 0 == 0.
Proof. vm_compute. reflexivity. Qed.

Lemma separation_le_180 (lonA lonB : Q) : separation lonA lonB <= 180.
Proof.
  unfold separation. set (x := Qabs (lonA - lonB)).
  destruct (Q.min_spec x (360 - x)) as [[Hlt ->] | [Hle ->]]; lra.
Qed.

(** The two-decimal text of a number reads back as a number that is not
    above the rounding of any bound of the number. *)
Lemma toFixed2_upper (x b : Q) :
  x <= b -> 0 <= b ->
  exists y : Q, parseFloatDec (toFixed2 (Num x)) = Num y /\ y <= round2 b.
Proof.
  intros Hxb Hb. unfold toFixed2.
  destruct (Qle_bool 0 x) eqn:E; cbn [negb parseFloatDec].
  - eexists. split; [reflexivity |].
    apply Qle_bool_iff in E. apply (round2_mono x b Hxb).
  - eexists. split; [reflexivity |].
    assert (Hneg : ~ 0 <= x) by (intros H; apply Qle_bool_iff in H; congruence).
    apply Qnot_le_lt in Hneg.
    assert (H0 : (0 <= Qfloor (- x * 100 + (1 # 2)))%Z).
    { change 0%Z with (Qfloor 0). apply Qfloor_resp_le. lra. }
    rewrite Zle_Qle in H0. change (inject_Z 0) with 0 in H0.
    pose proof (round2_nonneg b Hb) as Hr.
    set (z := inject_Z (Qfloor (- x * 100 + (1 # 2)))) in *.
    assert (Hz : 0 <= z / 100) by (apply Qle_shift_div_l; [reflexivity | lra]).
    lra.
Qed.
End OrbBounds.

(** X22.  The numbers of a record.  Every record of the result speaks of
    two longitudes that are numbers (a position whose longitude is [NaN] is
    in no aspect); its orb reads back as a number from 0 to the maximum orb
    of its aspect type, 8 at most; its angle reads back as a number that is
    at most 180, and not negative when both longitudes are in [0, 360). *)
Theorem record_numbers (A B : gmap string point) (a : aspect) :
  In a (calculateSynastryAspects A B) ->
  exists (lonA lonB o d : Q) (maxOrb : Z),
    longitude (person1_position a) = Num lonA /\
    longitude (person2_position a) = Num lonB /\
    assoc aspectOrbs (aspect_name a) = Some maxOrb /\
    parseFloatDec (orb a) = Num o /\
    (0 <= o)%Q /\ (o <= inject_Z maxOrb)%Q /\ (maxOrb <= 8)%Z /\
    parseFloatDec (exact_angle a) = Num d /\ (d <= 180)%Q /\
    ((0 <= lonA)%Q -> (lonA < 360)%Q -> (0 <= lonB)%Q -> (lonB < 360)%Q ->
     (0 <= d)%Q).
Proof.
  intros Ha. apply in_calculateSynastryAspects in Ha.
  destruct Ha as (pA & pB & posA & posB & lonA & lonB & name & target & maxOrb
                  & _ & _ & _ & _ & LA & LB & Hin & Hle & ->).
  destruct (aspectTable_bounds name target maxOrb Hin)
    as (z & Hz & Ez & Hz8 & Hr).
  unfold aspectRecord.
  cbn [person1_position person2_position aspect_name orb exact_angle].
  set (s := separation lonA lonB) in *.
  pose proof (Qabs_nonneg (s - target)) as Hx.
  destruct (toFixed2_round2 (Qabs (s - target)) Hx) as [Eo _].
  destruct (toFixed2_upper s 180 (separation_le_180 lonA lonB) ltac:(lra))
    as (d & Ed & Hd).
  exists lonA, lonB, (round2 (Qabs (s - target))), d, z.
  split; [exact LA |]. split; [exact LB |]. split; [exact Hz |].
  split; [exact Eo |].
  split; [apply round2_nonneg, Hx |].
  split; [rewrite <- Ez, <- Hr; apply round2_mono, Hle |].
  split; [lia |].
  split; [exact Ed |].
  split; [rewrite round2_180 in Hd; exact Hd |].
  intros A0 A1 B0 B1.
  destruct (separation_range lonA lonB A0 A1 B0 B1) as [S0 _].
  fold s in S0.
  destruct (toFixed2_round2 s S0) as [Ed' _]. rewrite Ed' in Ed.
  injection Ed as <-. apply round2_nonneg, S0.
Qed.

Lemma record_numbers_witness :
  exists (lonA lonB o d : Q) (maxOrb : Z),
    Num 0 = Num lonA /\ Num 95 = Num lonB /\
    assoc aspectOrbs "square" = Some maxOrb /\
    parseFloatDec (Dec false 500) = Num o /\
    (0 <= o)%Q /\ (o <= inject_Z maxOrb)%Q /\ (maxOrb <= 8)%Z /\
    parseFloatDec (Dec false 9500) = Num d /\ (d <= 180)%Q /\
    ((0 <= lonA)%Q -> (lonA < 360)%Q -> (0 <= lonB)%Q -> (lonB < 360)%Q ->
     (0 <= d)%Q).
Proof.
  apply (record_numbers
           {[ "Sun" := Point (Num 0) (Some "Aries") (Num 0) ]}
           {[ "Sun" := Point (Num 95) (Some "Cancer") (Num 5) ]}
           (Aspect "Sun" "Sun" "square" (Dec false 500) (Dec false 9500)
              (Point (Num 0) (Some "Aries") (Num 0))
              (Point (Num 95) (Some "Cancer") (Num 5)))).
  vm_compute. left. reflexivity.
Defined.

(** ** The answers of the tools *)
















